(** * SDG 15.3.1 land-degradation indicator: the productivity, integration
      and soil-organic-carbon scripts, embedded and checked against their
      specification.

    The scripts are written against the Earth Engine raster algebra.  The
    rasters are embedded pixel by pixel: a band maps a grid cell to a value
    or to "masked", an image is a list of named bands with the two
    properties the scripts read ([year] and [system:time_start]), and an
    image collection is a list of images.  Values are rationals, so that
    every threshold of the scripts ([1.96], [0.5], [10], [100]) is exact;
    the cast to a 32-bit float is the rounding of a rational to that
    format.  A call of the raster engine that fails is a failure of the
    script that makes it.

    Part I holds the definitions, one module per source file; Part II the
    theorems. *)

From Stdlib Require Import ZArith QArith Qabs Qround List String DecimalString.
From Stdlib Require Import Bool Lia Lqa FinFun.
Import ListNotations.
Local Open Scope string_scope.
Local Open Scope list_scope.
Local Open Scope Q_scope.

(* ================================================================== *)
(** * Part I. Definitions                                              *)
(* ================================================================== *)

(** ** Errors

    What the Python scripts can raise: the built-in exceptions they raise
    themselves (or that the interpreter raises for them), and the
    exception of the raster engine. *)

Inductive exn : Type :=
| NameError (msg : string)
| UnboundLocalError (variable : string)
| EEException (msg : string).

Definition result (A : Type) : Type := (exn + A)%type.

Definition ok {A} (a : A) : result A := inr a.
Definition raise {A} (e : exn) : result A := inl e.

Definition bind {A B} (m : result A) (k : A -> result B) : result B :=
  match m with
  | inl e => inl e
  | inr a => k a
  end.

Notation "x <- m ;; k" := (bind m (fun x => k))
  (at level 61, m at next level, right associativity).

Fixpoint mapM {A B} (f : A -> result B) (l : list A) : result (list B) :=
  match l with
  | [] => ok []
  | a :: l' => b <- f a ;; bs <- mapM f l' ;; ok (b :: bs)
  end.

Notation "x |> f" := (f x) (at level 71, left associativity, only parsing).

Definition is_error {A} (r : result A) : bool :=
  match r with inl _ => true | inr _ => false end.

(** ** The raster substrate *)

Module ee.

(** A grid cell, by row and column. *)
Definition pixel : Type := (Z * Z)%type.

(** The value of a band at a cell; [None] is a masked cell. *)
Definition px : Type := option Q.

Definition band : Type := pixel -> px.

Definition Qlt_bool (x y : Q) : bool := negb (Qle_bool y x).

Definition of_bool (b : bool) : Q := if b then 1 else 0.

Definition nonzero (q : Q) : bool := negb (Qeq_bool q 0).

(** [ee.Image(c)]: the same value everywhere. *)
Definition constant (c : Q) : band := fun _ => Some c.

(** The image with no valid cell. *)
Definition masked : band := fun _ => None.

Definition lift1 (f : Q -> Q) (a : band) : band :=
  fun p => option_map f (a p).

(** Binary operations are masked wherever one operand is. *)
Definition lift2 (f : Q -> Q -> Q) (a b : band) : band :=
  fun p =>
    match a p, b p with
    | Some x, Some y => Some (f x y)
    | _, _ => None
    end.

Definition add : band -> band -> band := lift2 Qplus.
Definition subtract : band -> band -> band := lift2 Qminus.
Definition multiply : band -> band -> band := lift2 Qmult.
Definition abs : band -> band := lift1 Qabs.

(** Division; a division by zero gives 0. *)
Definition divide (a b : band) : band :=
  fun p =>
    match a p, b p with
    | Some x, Some y => if Qeq_bool y 0 then Some 0 else Some (x / y)
    | _, _ => None
    end.

(** Comparisons give 1 where they hold and 0 where they do not. *)
Definition lt : band -> band -> band :=
  lift2 (fun x y => of_bool (Qlt_bool x y)).
Definition gt : band -> band -> band :=
  lift2 (fun x y => of_bool (Qlt_bool y x)).
Definition lte : band -> band -> band :=
  lift2 (fun x y => of_bool (Qle_bool x y)).
Definition gte : band -> band -> band :=
  lift2 (fun x y => of_bool (Qle_bool y x)).
Definition eq : band -> band -> band :=
  lift2 (fun x y => of_bool (Qeq_bool x y)).
Definition neq : band -> band -> band :=
  lift2 (fun x y => of_bool (negb (Qeq_bool x y))).

Definition And : band -> band -> band :=
  lift2 (fun x y => of_bool (nonzero x && nonzero y)).

(** [input.where(test, value)]: the value where the test is non-zero, the
    input elsewhere; the input is kept where the test or the value is
    masked, and a masked input stays masked. *)
Definition where_ (input test value : band) : band :=
  fun p =>
    match input p with
    | None => None
    | Some i =>
        match test p, value p with
        | Some t, Some v => if nonzero t then Some v else Some i
        | _, _ => Some i
        end
    end.

(** [unmask(c)]: masked cells take the value [c]. *)
Definition unmask (c : Q) (a : band) : band :=
  fun p => match a p with Some v => Some v | None => Some c end.

(** [updateMask]: cells where the mask is zero or masked lose their value. *)
Definition updateMask (a m : band) : band :=
  fun p =>
    match m p with
    | Some t => if nonzero t then a p else None
    | None => None
    end.

(** The cast [uint8] brings a value to the integers of [0, 255]. *)
Definition uint8 : band -> band :=
  lift1 (fun q => inject_Z (Z.max 0 (Z.min 255 (Qfloor q)))).

Definition int16 : band -> band :=
  lift1 (fun q => inject_Z (Z.max (-32768) (Z.min 32767 (Qfloor q)))).

(** The scripts chain their calls, [img.where(t, 1).where(u, 3)]; the
    chain is written with [|>], with the receiver of each call as the last
    argument of the functions below.  A number given where an image is
    expected is the constant image. *)
Definition where' (test : band) (value : Q) (input : band) : band :=
  where_ input test (constant value).

Definition where_b (test value : band) (input : band) : band :=
  where_ input test value.

Definition lt_c (c : Q) (a : band) : band := lt a (constant c).
Definition gt_c (c : Q) (a : band) : band := gt a (constant c).
Definition lte_c (c : Q) (a : band) : band := lte a (constant c).
Definition gte_c (c : Q) (a : band) : band := gte a (constant c).
Definition eq_c (c : Q) (a : band) : band := eq a (constant c).
Definition neq_c (c : Q) (a : band) : band := neq a (constant c).
Definition multiply_c (c : Q) (a : band) : band := multiply a (constant c).
Definition divide_c (c : Q) (a : band) : band := divide a (constant c).

(** [remap(from, to)]: the entry of [to] at the position of the value in
    [from]; a value that is not in [from] is masked. *)
Fixpoint lookup (from to : list Q) (v : Q) : option Q :=
  match from, to with
  | f :: from', t :: to' => if Qeq_bool v f then Some t else lookup from' to' v
  | _, _ => None
  end.

Definition remap (from to : list Q) (a : band) : band :=
  fun p =>
    match a p with
    | Some v => lookup from to v
    | None => None
    end.

(** *** Images and collections *)

(** A calendar date, as far as the scripts look at [system:time_start]. *)
Record date : Type := mkDate { d_year : Z; d_month : Z; d_day : Z }.

Record Image : Type := mkImage {
  bands : list (string * band);
  year : option Z;               (* the property 'year' *)
  time_start : option date       (* the property 'system:time_start' *)
}.

Definition ImageCollection : Type := list Image.

Definition bandNames (img : Image) : list string := map fst (bands img).

(** A single-band image without properties. *)
Definition single (name : string) (b : band) : Image :=
  mkImage [(name, b)] None None.

(** [ee.Image(c)] and [ee.Image.constant(c)] as images: one band, named
    [constant]. *)
Definition Image_constant (c : Q) : Image := single "constant" (constant c).

(** The power of two of an integer exponent. *)
Definition pow2 (z : Z) : Q :=
  if (0 <=? z)%Z then inject_Z (2 ^ z) else / inject_Z (2 ^ (- z)).

(** The exponent of a positive rational: [2^e <= q < 2^(e+1)]. *)
Definition exponent (q : Q) : Z :=
  let e := (Z.log2 (Qnum q) - Z.log2 (Zpos (Qden q)))%Z in
  if Qle_bool (pow2 e) q then e else (e - 1)%Z.

(** The nearest integer, the even one of two that are as near. *)
Definition round_half_even (q : Q) : Z :=
  let f := Qfloor q in
  let r := q - inject_Z f in
  if Qlt_bool r (1 # 2) then f
  else if Qlt_bool (1 # 2) r then (f + 1)%Z
  else if Z.even f then f else (f + 1)%Z.

(** The cast [float] rounds a value to the nearest number of the 32-bit
    binary format: 24 significant bits, and below the exponent -126 the
    spacing [2^-149]; of two numbers that are as near, the one with the
    even significand.  A value of magnitude [2^128] or more, which the
    cast turns into an infinity, has no rational counterpart and is
    outside this embedding. *)
Definition float32 (q : Q) : Q :=
  if Qeq_bool q 0 then 0
  else
    let e := Z.max (exponent (Qabs q)) (-126) in
    let ulp := pow2 (e - 23) in
    inject_Z (round_half_even (q / ulp)) * ulp.

(** [rename]: the bands take the new names, in order; the call fails
    unless there are as many names as bands. *)
Definition names_mismatch : exn :=
  EEException "Image.rename: The number of names must match the number of bands.".

Definition rename (names : list string) (img : Image) : result Image :=
  if Nat.eqb (List.length names) (List.length (bands img))
  then ok (mkImage (combine names (map snd (bands img)))
                   (year img) (time_start img))
  else raise names_mismatch.

Definition addBands (img other : Image) : Image :=
  mkImage (bands img ++ bands other) (year img) (time_start img).

(** An operation on every band of an image. *)
Definition map_bands (f : band -> band) (img : Image) : Image :=
  mkImage (map (fun nb => (fst nb, f (snd nb))) (bands img))
          (year img) (time_start img).

(** [img.float()]: the cast of every band. *)
Definition float (img : Image) : Image := map_bands (lift1 float32) img.

Definition set_year (y : Z) (img : Image) : Image :=
  mkImage (bands img) (Some y) (time_start img).

Fixpoint find_band (name : string) (bs : list (string * band)) : option band :=
  match bs with
  | [] => None
  | (n, b) :: bs' => if String.eqb n name then Some b else find_band name bs'
  end.

(** [img.select(name)]: fails when no band has that name. *)
Definition select (name : string) (img : Image) : result Image :=
  match find_band name (bands img) with
  | Some b => ok (mkImage [(name, b)] (year img) (time_start img))
  | None =>
      raise (EEException
               ("Image.select: Pattern '" ++ name ++ "' did not match any bands.")%string)
  end.

(** The data of the band of that name. *)
Definition band_of (name : string) (img : Image) : result band :=
  match find_band name (bands img) with
  | Some b => ok b
  | None =>
      raise (EEException
               ("Image.select: Pattern '" ++ name ++ "' did not match any bands.")%string)
  end.

(** [img.select(i)], by position. *)
Definition select_index (i : Z) (bs : list band) : result band :=
  match (if (i <? 0)%Z then None else nth_error bs (Z.to_nat i)) with
  | Some b => ok b
  | None => raise (EEException "Image.select: Band index out of range.")
  end.

(** The value of the band of that name at a cell; nothing when the image
    has no such band. *)
Definition sample (name : string) (img : Image) (p : pixel) : px :=
  match find_band name (bands img) with
  | Some b => b p
  | None => None
  end.

(** [collection.select(name)] selects in every image. *)
Definition select_coll (name : string) (c : ImageCollection)
  : result ImageCollection :=
  mapM (select name) c.

(** The data of a single-band image. *)
Definition the_band (img : Image) : band :=
  match bands img with
  | (_, b) :: _ => b
  | [] => masked
  end.

(** [ee.Filter.calendarRange(y, field="year")] and [(m, field="month")]
    on [system:time_start]. *)
Definition in_year (y : Z) (img : Image) : bool :=
  match time_start img with
  | Some d => Z.eqb (d_year d) y
  | None => false
  end.

Definition in_month (m : Z) (img : Image) : bool :=
  match time_start img with
  | Some d => Z.eqb (d_month d) m
  | None => false
  end.

(** [ee.Filter.eq('year', y)] and [ee.Filter.rangeContains('year', a, b)]
    on the property [year]. *)
Definition has_year (y : Z) (img : Image) : bool :=
  match year img with
  | Some y' => Z.eqb y' y
  | None => false
  end.

Definition year_in_range (a b : Z) (img : Image) : bool :=
  match year img with
  | Some y => Z.leb a y && Z.leb y b
  | None => false
  end.

(** [ee.List.sequence(start, end)]: start, start + 1, ..., end. *)
Definition sequence (start end_ : Z) : list Z :=
  map (fun i => (start + Z.of_nat i)%Z) (seq 0 (Z.to_nat (end_ - start + 1))).

(** [ee.Filter.calendarRange(a, b, 'year')]; when [b < a] the range wraps
    around. *)
Definition in_years (a b : Z) (img : Image) : bool :=
  match time_start img with
  | Some d =>
      if (b <? a)%Z then Z.leb a (d_year d) || Z.leb (d_year d) b
      else Z.leb a (d_year d) && Z.leb (d_year d) b
  | None => false
  end.

(** [collection.first()], null on an empty collection; the scripts call a
    method on the result at once, which fails on null. *)
Definition first (c : ImageCollection) : result Image :=
  match c with
  | img :: _ => ok img
  | [] => raise (EEException "Parameter 'image' is required and may not be null.")
  end.

(** The decimal writing of an integer, for the band names [y2001]. *)
Definition string_of_Z (z : Z) : string := NilZero.string_of_int (Z.to_int z).

(** *** Reducers *)

Definition Qsum (l : list Q) : Q := fold_right Qplus 0 l.

Definition Qmean (l : list Q) : Q := Qsum l / inject_Z (Z.of_nat (List.length l)).

(** The valid values of a stack of bands at one cell. *)
Definition values_at (p : pixel) (bs : list band) : list Q :=
  flat_map (fun b => match b p with Some v => [v] | None => [] end) bs.

(** [ee.Reducer.mean()] at one cell: the mean of the valid values; with no
    valid value the cell is masked. *)
Definition mean_at (p : pixel) (bs : list band) : px :=
  match values_at p bs with
  | [] => None
  | vs => Some (Qmean vs)
  end.

(** The name a collection reducer gives its output: the band's name and
    the reducer's suffix. *)
Definition reduced_name (c : ImageCollection) (suffix : string) : string :=
  match c with
  | img :: _ =>
      match bandNames img with
      | n :: _ => (n ++ "_" ++ suffix)%string
      | [] => suffix
      end
  | [] => suffix
  end.

(** The band at a position of an image; no cell has a value when the
    image has fewer bands. *)
Definition band_at (i : nat) (img : Image) : band :=
  the_band (mkImage (skipn i (bands img)) (year img) (time_start img)).

(** [collection.reduce(ee.Reducer.mean())]: a band for every band of the
    first image, under its name and the suffix of the reducer, the mean
    over the images cell by cell.  The reduction of a collection without
    image is an image without band. *)
Definition reduce_mean (c : ImageCollection) : Image :=
  match c with
  | [] => mkImage [] None None
  | first_img :: _ =>
      mkImage
        (map (fun i_name =>
                ((snd i_name ++ "_mean")%string,
                 fun p => mean_at p (map (band_at (fst i_name)) c)))
             (combine (seq 0 (List.length (bandNames first_img)))
                      (bandNames first_img)))
        None None
  end.

(** [collection.aggregate_array('system:time_start')]: the property of
    every image that has it, in order. *)
Definition aggregate_array_time_start (c : ImageCollection) : list date :=
  flat_map (fun img => match time_start img with
                       | Some d => [d]
                       | None => []
                       end) c.

(** *** Bitwise and boolean operations, masks and properties *)

(** The bitwise operations work on the integer part of the values. *)
Definition bitwiseAnd : band -> band -> band :=
  lift2 (fun x y => inject_Z (Z.land (Qfloor x) (Qfloor y))).

Definition bitwiseAnd_c (c : Z) (a : band) : band :=
  bitwiseAnd a (constant (inject_Z c)).

Definition rightShift (n : Z) : band -> band :=
  lift1 (fun x => inject_Z (Z.shiftr (Qfloor x) n)).

Definition Or : band -> band -> band :=
  lift2 (fun x y => of_bool (nonzero x || nonzero y)).

Definition Not : band -> band :=
  lift1 (fun x => of_bool (negb (nonzero x))).

(** [img.mask().reduce(ee.Reducer.min())]: 1 where every band of the image
    has a value, 0 elsewhere. *)
Definition mask_min (img : Image) : band :=
  fun p =>
    Some (of_bool (forallb (fun nb => match snd nb p with
                                      | Some _ => true
                                      | None => false
                                      end) (bands img))).

(** [img.select(old, new)]: the bands of the old names, in that order,
    under the new names. *)
Definition select_as (old new : list string) (img : Image) : result Image :=
  bs <- mapM (fun name => band_of name img) old ;;
  ok (mkImage (combine new bs) (year img) (time_start img)).

(** [img.copyProperties(source, ['system:time_start', 'system:time_end'])]. *)
Definition copyProperties (source img : Image) : Image :=
  mkImage (bands img) (year img) (time_start source).

(** Membership of a name in a list of names, Python's [in]. *)
Definition is_in (name : string) (names : list string) : bool :=
  existsb (String.eqb name) names.

End ee.

(** ** component/scripts/integration.py *)

Module integration.
Import ee.

(** [int_yearly_ndvi]: for each year, the mean over the images that
    [months] lists, each of them the mean of the observations of one
    calendar month of that year. *)
Definition daily_to_monthly_to_annual (ndvi_coll : ImageCollection) (year : Z)
  : result Image :=
  let ndvi_collection := ndvi_coll in
  let ndvi_coll_ann := filter (in_year year) ndvi_collection in
  let months := map d_month (aggregate_array_time_start ndvi_coll_ann) in
  let img_coll :=
    map (fun month => reduce_mean (filter (in_month month) ndvi_coll_ann))
        months in
  vi <- rename ["vi"] (float (reduce_mean img_coll)) ;;
  let img_coll_ndvi := set_year year vi in
  ok img_coll_ndvi.

(** The images are built when the collection is evaluated: a year whose
    image cannot be built is the failure of the whole series. *)
Definition int_yearly_ndvi (ndvi_coll : ImageCollection) (start end_ : Z)
  : result ImageCollection :=
  let years := sequence start end_ in
  let img_coll := mapM (daily_to_monthly_to_annual ndvi_coll) years in
  img_coll.

Definition int_yearly_climate (precipitation : ImageCollection) (start end_ : Z)
  : result ImageCollection :=
  let years := sequence start end_ in
  let img_coll :=
    mapM (fun year =>
            clim <-
              rename ["clim"]
                (reduce_mean (filter (in_year year) precipitation)) ;;
            year_band <-
              rename ["year"] (float (Image_constant (inject_Z year))) ;;
            ok (set_year year (addBands clim year_band)))
         years in
  img_coll.

Definition annual_modis_vi (modis_img : ImageCollection) (start end_ : Z)
  : result ImageCollection :=
  let years := sequence start end_ in
  let img_coll :=
    mapM (fun year =>
            vi <-
              rename ["vi"] (reduce_mean (filter (in_year year) modis_img)) ;;
            year_band <-
              rename ["year"] (float (Image_constant (inject_Z year))) ;;
            ok (set_year year (addBands vi year_band)))
         years in
  img_coll.

(** *** Sensors, masks and indices *)

Definition rename_band (img : Image) (sensor : string) : result Image :=
  if is_in sensor ["Landsat 4"; "Landsat 5"; "Landsat 7"] then
    select_as ["SR_B1"; "SR_B3"; "SR_B4"; "QA_PIXEL"]
              ["Blue"; "Red"; "NIR"; "pixel_qa"] img
  else if is_in sensor ["Landsat 8"; "Landsat 9"] then
    select_as ["SR_B2"; "SR_B4"; "SR_B5"; "QA_PIXEL"]
              ["Blue"; "Red"; "NIR"; "pixel_qa"] img
  else if String.eqb sensor "Sentinel 2" then
    select_as ["B2"; "B4"; "B8"; "QA60"] ["Blue"; "Red"; "NIR"; "QA60"] img
  else ok img.

Definition bit_selection (bitmask : band) (start_bit end_bit : Z) : band :=
  let bit_len := (1 + end_bit - start_bit)%Z in
  let bit_position := (Z.shiftl 1 bit_len - 1)%Z in
  bitmask |> rightShift start_bit |> bitwiseAnd_c bit_position.

Definition cloud_mask (img : Image) (sensor : string) : result Image :=
  if is_in sensor ["Landsat 5"; "Landsat 7"; "Landsat 4"; "Landsat 8"; "Landsat 9"]
  then
    qa <- band_of "pixel_qa" img ;;
    let cloud :=
      Or (And (qa |> bitwiseAnd_c (Z.shiftl 1 3)) (qa |> bitwiseAnd_c (Z.shiftl 1 8)))
         (qa |> bitwiseAnd_c (Z.shiftl 1 4)) in
    let mask2 := mask_min img in
    ok (img |> map_bands (fun b => updateMask b (Not cloud))
            |> map_bands (fun b => updateMask b mask2))
  else if String.eqb sensor "Sentinel 2" then
    qa <- band_of "QA60" img ;;
    let cloudBitMask := Z.shiftl 1 10 in
    let cirrusBitMask := Z.shiftl 1 11 in
    let mask :=
      And (qa |> bitwiseAnd_c cloudBitMask |> eq_c 0)
          (qa |> bitwiseAnd_c cirrusBitMask |> eq_c 0) in
    ok (img |> map_bands (fun b => updateMask b mask)
            |> map_bands (divide_c 10000))
  else if String.eqb sensor "MODIS" then
    qa <- band_of "DetailedQA" img ;;
    let viqamask1 := bit_selection qa 0 1 |> lte_c 1 in
    let snowmask := bit_selection qa 14 14 |> eq_c 0 in
    let shadowmask := bit_selection qa 15 15 |> eq_c 0 in
    let mixedcloudmask := bit_selection qa 10 10 |> eq_c 0 in
    let mask := And (And (And viqamask1 snowmask) shadowmask) mixedcloudmask in
    ok (img |> map_bands (fun b => updateMask b mask))
  else ok img.

(** [apply_scale_factor]: for a sensor of neither branch nothing assigns
    [scalled_img], and returning it raises. *)
Definition apply_scale_factor (img : Image) (sensor : string) : result Image :=
  if is_in sensor ["Landsat 5"; "Landsat 7"; "Landsat 4"; "Landsat 8"; "Landsat 9"]
  then
    ok (img |> map_bands (multiply_c 0.0000275)
            |> map_bands (fun b => add b (constant (-0.2)))
            |> copyProperties img)
  else if String.eqb sensor "Sentinel 2" then
    ok (img |> map_bands (multiply_c 0.0001) |> copyProperties img)
  else raise (UnboundLocalError "scalled_img").

Definition calculate_ndvi (img : Image) : result Image :=
  red <- band_of "Red" img ;;
  nir <- band_of "NIR" img ;;
  let ndvi :=
    mkImage [("ndvi", divide (subtract nir red) (add nir red))]
            None (time_start img) in
  ok ndvi.

Definition calculate_evi (img : Image) : result Image :=
  nir <- band_of "NIR" img ;;
  red <- band_of "Red" img ;;
  let evi :=
    mkImage [("evi",
              multiply (constant 2.4)
                (divide (subtract nir red)
                        (add (add nir red) (constant 1))))]
            None (time_start img) in
  ok evi.

Definition vi_threshold (img : Image) (threshold : Q) : Image :=
  img |> map_bands (fun b => let threshold_bin := b |> gt_c threshold in
                             multiply b threshold_bin)
      |> copyProperties img.

Definition img_scalling (img : Image) (scale_factor : Q) : Image :=
  img |> map_bands (multiply_c scale_factor) |> copyProperties img.

Definition preproc_modis_npp (npp_coll : ImageCollection) (start end_ : Z)
  : result ImageCollection :=
  let years := sequence start end_ in
  mapM (fun year =>
          npp <- first (filter (in_year year) npp_coll) ;;
          vi <- rename ["vi"] (npp |> map_bands (multiply_c 0.0001)) ;;
          year_band <- rename ["year"] (float (Image_constant (inject_Z year))) ;;
          ok (set_year year (addBands vi year_band)))
       years.

(** The period of [integrate_ndvi_climate]: the least of the starts and the
    greatest of the ends that are given.  [min] and [max] of an empty
    sequence raise; that is the [None] here. *)
Definition given (l : list (option Z)) : list Z :=
  flat_map (fun v => match v with Some z => [z] | None => [] end) l.

Definition min_of (l : list Z) : option Z :=
  match l with
  | [] => None
  | z :: l' => Some (fold_left Z.min l' z)
  end.

Definition max_of (l : list Z) : option Z :=
  match l with
  | [] => None
  | z :: l' => Some (fold_left Z.max l' z)
  end.

Definition period_start (start_list : list (option Z)) : option Z :=
  min_of (given start_list).

Definition period_end (end_list : list (option Z)) : option Z :=
  max_of (given end_list).

End integration.

(** ** The parameter module *)

Module pm.

(** Modelled from the spec: the parameter module [component/parameter] is
    not among the sources.  The trajectory methods are the four of the
    specification (4.4: direct trend, residual trend, the unimplemented
    s_restrend, rain-use efficiency), under the names and in the order of
    the list that [run.py] writes out. *)
Definition trajectories : list string :=
  ["ndvi_trend"; "p_restrend"; "s_restrend"; "ue_trend"].

(** Modelled from the spec: the no-data sentinel of the parameter module,
    the least 16-bit integer, which [run.py] writes as a literal. *)
Definition int_16_min : Q := -32768.

End pm.

(** The analysis parameters the scripts read from [model]. *)
Record Model : Type := mkModel {
  trajectory : string;
  start : Z;
  end_ : Z;
  baseline_end : Z;
  target_start : Z;
  p_soc_t_start : Z;
  p_soc_t_end : Z;
  conversion_coef : option Q
}.

(** ** component/scripts/productivity.py *)

Module productivity.
Import ee.

Section Productivity.

(** What the module takes from outside: the normal-approximation
    coefficient of the parameter module, and the rank-correlation and
    linear-regression reducers of the raster engine, over the stack of
    annual bands of a cell. *)
Variable z_coefficient : Z -> Q.
Variable kendallsCorrelation : list band -> band.
Variable linearFit : list (band * band) -> band * band.   (* scale, offset *)

Definition reduce_kendallsCorrelation (c : ImageCollection) : Image :=
  single (reduced_name c "tau") (kendallsCorrelation (map the_band c)).

(** [collection.select(['clim', 'ndvi']).reduce(ee.Reducer.linearFit())]:
    the bands [scale] and [offset]. *)
Definition reduce_linearFit (c : ImageCollection) : result Image :=
  xs <- select_coll "clim" c ;;
  ys <- select_coll "ndvi" c ;;
  let fit := linearFit (combine (map the_band xs) (map the_band ys)) in
  ok (mkImage [("scale", fst fit); ("offset", snd fit)] None None).

Definition ndvi_trend (start end_ : Z) (integrated_annual_vi : ImageCollection)
  : result Image :=
  let n := (end_ - start + 1)%Z in
  let z_coefficient := z_coefficient n in
  selected <- select_coll "ndvi" integrated_annual_vi ;;
  tau <- select "ndvi_tau" (reduce_kendallsCorrelation selected) ;;
  let kendall_trend := map_bands (multiply_c z_coefficient) tau in
  ok kendall_trend.

(** [ee.Join.inner] with the filter [year == year]: one pair for every
    image of the first collection and every image of the second with the
    same [year]. *)
Definition same_year (a b : Image) : bool :=
  match year a, year b with
  | Some x, Some y => Z.eqb x y
  | _, _ => false
  end.

Definition inner_join (primary secondary : ImageCollection)
  : list (Image * Image) :=
  flat_map (fun a => map (fun b => (a, b)) (filter (same_year a) secondary))
           primary.

(** [ee.Image.cat(a, b).set('year', a.get('year'))]. *)
Definition cat_with_year (feature : Image * Image) : Image :=
  let clim := fst feature in
  let ndvi := snd feature in
  mkImage (bands clim ++ bands ndvi) (year clim) None.

Definition ndvi_climate_merge
  (climate_yearly_integration ndvi_yearly_integration : ImageCollection)
  : result ImageCollection :=
  clim <- select_coll "clim" climate_yearly_integration ;;
  ndvi <- select_coll "ndvi" ndvi_yearly_integration ;;
  let inner_join := inner_join clim ndvi in
  let joined := map cat_with_year inner_join in
  ok joined.

(** [ndvi_residuals]: observed minus predicted, with the year as a band.
    [modeled.filter(ee.Filter.eq('year', year)).first()] is null when no
    predicted image has that year, and the subtraction then fails. *)
Definition ndvi_residuals (modeled : ImageCollection) (image : Image)
  : result Image :=
  match year image with
  | None => raise (EEException "Image.constant: Parameter 'value' is required.")
  | Some year =>
      ndvi_o <- select "ndvi" image ;;
      match filter (has_year year) modeled with
      | [] => raise (EEException "Image.subtract: Parameter 'image2' is required.")
      | ndvi_p :: _ =>
          ndvi_r <-
            rename ["year"; "ndvi_res"]
              (addBands (float (Image_constant (inject_Z year)))
                        (single "ndvi"
                           (subtract (the_band ndvi_o) (the_band ndvi_p)))) ;;
          ok ndvi_r
      end
  end.

(** The annual residual series of [restrend], on which the rank
    correlation is then computed. *)
Definition residual_series
  (ndvi_yearly_integration climate_yearly_integration : ImageCollection)
  : result ImageCollection :=
  ndvi_climate_yearly_integration <-
    ndvi_climate_merge climate_yearly_integration ndvi_yearly_integration ;;
  linear_model_climate_ndvi <- reduce_linearFit ndvi_climate_yearly_integration ;;
  offset <- select "offset" linear_model_climate_ndvi ;;
  scale <- select "scale" linear_model_climate_ndvi ;;
  let ndvi_prediction_climate (image : Image) : Image :=
    mkImage [("offset",
              add (the_band offset) (multiply (the_band scale) (the_band image)))]
            (year image) None in
  clims <- select_coll "clim" ndvi_climate_yearly_integration ;;
  let predicted_yearly_ndvi := map ndvi_prediction_climate clims in
  mapM (ndvi_residuals predicted_yearly_ndvi) ndvi_yearly_integration.

Definition restrend (start end_ : Z)
  (ndvi_yearly_integration climate_yearly_integration : ImageCollection)
  : result Image :=
  residual_yearly_ndvi <-
    residual_series ndvi_yearly_integration climate_yearly_integration ;;
  let n := (end_ - start + 1)%Z in
  let z_coefficient := z_coefficient n in
  selected <- select_coll "ndvi_res" residual_yearly_ndvi ;;
  tau <- select "ndvi_res_tau" (reduce_kendallsCorrelation selected) ;;
  let kendall_trend := map_bands (multiply_c z_coefficient) tau in
  ok kendall_trend.

Definition use_efficiency_ratio (image : Image) : result Image :=
  ndvi_img <- select "ndvi" image ;;
  clim <- select "clim" image ;;
  let clim_img := divide_c 1000 (the_band clim) in
  match year image with
  | None => raise (EEException "Image.constant: Parameter 'value' is required.")
  | Some year =>
      renamed <-
        rename ["ue"; "year"]
          (addBands (single "ndvi" (divide (the_band ndvi_img) clim_img))
                    (float (Image_constant (inject_Z year)))) ;;
      let divide_img := set_year year renamed in
      ok divide_img
  end.

Definition rain_use_efficiency_trend (start end_ : Z)
  (ndvi_yearly_integration climate_yearly_integration : ImageCollection)
  : result Image :=
  ndvi_climate_yearly_integration <-
    ndvi_climate_merge climate_yearly_integration ndvi_yearly_integration ;;
  ue_yearly_collection <-
    mapM use_efficiency_ratio ndvi_climate_yearly_integration ;;
  let n := (end_ - start + 1)%Z in
  let z_coefficient := z_coefficient n in
  selected <- select_coll "ue" ue_yearly_collection ;;
  tau <- select "ue_tau" (reduce_kendallsCorrelation selected) ;;
  let kendall_trend := map_bands (multiply_c z_coefficient) tau in
  ok kendall_trend.

(** The three classes of the z-score (lines 36 to 41):
    1 degraded - 2 stable - 3 improved. *)
Definition trajectory_classes (z_score : band) : result Image :=
  trajectory <-
    (single "constant"
       (constant 0
          |> where' (z_score |> lt_c (-1.96)) 1
          |> where' (z_score |> gt_c 1.96) 3
          |> where' (And (z_score |> gt_c (-1.96)) (z_score |> lt_c 1.96)) 2)
       |> rename ["trajectory"]) ;;
  ok (trajectory |> map_bands uint8).

(** [productivity_trajectory].  The method is compared with the entries 0,
    1 and 3 of the list; for any other method no branch assigns [z_score],
    and reading it raises. *)
Definition productivity_trajectory (model : Model)
  (nvdi_yearly_integration climate_yearly_integration : ImageCollection)
  : result Image :=
  let trajectories := pm.trajectories in
  z_score <-
    (if String.eqb (trajectory model) (nth 0 trajectories EmptyString) then
       ndvi_trend (start model) (end_ model) nvdi_yearly_integration
     else if String.eqb (trajectory model) (nth 1 trajectories EmptyString) then
       restrend (start model) (end_ model)
                nvdi_yearly_integration climate_yearly_integration
     else if String.eqb (trajectory model) (nth 3 trajectories EmptyString) then
       rain_use_efficiency_trend (start model) (end_ model)
                nvdi_yearly_integration climate_yearly_integration
     else raise (UnboundLocalError "z_score")) ;;
  trajectory_classes (the_band z_score).

(** What [productivity_performance] and [productivity_state] take from
    outside: the static rasters and tables of the parameter module, the
    bounds of the area of interest, and the region and percentile reducers
    of the raster engine. *)
Variable land_cover : Image.                 (* one band [y<year>] per year *)
Variable soil_tax : band.
Variable ESA_lc_classes reclassification_matrix : list Q.
Variable lc_first_year lc_last_year : Z.
Variable in_bounds : pixel -> bool.
Variable percentile_by_group : band -> band -> list (Q * Q).  (* code, p90 *)
Variable percentile : Z -> list band -> band.

Definition clip (a : band) : band :=
  fun p => if in_bounds p then a p else None.

(** The two classes of the ratio (lines 122 to 126): 2 is not degraded,
    1 is degraded. *)
Definition performance_classes (observed_ratio : band) : result Image :=
  prod_performance <-
    (single "constant"
       (constant 0
          |> where' (observed_ratio |> gte_c 0.5) 2
          |> where' (observed_ratio |> lte_c 0.5) 1)
       |> rename ["performance"]) ;;
  ok (prod_performance |> map_bands uint8).

Definition productivity_performance (model : Model)
  (nvdi_yearly_integration climate_yearly_integration : ImageCollection)
  : result Image :=
  let lc := map_bands clip land_cover in
  let lc :=
    map_bands (fun b => updateMask (b |> where' (b |> eq_c 9999) pm.int_16_min)
                                   (b |> neq_c pm.int_16_min)) lc in
  let soil_tax_usda := clip soil_tax in
  selected <- select_coll "ndvi" nvdi_yearly_integration ;;
  ndvi_mean <- rename ["ndvi"] (reduce_mean selected) ;;
  let ndvi_mean := the_band ndvi_mean in
  let lc_year_start := Z.min (Z.max (start model) lc_first_year) lc_last_year in
  lc_band <- band_of ("y" ++ string_of_Z lc_year_start)%string lc ;;
  let lc_reclass := remap ESA_lc_classes reclassification_matrix lc_band in
  let mask := ndvi_mean |> neq_c 0 in
  let similar_ecoregions := add (soil_tax_usda |> multiply_c 100) lc_reclass in
  let percentile_90 :=
    percentile_by_group (updateMask ndvi_mean mask)
                        (updateMask similar_ecoregions mask) in
  let ids := map fst percentile_90 in
  let percentile := map snd percentile_90 in
  let ecoregion_perc90 := remap ids percentile similar_ecoregions in
  let observed_ratio := divide ndvi_mean ecoregion_perc90 in
  performance_classes observed_ratio.

(** The ten percentile classes of a mean (lines 201 to 211 and 214 to
    224); [perc k] is the band [p<k>] of the baseline percentiles. *)
Definition percentile_classes (ndvi_mean : band) (perc : Z -> band) : band :=
  constant pm.int_16_min
    |> where_b (lte ndvi_mean (perc 10%Z)) (constant 1)
    |> where_b (gt ndvi_mean (perc 10%Z)) (constant 2)
    |> where_b (gt ndvi_mean (perc 20%Z)) (constant 3)
    |> where_b (gt ndvi_mean (perc 30%Z)) (constant 4)
    |> where_b (gt ndvi_mean (perc 40%Z)) (constant 5)
    |> where_b (gt ndvi_mean (perc 50%Z)) (constant 6)
    |> where_b (gt ndvi_mean (perc 60%Z)) (constant 7)
    |> where_b (gt ndvi_mean (perc 70%Z)) (constant 8)
    |> where_b (gt ndvi_mean (perc 80%Z)) (constant 9)
    |> where_b (gt ndvi_mean (perc 90%Z)) (constant 10).

(** [collection.reduce(ee.Reducer.percentile([0, 100]))]: the bands
    [<band>_p0] and [<band>_p100]. *)
Definition reduce_percentile_range (c : ImageCollection) : Image :=
  mkImage [(reduced_name c "p0", percentile 0%Z (map the_band c));
           (reduced_name c "p100", percentile 100%Z (map the_band c))]
          None None.

(** [image.reduce(ee.Reducer.percentile(percentiles))], over the bands of
    one image: the bands [p10], [p20], ... *)
Definition reduce_bands_percentile (percentiles : list Z) (bs : list band)
  : Image :=
  mkImage (map (fun k => (("p" ++ string_of_Z k)%string, percentile k bs))
               percentiles)
          None None.

(** The change of class and the three classes of the state (lines 228
    to 245). *)
Definition state_classes
  (baseline_classes target_classes baseline_ndvi_mean target_ndvi_mean : band)
  : result Image :=
  let classes_change :=
    subtract target_classes baseline_classes
      |> where' (subtract baseline_ndvi_mean target_ndvi_mean
                   |> abs |> lte_c 100) 0 in
  degredation <-
    (single "constant"
       (constant pm.int_16_min
          |> where' (classes_change |> gte_c 2) 3
          |> where' (And (classes_change |> lte_c (-2))
                         (classes_change |> neq_c pm.int_16_min)) 1
          |> where' (And (classes_change |> lt_c 2)
                         (classes_change |> gt_c (-2))) 2)
       |> rename ["state"]) ;;
  ok (degredation |> map_bands uint8).

Definition productivity_state (model : Model)
  (ndvi_yearly_integration climate_int : ImageCollection) : result Image :=
  let baseline_filter := year_in_range (start model) (baseline_end model) in
  let target_filter := year_in_range (target_start model) (end_ model) in
  baseline_ndvi_collection <-
    select_coll "ndvi" (filter baseline_filter ndvi_yearly_integration) ;;
  let baseline_ndvi_range := reduce_percentile_range baseline_ndvi_collection in
  let baseline_ndvi_images := map the_band baseline_ndvi_collection in
  ndvi_p100 <- band_of "ndvi_p100" baseline_ndvi_range ;;
  ndvi_p0 <- band_of "ndvi_p0" baseline_ndvi_range ;;
  let baseline_ndvi_5p := subtract ndvi_p100 ndvi_p0 |> multiply_c 0.05 in
  let baseline_ndvi_extended :=
    baseline_ndvi_images
      ++ [subtract ndvi_p0 baseline_ndvi_5p]
      ++ [add ndvi_p100 baseline_ndvi_5p] in
  let percentiles := [10; 20; 30; 40; 50; 60; 70; 80; 90; 100]%Z in
  let baseline_ndvi_perc :=
    reduce_bands_percentile percentiles baseline_ndvi_extended in
  baseline_ndvi_mean <-
    rename ["ndvi"] (reduce_mean baseline_ndvi_collection) ;;
  let baseline_ndvi_mean := the_band baseline_ndvi_mean in
  target_ndvi_collection <-
    select_coll "ndvi" (filter target_filter ndvi_yearly_integration) ;;
  target_ndvi_mean <- rename ["ndvi"] (reduce_mean target_ndvi_collection) ;;
  let target_ndvi_mean := the_band target_ndvi_mean in
  let perc (k : Z) : band :=
    match find_band ("p" ++ string_of_Z k)%string (bands baseline_ndvi_perc) with
    | Some b => b
    | None => masked
    end in
  let baseline_classes := percentile_classes baseline_ndvi_mean perc in
  let target_classes := percentile_classes target_ndvi_mean perc in
  state_classes baseline_classes target_classes
                baseline_ndvi_mean target_ndvi_mean.

End Productivity.

(** [productivity_final]: the table of the three sub-indicators, one
    [where] per row. *)
Definition productivity_final (trajectory performance state : Image)
  : result Image :=
  trajectory_class <- band_of "trajectory" trajectory ;;
  performance_class <- band_of "performance" performance ;;
  state_class <- band_of "state" state ;;
  let row (t s f : Q) : band :=
    And (And (trajectory_class |> eq_c t) (state_class |> eq_c s))
        (performance_class |> eq_c f) in
  productivity <-
    (single "constant"
      (constant 0
         |> where' (row 3 3 2) 3
         |> where' (row 3 3 1) 3
         |> where' (row 3 2 2) 3
         |> where' (row 3 2 1) 3
         |> where' (row 3 1 2) 3
         |> where' (row 3 1 1) 1
         |> where' (row 2 3 2) 2
         |> where' (row 2 3 1) 2
         |> where' (row 2 2 2) 2
         |> where' (row 2 2 1) 1
         |> where' (row 2 1 2) 1
         |> where' (row 2 1 1) 1
         |> where' (row 1 3 2) 1
         |> where' (row 1 3 1) 1
         |> where' (row 1 2 2) 1
         |> where' (row 1 2 1) 1
         |> where' (row 1 1 2) 1
         |> where' (row 1 1 1) 1)
      |> rename ["productivity"]) ;;
  ok (productivity |> map_bands uint8).

End productivity.

(** ** component/scripts/soil_organic_carbon.py *)

Module soil_organic_carbon.
Import ee.

Section Soc.

(** The rasters and tables of the parameter module, and the bounds of the
    area of interest. *)
Variable soc_raster : band.                      (* pm.soc *)
Variable land_cover_ic : ImageCollection.        (* one image per year *)
Variable land_cover_first_year land_cover_max_year : Z.
Variable ipcc_climate_zones : band.
Variable climate_conversion_matrix : list Q * list Q.
Variable translation_matrix : list Q * list Q.
Variable IPCC_lc_change_matrix : list Q.
Variable c_conversion_factor management_factor input_factor : list Q.
Variable in_bounds : pixel -> bool.

Definition clip (a : band) : band :=
  fun p => if in_bounds p then a p else None.

(** What the loop over the years carries. *)
Record State : Type := mkState {
  lc_transition : band;
  lc_transition_time : band;
  organic_carbon_change : band;
  lc_images : list band;
  soc_images : list band
}.

(** [landcover.filter(calendarRange(y, y, 'year')).first().remap(...)]. *)
Definition lc_of_year (landcover : ImageCollection) (y : Z) : result band :=
  img <- first (filter (in_years y y) landcover) ;;
  ok (remap (fst translation_matrix) (snd translation_matrix) (the_band img)).

(** The climate factor of a transition map: 333 and -333 are recoded with
    the chosen coefficient and its reciprocal. *)
Definition climate_coef (climate_conversion_coef lc_transition : band) : band :=
  let lc_transition_climate_coef_tmp :=
    remap IPCC_lc_change_matrix c_conversion_factor lc_transition in
  lc_transition_climate_coef_tmp
    |> where_b (lc_transition_climate_coef_tmp |> eq_c 333)
               climate_conversion_coef
    |> where_b (lc_transition_climate_coef_tmp |> eq_c (-333))
               (divide (constant 1) climate_conversion_coef).

(** The first two years (lines 29 to 89). *)
Definition first_pair (soc climate_conversion_coef lc_time0 lc_time1 : band)
  : State :=
  let lc_transition := add (lc_time0 |> multiply_c 100) lc_time1 in
  let lc_transition_time := constant 2 |> where' (neq lc_time0 lc_time1) 1 in
  let lc_transition_climate_coef :=
    climate_coef climate_conversion_coef lc_transition in
  let lc_transition_management_factor :=
    remap IPCC_lc_change_matrix management_factor lc_transition in
  let lc_transition_organic_factor :=
    remap IPCC_lc_change_matrix input_factor lc_transition in
  let organic_carbon_change :=
    subtract soc
      (multiply (multiply (multiply soc lc_transition_climate_coef)
                          lc_transition_management_factor)
                lc_transition_organic_factor)
      |> divide_c 20 in
  let soc_time1 := subtract soc organic_carbon_change in
  mkState lc_transition lc_transition_time organic_carbon_change
          [lc_time0; lc_time1] [soc; soc_time1].

(** One turn of the loop over the following years (lines 95 to 157). *)
Definition step (climate_conversion_coef : band) (year_index : Z)
  (lc_time0 lc_time1 : band) (st : State) : result State :=
  let lc_transition_time :=
    lc_transition_time st
      |> where_b (eq lc_time0 lc_time1)
                 (add (lc_transition_time st) (constant 1))
      |> where_b (neq lc_time0 lc_time1) (constant 1) in
  let lc_transition_temp := add (lc_time0 |> multiply_c 10) lc_time1 in
  let lc_transition :=
    lc_transition st |> where_b (neq lc_time0 lc_time1) lc_transition_temp in
  let lc_transition_climate_coef :=
    climate_coef climate_conversion_coef lc_transition in
  let lc_transition_management_factor :=
    remap IPCC_lc_change_matrix management_factor lc_transition in
  let lc_transition_organic_factor :=
    remap IPCC_lc_change_matrix input_factor lc_transition in
  soc_year <- select_index year_index (soc_images st) ;;
  let organic_carbon_change :=
    organic_carbon_change st
      |> where_b (neq lc_time0 lc_time1)
           (subtract soc_year
              (multiply (multiply (multiply soc_year lc_transition_climate_coef)
                                  lc_transition_management_factor)
                        lc_transition_organic_factor)
              |> divide_c 20)
      |> where' (lc_transition_time |> gt_c 20) 0 in
  let soc_final := subtract soc_year organic_carbon_change in
  ok (mkState lc_transition lc_transition_time organic_carbon_change
              (lc_images st ++ [lc_time1]) (soc_images st ++ [soc_final])).

(** [for year in range(a, b)]. *)
Definition range (a b : Z) : list Z := sequence a (b - 1).

Definition loop (landcover : ImageCollection) (climate_conversion_coef : band)
  (p_soc_t_start : Z) (years : list Z) (st0 : State) : result State :=
  fold_left
    (fun acc year =>
       st <- acc ;;
       lc_time0 <- lc_of_year landcover year ;;
       lc_time1 <- lc_of_year landcover (year + 1) ;;
       step climate_conversion_coef (year - p_soc_t_start) lc_time0 lc_time1 st)
    years (ok st0).

(** The three classes of the percent change (lines 169 to 176):
    1 degraded - 2 stable - 3 improved. *)
Definition soc_classes (soc_percent_change : band) : result Image :=
  soc_class <-
    (single "constant"
       (constant 0
          |> where' (soc_percent_change |> gt_c 10) 3
          |> where' (And (soc_percent_change |> lt_c 10)
                         (soc_percent_change |> gt_c (-10))) 2
          |> where' (soc_percent_change |> lt_c (-10)) 1)
       |> rename ["soc"]) ;;
  ok (soc_class |> map_bands uint8).

(** The state after the first pair and every following year. *)
Definition transitions (model : Model) : result (Z * State) :=
  let soc := clip soc_raster in
  let soc := updateMask soc (soc |> neq_c pm.int_16_min) in
  let lc_year_end :=
    Z.min (Z.max (p_soc_t_end model) land_cover_first_year)
          land_cover_max_year in
  let landcover :=
    filter (in_years (p_soc_t_start model) lc_year_end) land_cover_ic in
  let climate_conversion_coef :=
    match conversion_coef model with
    | Some c =>
        if Qeq_bool c 0
        then remap (fst climate_conversion_matrix)
                   (snd climate_conversion_matrix) (clip ipcc_climate_zones)
        else constant c
    | None =>
        remap (fst climate_conversion_matrix)
              (snd climate_conversion_matrix) (clip ipcc_climate_zones)
    end in
  lc_time0 <- lc_of_year landcover (p_soc_t_start model) ;;
  lc_time1 <- lc_of_year landcover (p_soc_t_start model + 1) ;;
  st <- loop landcover climate_conversion_coef (p_soc_t_start model)
             (range (p_soc_t_start model + 1) lc_year_end)
             (first_pair soc climate_conversion_coef lc_time0 lc_time1) ;;
  ok (lc_year_end, st).

Definition soil_organic_carbon (model : Model) : result Image :=
  r <- transitions model ;;
  let lc_year_end := fst r in
  let soc_images := soc_images (snd r) in
  soc_end <- select_index (lc_year_end - p_soc_t_start model) soc_images ;;
  soc_start <- select_index 0 soc_images ;;
  let soc_percent_change :=
    divide (subtract soc_end soc_start) soc_start |> multiply_c 100 in
  soc_classes soc_percent_change.

End Soc.

End soil_organic_carbon.

(** ** indicators/15-3/15-3-1/scripts/run.py *)

Module run.
Import ee.

Section Run.

(** The trend estimators of [scripts.productivity], each giving the linear
    trend and the Mann-Kendall trend, and the table of Kendall coefficients
    of the parameter module. *)
Variable prod_ndvi_trend :
  Z -> Z -> ImageCollection -> result (Image * Image).
Variable prod_ue_trend :
  Z -> Z -> ImageCollection -> ImageCollection -> result (Image * Image).
Variable get_kendall_coef : Z -> Z -> Q.

Definition double_quote : string := String (Ascii.ascii_of_nat 34) EmptyString.

(** The significance classes of the trend (lines 138 to 154). *)
Definition signif_classes (scale mk_trend : band) (kendall90 kendall95 kendall99 : Q)
  : band :=
  constant (-32768)
    |> where' (And (scale |> gt_c 0) (mk_trend |> abs |> gte_c kendall90)) 1
    |> where' (And (scale |> gt_c 0) (mk_trend |> abs |> gte_c kendall95)) 2
    |> where' (And (scale |> gt_c 0) (mk_trend |> abs |> gte_c kendall99)) 3
    |> where' (And (scale |> lt_c 0) (mk_trend |> abs |> gte_c kendall90)) (-1)
    |> where' (And (scale |> lt_c 0) (mk_trend |> abs |> gte_c kendall95)) (-2)
    |> where' (And (scale |> lt_c 0) (mk_trend |> abs |> gte_c kendall99)) (-3)
    |> where' (mk_trend |> abs |> lte_c kendall90) 0
    |> where' (scale |> abs |> lte_c 10) 0.

(** [productivity_trajectory].  The branch of [p_restrend] reads the local
    [climate_1yr] before anything assigns it, so it raises before it
    reaches its estimator; the branch of [s_restrend] and the final [else]
    raise by themselves. *)
Definition productivity_trajectory (io : Model)
  (nvdi_yearly_integration climate_yearly_integration : ImageCollection)
  : result Image :=
  trends <-
    (if String.eqb (trajectory io) (nth 0 pm.trajectories EmptyString) then
       prod_ndvi_trend (start io) (end_ io) nvdi_yearly_integration
     else if String.eqb (trajectory io) (nth 1 pm.trajectories EmptyString) then
       raise (UnboundLocalError "climate_1yr")
     else if String.eqb (trajectory io) (nth 2 pm.trajectories EmptyString) then
       raise (NameError "s_restrend method not yet supported")
     else if String.eqb (trajectory io) (nth 3 pm.trajectories EmptyString) then
       prod_ue_trend (start io) (end_ io)
                     nvdi_yearly_integration climate_yearly_integration
     else
       raise (NameError ("Unrecognized method " ++ double_quote
                           ++ trajectory io ++ double_quote)%string)) ;;
  let lf_trend := fst trends in
  let mk_trend := snd trends in
  let period := (start io - end_ io + 1)%Z in
  let kendall90 := get_kendall_coef period 90%Z in
  let kendall95 := get_kendall_coef period 95%Z in
  let kendall99 := get_kendall_coef period 99%Z in
  scale <- band_of "scale" lf_trend ;;
  let signif :=
    single "signif"
      (signif_classes scale (the_band mk_trend) kendall90 kendall95 kendall99) in
  let out :=
    addBands (addBands (single "scale" scale) signif) mk_trend
      |> map_bands (unmask (-32768))
      |> map_bands int16 in
  ok out.

End Run.

End run.

(** ** The vocabulary of the statements

    The annual composite in the words of the specification, next to the one
    of the code; the composites of one year by name; the errors the
    theorems name; and the small inputs on which the scripts are run. *)

Import ee.

(** In Python, [UnboundLocalError] is a subclass of [NameError]. *)
Definition is_NameError (e : exn) : bool :=
  match e with
  | NameError _ | UnboundLocalError _ => true
  | EEException _ => false
  end.

(** What [run.py] raises for a method it does not run. *)
Definition run_refusal (method : string) : exn :=
  if String.eqb method "s_restrend"
  then NameError "s_restrend method not yet supported"
  else NameError ("Unrecognized method " ++ run.double_quote
                    ++ method ++ run.double_quote)%string.

(** The script returns an image, and the band of that name has the value
    at the cell. *)
Definition returns_at (name : string) (r : result Image) (p : pixel) (v : Q)
  : Prop :=
  exists img, r = ok img /\ sample name img p = Some v.

(** A collection of observations of one band, of the same name in each. *)
Definition one_band (band : string) (c : ImageCollection) : Prop :=
  forall img, In img c -> bandNames img = [band].


(** The composite of one year, as [annual_modis_vi] builds it. *)
Definition modis_of_year (modis_img : ImageCollection) (y : Z)
  : result Image :=
  vi <- rename ["vi"] (reduce_mean (filter (in_year y) modis_img)) ;;
  year_band <- rename ["year"] (float (Image_constant (inject_Z y))) ;;
  ok (set_year y (addBands vi year_band)).

(** The climate composite of one year, as [int_yearly_climate] builds it. *)
Definition climate_of_year (precipitation : ImageCollection) (y : Z)
  : result Image :=
  clim <- rename ["clim"] (reduce_mean (filter (in_year y) precipitation)) ;;
  year_band <- rename ["year"] (float (Image_constant (inject_Z y))) ;;
  ok (set_year y (addBands clim year_band)).


(** The annual composite in the words of the specification (4.3): the
    observations of the year are averaged within each calendar month, each
    month with an observation counting once, and the monthly composites are
    averaged. *)
Definition two_level_mean (ndvi_coll : ImageCollection) (y : Z) : band :=
  let of_year := filter (in_year y) ndvi_coll in
  let months :=
    nodup Z.eq_dec (map d_month (aggregate_array_time_start of_year)) in
  the_band
    (reduce_mean
       (map (fun month => reduce_mean (filter (in_month month) of_year)) months)).

(** The mean over all the observations of the year. *)
Definition single_level_mean (ndvi_coll : ImageCollection) (y : Z) : band :=
  the_band (reduce_mean (filter (in_year y) ndvi_coll)).

(** The month and the value at a cell of an observation. *)
Definition month_of (img : Image) : Z :=
  match time_start img with Some d => d_month d | None => 0%Z end.

Definition value_at (p : pixel) (img : Image) : Q :=
  match the_band img p with Some v => v | None => 0 end.

(** An observation: one band of one value, and its date. *)
Definition observation (y m d : Z) (v : Q) : Image :=
  mkImage [("ndvi", constant v)] None (Some (mkDate y m d)).

(** A precipitation image: one band of one value, and its date. *)
Definition rainfall (y m d : Z) (v : Q) : Image :=
  mkImage [("precipitation", constant v)] None (Some (mkDate y m d)).

(** An annual raster with one band. *)
Definition annual (name : string) (y : Z) (v : Q) : Image :=
  mkImage [(name, constant v)] (Some y) None.

(** A run of the trajectory by the direct trend, on four annual rasters
    that rise from year to year, with a rank correlation of 1 and a
    coefficient of 1.96 for the length of the series: a z-score of 1.96. *)
Definition trajectory_run_at_threshold : result Image :=
  productivity.productivity_trajectory
    (fun _ => 1.96) (fun _ => constant 1) (fun _ => (masked, masked))
    (mkModel "ndvi_trend" 2001 2004 2002 2003 2001 2004 None)
    [annual "ndvi" 2001 0.30; annual "ndvi" 2002 0.32;
     annual "ndvi" 2003 0.34; annual "ndvi" 2004 0.36]
    [].

(** A run of the performance classifier: one zone (soil class 3, land
    cover 10 reclassified to 1, zone code 301) whose 90th percentile is
    0.8, and a mean vegetation index of 0.4 everywhere: a ratio of 0.5. *)
Definition performance_run_at_half : result Image :=
  productivity.productivity_performance
    (single "y2001" (constant 10)) (constant 3) [10] [1] 1992 2020
    (fun _ => true) (fun _ _ => [(301, 0.8)])
    (mkModel "ndvi_trend" 2001 2002 2001 2002 2001 2002 None)
    [annual "ndvi" 2001 0.4; annual "ndvi" 2002 0.4]
    [].

(** The land cover of one year, one class everywhere. *)
Definition land_cover_of (y : Z) (class : Q) : Image :=
  mkImage [("b1", constant class)] None (Some (mkDate y 1 1)).

(** A run of the soil organic carbon model: a stock of 100 everywhere, a
    land cover that goes from class 1 to class 2 between 2000 and 2001 and
    stays there, and a transition whose three factors multiply to 1/2, so
    that the stock loses 2.5 a year: 10 percent over the four years. *)
Definition soc_run_2000_2004 : result Image :=
  soil_organic_carbon.soil_organic_carbon
    (constant 100)
    [land_cover_of 2000 1; land_cover_of 2001 2; land_cover_of 2002 2;
     land_cover_of 2003 2; land_cover_of 2004 2]
    1992 2020
    (constant 1) ([1], [1])
    ([1; 2], [1; 2])
    [102] [0.5] [1] [1]
    (fun _ => true)
    (mkModel "ndvi_trend" 2000 2004 2001 2003 2000 2004 None).

(** Four annual rasters of the vegetation index, 0.1 in the two baseline
    years and 0.9 in the two target years. *)
Definition vi_2001_2004 : ImageCollection :=
  [annual "ndvi" 2001 0.1; annual "ndvi" 2002 0.1;
   annual "ndvi" 2003 0.9; annual "ndvi" 2004 0.9].

Definition model_2001_2004 : Model :=
  mkModel "ndvi_trend" 2001 2004 2002 2003 2001 2004 None.

(** The values of the deciles of [example_deciles], by their rank. *)
Definition decile_values (j : Z) : Q := inject_Z (10 * j) / 100.

(** A raster of one class everywhere, under the name of its band. *)
Definition class_raster (name : string) (class : Q) : Image :=
  single name (constant class).

(** The table of [productivity_final] in closed form: nothing (0) unless
    the three classes are valid; with an improved trajectory, improved
    unless state and performance are both degraded; with a stable
    trajectory, stable if the state is improved or if state and
    performance are both not degraded; degraded otherwise. *)
Definition fusion (t s f : Q) : Q :=
  let is_ (x c : Q) := Qeq_bool x c in
  if (is_ t 1 || is_ t 2 || is_ t 3) && (is_ s 1 || is_ s 2 || is_ s 3)
     && (is_ f 1 || is_ f 2)
  then
    if is_ t 3 then (if is_ s 1 && is_ f 1 then 1 else 3)
    else if is_ t 2 then
      (if is_ s 3 || (is_ s 2 && is_ f 2) then 2 else 1)
    else 1
  else 0.

(** The deciles 0.1, 0.2, ..., 1.0 as baseline percentiles. *)
Definition example_deciles (k : Z) : band := constant (inject_Z k / 100).

(** What [select] makes of an image: the one band, the same properties. *)
Definition selected (name : string) (img img' : Image) : Prop :=
  exists b, find_band name (bands img) = Some b
            /\ img' = mkImage [(name, b)] (year img) (time_start img).

(** The error of a subtraction whose second image is null. *)
Definition no_predicted_image : exn :=
  EEException "Image.subtract: Parameter 'image2' is required.".

(** The flags that [cloud_mask] reads in the quality value [n] of a cell. *)
Definition landsat_cloud (n : Z) : bool :=
  Z.testbit n 3 && Z.testbit n 8 || Z.testbit n 4.

Definition sentinel_clear (n : Z) : bool :=
  negb (Z.testbit n 10) && negb (Z.testbit n 11).

Definition modis_clear (n : Z) : bool :=
  (n mod 4 <=? 1)%Z && negb (Z.testbit n 14) && negb (Z.testbit n 15)
  && negb (Z.testbit n 10).

Definition all_bands_valid (img : Image) (p : pixel) : bool :=
  forallb (fun nb => match snd nb p with
                     | Some _ => true
                     | None => false
                     end) (bands img).

(** The sensors of [rename_band], [cloud_mask] and [apply_scale_factor]. *)
Definition surface_reflectance_sensors : list string :=
  ["Landsat 4"; "Landsat 5"; "Landsat 7"; "Landsat 8"; "Landsat 9";
   "Sentinel 2"].

(** The error of a method called on the null first element. *)
Definition no_first_image : exn :=
  EEException "Parameter 'image' is required and may not be null.".

(** The land cover has an image for the year. *)
Definition covers (land_cover_ic : ImageCollection) (y : Z) : Prop :=
  exists img, In img land_cover_ic /\ in_years y y img = true.

(* ================================================================== *)
(** * Part II. Theorems                                                *)
(* ================================================================== *)


(** ** Comparisons of rationals *)

Lemma Qle_bool_reflect (x y : Q) : reflect (x <= y) (Qle_bool x y).
Proof.
  destruct (Qle_bool x y) eqn:E; constructor.
  - now apply Qle_bool_iff.
  - intros H. apply Qle_bool_iff in H. congruence.
Qed.

Lemma Qeq_bool_reflect (x y : Q) : reflect (x == y) (Qeq_bool x y).
Proof.
  destruct (Qeq_bool x y) eqn:E; constructor.
  - now apply Qeq_bool_iff.
  - now apply Qeq_bool_neq.
Qed.

Lemma nonzero_of_bool (b : bool) : nonzero (of_bool b) = b.
Proof. now destruct b. Qed.

(** Every comparison of the goal is replaced by its truth value, with the
    order fact it stands for among the hypotheses. *)
Ltac q_compare :=
  repeat match goal with
    | |- context [Qle_bool ?a ?b] => destruct (Qle_bool_reflect a b)
    | |- context [Qeq_bool ?a ?b] => destruct (Qeq_bool_reflect a b)
    end.

Ltac q_classes := q_compare; try reflexivity; exfalso; lra.

(** The image that a script returns, when its calls reduce to it. *)
Ltac returned := eexists; split; [ reflexivity | ].

(** ** The cast to a 32-bit float *)

Lemma inject_Z_pos (z : Z) : (0 < z)%Z -> 0 < inject_Z z.
Proof. intros H. unfold Qlt. simpl. lia. Qed.

Lemma pow2_pos (z : Z) : 0 < pow2 z.
Proof.
  unfold pow2. destruct (Z.leb_spec 0 z) as [H | H].
  - apply inject_Z_pos. apply Z.pow_pos_nonneg; lia.
  - apply Qinv_lt_0_compat, inject_Z_pos. apply Z.pow_pos_nonneg; lia.
Qed.

Lemma pow2_succ (z : Z) : pow2 (z + 1) == 2 * pow2 z.
Proof.
  unfold pow2.
  destruct (Z.leb_spec 0 z) as [H | H];
    destruct (Z.leb_spec 0 (z + 1)) as [H' | H']; try lia.
  - rewrite Z.pow_add_r by lia. rewrite inject_Z_mult. change (inject_Z (2 ^ 1)) with 2.
    ring.
  - assert (z = -1)%Z by lia. subst z. reflexivity.
  - assert (E : (2 ^ (- z) = 2 * 2 ^ (- (z + 1)))%Z).
    { replace (- z)%Z with (1 + - (z + 1))%Z by lia.
      rewrite Z.pow_add_r by lia. reflexivity. }
    rewrite E, inject_Z_mult. field.
    intros F. assert (P : (0 < 2 ^ (- (z + 1)))%Z)
      by (apply Z.pow_pos_nonneg; lia).
    unfold Qeq in F. simpl in F. lia.
Qed.

Lemma pow2_le_mono (a b : Z) : (a <= b)%Z -> pow2 a <= pow2 b.
Proof.
  intros H. replace b with (a + Z.of_nat (Z.to_nat (b - a)))%Z by lia.
  induction (Z.to_nat (b - a)) as [| n IH].
  - rewrite Z.add_0_r. apply Qle_refl.
  - replace (a + Z.of_nat (S n))%Z with (a + Z.of_nat n + 1)%Z by lia.
    rewrite pow2_succ. pose proof (pow2_pos (a + Z.of_nat n)). lra.
Qed.

Lemma pow2_of_logs (a b : Z) :
  (0 <= a)%Z -> (0 <= b)%Z ->
  pow2 (a - b) * inject_Z (2 ^ b) == inject_Z (2 ^ a).
Proof.
  intros Ha Hb. revert a Ha.
  assert (G : forall n : nat, forall a, (0 <= a)%Z ->
            pow2 (a - Z.of_nat n) * inject_Z (2 ^ Z.of_nat n) == inject_Z (2 ^ a)).
  { induction n as [| n IH]; intros a Ha.
    - simpl Z.of_nat. rewrite Z.sub_0_r. unfold pow2.
      destruct (Z.leb_spec 0 a); [ | lia ]. simpl (2 ^ 0)%Z. ring.
    - replace (Z.of_nat (S n)) with (Z.of_nat n + 1)%Z by lia.
      rewrite Z.pow_add_r by lia. rewrite inject_Z_mult.
      change (inject_Z (2 ^ 1)) with 2.
      specialize (IH a Ha).
      assert (S1 : pow2 (a - Z.of_nat n)
                   == 2 * pow2 (a - (Z.of_nat n + 1))).
      { rewrite <- pow2_succ. now replace (a - (Z.of_nat n + 1) + 1)%Z
          with (a - Z.of_nat n)%Z by lia. }
      rewrite S1 in IH. rewrite <- IH. ring. }
  intros a Ha. specialize (G (Z.to_nat b) a Ha).
  now rewrite Z2Nat.id in G by lia.
Qed.

(** The exponent brackets the value. *)
Lemma exponent_spec (q : Q) :
  0 < q -> pow2 (exponent q) <= q /\ q < pow2 (exponent q + 1).
Proof.
  intros Hq. destruct q as [n d]. unfold exponent. cbn [Qnum Qden].
  assert (Hn : (0 < n)%Z) by (unfold Qlt in Hq; simpl in Hq; lia).
  set (a := Z.log2 n). set (b := Z.log2 (Zpos d)).
  assert (Ha : (0 <= a)%Z) by apply Z.log2_nonneg.
  assert (Hb : (0 <= b)%Z) by apply Z.log2_nonneg.
  destruct (Z.log2_spec n Hn) as [La Ua]. fold a in La, Ua.
  destruct (Z.log2_spec (Zpos d) (Pos2Z.is_pos d)) as [Lb Ub]. fold b in Lb, Ub.
  assert (Pb : (0 < 2 ^ b)%Z) by (apply Z.pow_pos_nonneg; lia).
  assert (Pa : (0 < 2 ^ a)%Z) by (apply Z.pow_pos_nonneg; lia).
  assert (Qd : n # d == inject_Z n / inject_Z (Zpos d)) by apply Qmake_Qdiv.
  assert (Dpos : 0 < inject_Z (Zpos d)) by (apply inject_Z_pos; lia).
  assert (Bpos : 0 < inject_Z (2 ^ b)) by now apply inject_Z_pos.
  pose proof (pow2_of_logs a b Ha Hb) as Hab.
  (* the value lies between 2^(a-b-1) and 2^(a-b+1) *)
  assert (Up : n # d < pow2 (a - b + 1)).
  { rewrite pow2_succ, Qd.
    apply Qlt_shift_div_r; [ exact Dpos | ].
    assert (E : 2 * pow2 (a - b) * inject_Z (Zpos d) * inject_Z (2 ^ b)
                == inject_Z (2 * 2 ^ a * Zpos d)).
    { rewrite !inject_Z_mult, <- Hab. simpl (inject_Z 2). ring. }
    assert (L : inject_Z n * inject_Z (2 ^ b) < inject_Z (2 * 2 ^ a * Zpos d)).
    { rewrite <- inject_Z_mult, <- Zlt_Qlt.
      rewrite Z.pow_succ_r in Ua by lia. nia. }
    rewrite <- E in L.
    apply Qmult_lt_r in L; [ exact L | exact Bpos ]. }
  assert (Lo : pow2 (a - b - 1) <= n # d).
  { assert (S1 : pow2 (a - b) == 2 * pow2 (a - b - 1)).
    { rewrite <- pow2_succ. now replace (a - b - 1 + 1)%Z with (a - b)%Z by lia. }
    rewrite Qd. apply Qle_shift_div_l; [ exact Dpos | ].
    assert (E : 2 * (pow2 (a - b - 1) * inject_Z (Zpos d)) * inject_Z (2 ^ b)
                == inject_Z (2 ^ a * Zpos d)).
    { rewrite inject_Z_mult, <- Hab, S1. ring. }
    assert (L : inject_Z (2 ^ a * Zpos d) <= 2 * inject_Z n * inject_Z (2 ^ b)).
    { change 2 with (inject_Z 2). rewrite <- !inject_Z_mult, <- Zle_Qle.
      rewrite Z.pow_succ_r in Ub by lia. nia. }
    rewrite <- E in L.
    apply Qmult_le_r in L; [ | exact Bpos ]. lra. }
  destruct (Qle_bool_reflect (pow2 (a - b)) (n # d)) as [L | L].
  - split; [ exact L | exact Up ].
  - split; [ exact Lo | ].
    replace (a - b - 1 + 1)%Z with (a - b)%Z by lia. lra.
Qed.

Lemma exponent_unique (q : Q) (e : Z) :
  0 < q -> pow2 e <= q -> q < pow2 (e + 1) -> exponent q = e.
Proof.
  intros Hq L U. destruct (exponent_spec q Hq) as [L' U'].
  destruct (Z.lt_trichotomy (exponent q) e) as [H | [H | H]]; [ | exact H | ].
  - exfalso. assert (M : pow2 (exponent q + 1) <= pow2 e)
      by (apply pow2_le_mono; lia). lra.
  - exfalso. assert (M : pow2 (e + 1) <= pow2 (exponent q))
      by (apply pow2_le_mono; lia). lra.
Qed.

Lemma exponent_comp (x y : Q) : 0 < x -> x == y -> exponent x = exponent y.
Proof.
  intros Hx E. assert (Hy : 0 < y) by now rewrite <- E.
  destruct (exponent_spec y Hy) as [L U].
  apply exponent_unique; [ exact Hx | now rewrite E | now rewrite E ].
Qed.


Lemma Qle_bool_comp (x x' y y' : Q) :
  x == x' -> y == y' -> Qle_bool x y = Qle_bool x' y'.
Proof.
  intros Ex Ey.
  destruct (Qle_bool_reflect x y), (Qle_bool_reflect x' y'); try reflexivity;
    exfalso; rewrite Ex, Ey in *; contradiction.
Qed.

Lemma round_half_even_comp (x y : Q) :
  x == y -> round_half_even x = round_half_even y.
Proof.
  intros E. unfold round_half_even, Qlt_bool.
  rewrite (Qfloor_comp _ _ E).
  assert (R : x - inject_Z (Qfloor y) == y - inject_Z (Qfloor y)) by now rewrite E.
  rewrite (Qle_bool_comp _ (1 # 2) _ _ (Qeq_refl _) R).
  rewrite (Qle_bool_comp _ _ _ (1 # 2) R (Qeq_refl _)).
  reflexivity.
Qed.

(** The cast depends on the value only, not on the fraction that writes
    it. *)
Lemma float32_comp (x y : Q) : x == y -> float32 x = float32 y.
Proof.
  intros E. unfold float32.
  assert (Z0 : Qeq_bool x 0 = Qeq_bool y 0).
  { destruct (Qeq_bool_reflect x 0), (Qeq_bool_reflect y 0); try reflexivity;
      exfalso; rewrite E in *; contradiction. }
  rewrite Z0. destruct (Qeq_bool_reflect y 0) as [_ | N]; [ reflexivity | ].
  assert (Habs : Qabs x == Qabs y) by now rewrite E.
  assert (Hpos : 0 < Qabs x).
  { destruct (Qlt_le_dec 0 (Qabs x)) as [L | L]; [ exact L | ].
    exfalso. apply N. rewrite <- E.
    apply Qabs_Qle_condition in L. lra. }
  rewrite (exponent_comp _ _ Hpos Habs).
  f_equal. f_equal. apply round_half_even_comp. now rewrite E.
Qed.


(** ** Trajectory classes *)

(** Away from the two thresholds the z-score falls in one of the three
    classes. *)
Lemma trajectory_classes_strict (z_score : band) (p : pixel) (z : Q) :
  z_score p = Some z ->
  (z < -1.96 -> returns_at "trajectory" (productivity.trajectory_classes z_score) p 1)
  /\ (1.96 < z -> returns_at "trajectory" (productivity.trajectory_classes z_score) p 3)
  /\ (-1.96 < z /\ z < 1.96 ->
      returns_at "trajectory" (productivity.trajectory_classes z_score) p 2).
Proof.
  intros Hz.
  repeat apply conj; intros H; returned;
    unfold sample, map_bands, single; simpl;
    unfold uint8, lift1, where', where_, And, lt_c, gt_c, lt, gt, lift2,
      constant, Qlt_bool;
    rewrite Hz, ?nonzero_of_bool; q_classes.
Qed.

(** On a threshold, no branch of the chain fires and the cell keeps the 0 of
    the initial image. *)
Lemma trajectory_classes_threshold (z_score : band) (p : pixel) (z : Q) :
  z_score p = Some z ->
  z == 1.96 \/ z == -1.96 ->
  returns_at "trajectory" (productivity.trajectory_classes z_score) p 0.
Proof.
  intros Hz HH. returned.
  unfold sample, map_bands, single; simpl.
  unfold uint8, lift1, where', where_, And, lt_c, gt_c, lt, gt, lift2, constant,
    Qlt_bool.
  rewrite Hz, ?nonzero_of_bool.
  destruct HH as [H | H]; q_classes.
Qed.

(** C1. At a z-score of exactly 1.96 or exactly -1.96 the trajectory class
    of [productivity_trajectory] is 0, which is none of degraded (1),
    stable (2) and improved (3): the boundary values are not classified as
    stable.  Next to the threshold the classes are those of the claim. *)
Theorem trajectory_boundary_unclassified :
  forall p : pixel,
    returns_at "trajectory" (productivity.trajectory_classes (constant 1.96)) p 0
    /\ returns_at "trajectory" (productivity.trajectory_classes (constant (-1.96))) p 0
    /\ returns_at "trajectory" (productivity.trajectory_classes (constant 1.960001)) p 3
    /\ returns_at "trajectory" (productivity.trajectory_classes (constant 1.959999)) p 2
    /\ exists img, trajectory_run_at_threshold = ok img
                   /\ sample "trajectory" img p = Some 0.
Proof.
  intros p. repeat apply conj; returned; reflexivity.
Qed.

(** ** Performance classes *)

(** A defined ratio gets one of the two classes: 2 above 0.5, 1 at 0.5
    and below; the second test of the chain includes 0.5 and overwrites
    what the first one wrote there. *)
Lemma performance_classes_spec (observed_ratio : band) (p : pixel) (r : Q) :
  observed_ratio p = Some r ->
  (0.5 < r ->
   returns_at "performance" (productivity.performance_classes observed_ratio) p 2)
  /\ (r <= 0.5 ->
      returns_at "performance" (productivity.performance_classes observed_ratio) p 1).
Proof.
  intros Hr.
  split; intros H; returned;
    unfold sample, map_bands, single; simpl;
    unfold uint8, lift1, where', where_, gte_c, lte_c, gte, lte, lift2,
      constant;
    rewrite Hr, ?nonzero_of_bool; q_classes.
Qed.

(** C2. At a ratio of exactly 0.5 the performance class of
    [productivity_performance] is degraded (1), not not-degraded (2); just
    above 0.5 it is 2 and just below it is 1.  A mean of 0.4 in a zone
    whose 90th percentile is 0.8 is such a case. *)
Theorem performance_boundary_degraded :
  forall p : pixel,
    returns_at "performance" (productivity.performance_classes (constant 0.5)) p 1
    /\ returns_at "performance" (productivity.performance_classes (constant 0.500001)) p 2
    /\ returns_at "performance" (productivity.performance_classes (constant 0.499999)) p 1
    /\ exists img, performance_run_at_half = ok img
                   /\ sample "performance" img p = Some 1.
Proof.
  intros p. repeat apply conj; returned; vm_compute; reflexivity.
Qed.

(** ** Classes of the soil organic carbon change *)

(** Away from the two thresholds the percent change falls in one of the
    three classes. *)
Lemma soc_classes_strict (soc_percent_change : band) (p : pixel) (c : Q) :
  soc_percent_change p = Some c ->
  (10 < c ->
   returns_at "soc" (soil_organic_carbon.soc_classes soc_percent_change) p 3)
  /\ (c < -10 ->
      returns_at "soc" (soil_organic_carbon.soc_classes soc_percent_change) p 1)
  /\ (-10 < c /\ c < 10 ->
      returns_at "soc" (soil_organic_carbon.soc_classes soc_percent_change) p 2).
Proof.
  intros Hc.
  repeat apply conj; intros H; returned;
    unfold sample, map_bands, single; simpl;
    unfold uint8, lift1, where', where_, And, lt_c, gt_c, lt, gt, lift2,
      constant, Qlt_bool;
    rewrite Hc, ?nonzero_of_bool; q_classes.
Qed.

Lemma soc_classes_threshold (soc_percent_change : band) (p : pixel) (c : Q) :
  soc_percent_change p = Some c ->
  c == 10 \/ c == -10 ->
  returns_at "soc" (soil_organic_carbon.soc_classes soc_percent_change) p 0.
Proof.
  intros Hc HH. returned.
  unfold sample, map_bands, single; simpl.
  unfold uint8, lift1, where', where_, And, lt_c, gt_c, lt, gt, lift2, constant,
    Qlt_bool.
  rewrite Hc, ?nonzero_of_bool.
  destruct HH as [H | H]; q_classes.
Qed.

(** C4. At a percent change of exactly +10 or exactly -10 the class of
    [soil_organic_carbon] is 0, which is none of degraded (1), stable (2)
    and improved (3): the boundary values are not classified as stable.
    A stock of 100 that loses 2.5 a year over four years, 10 percent, is
    such a case. *)
Theorem soc_boundary_unclassified :
  forall p : pixel,
    returns_at "soc" (soil_organic_carbon.soc_classes (constant 10)) p 0
    /\ returns_at "soc" (soil_organic_carbon.soc_classes (constant (-10))) p 0
    /\ returns_at "soc" (soil_organic_carbon.soc_classes (constant 10.000001)) p 3
    /\ returns_at "soc" (soil_organic_carbon.soc_classes (constant 9.999999)) p 2
    /\ exists img, soc_run_2000_2004 = ok img /\ sample "soc" img p = Some 0.
Proof.
  intros p. repeat apply conj; returned; vm_compute; reflexivity.
Qed.

(** ** State classes *)

(** Whenever the two means differ by at most 100, the change of class is
    set to 0 and the state is stable, whatever the two percentile
    classes are. *)
Lemma state_classes_forced_stable
  (baseline_classes target_classes baseline_ndvi_mean target_ndvi_mean : band)
  (p : pixel) (b t x y : Q) :
  baseline_ndvi_mean p = Some b ->
  target_ndvi_mean p = Some t ->
  baseline_classes p = Some x ->
  target_classes p = Some y ->
  Qabs (b - t) <= 100 ->
  returns_at "state" (productivity.state_classes baseline_classes target_classes
                                baseline_ndvi_mean target_ndvi_mean) p 2.
Proof.
  intros Hb Ht Hx Hy Habs. returned.
  unfold sample, map_bands, single; simpl.
  unfold uint8, lift1, where', where_, And, lt_c, gt_c, lte_c, gte_c, neq_c,
    lt, gt, lte, gte, neq, abs, subtract, lift1, lift2, constant, Qlt_bool.
  rewrite Hb, Ht, Hx, Hy.
  cbn -[Qabs Qminus Qle_bool Qfloor].
  apply Qle_bool_iff in Habs. rewrite Habs.
  reflexivity.
Qed.

(** Vegetation-index means between -1 and 1 differ by at most 2. *)
Lemma unit_range_means_within_100 (b t : Q) :
  -1 <= b <= 1 -> -1 <= t <= 1 -> Qabs (b - t) <= 100.
Proof.
  intros Hb Ht. apply Qabs_Qle_condition. split; lra.
Qed.

Lemma where_defined (input test value : band) (p : pixel) :
  (exists i, input p = Some i) -> exists v, where_ input test value p = Some v.
Proof.
  intros [i H]. unfold where_. rewrite H.
  destruct (test p) as [t |], (value p) as [v |]; try (now exists i).
  destruct (nonzero t); [ now exists v | now exists i ].
Qed.

(** The percentile class of a cell is a value, whatever the percentiles. *)
Lemma percentile_classes_defined (ndvi_mean : band) (perc : Z -> band) (p : pixel) :
  exists x, productivity.percentile_classes ndvi_mean perc p = Some x.
Proof.
  unfold productivity.percentile_classes, where_b.
  repeat apply where_defined.
  now exists pm.int_16_min.
Qed.

(** Hence the state of a cell whose two means differ by at most 100 is
    stable for every choice of baseline percentiles. *)
Lemma state_stable_of_means
  (baseline_ndvi_mean target_ndvi_mean : band) (perc : Z -> band)
  (p : pixel) (b t : Q) :
  baseline_ndvi_mean p = Some b ->
  target_ndvi_mean p = Some t ->
  Qabs (b - t) <= 100 ->
  returns_at "state" (productivity.state_classes
       (productivity.percentile_classes baseline_ndvi_mean perc)
       (productivity.percentile_classes target_ndvi_mean perc)
       baseline_ndvi_mean target_ndvi_mean) p 2.
Proof.
  intros Hb Ht Habs.
  destruct (percentile_classes_defined baseline_ndvi_mean perc p) as [x Hx].
  destruct (percentile_classes_defined target_ndvi_mean perc p) as [y Hy].
  now apply (state_classes_forced_stable _ _ _ _ p b t x y).
Qed.

(** C10. With the baseline mean 0.1 in percentile class 1 and the target
    mean 0.95 in percentile class 10, a change of nine classes, the change
    is set to 0 and the state is stable (2); and for annual values of 0.1
    in the baseline years and 0.9 in the target years [productivity_state]
    returns stable (2) for every percentile reducer.  The bound of 100 on
    the difference of the means is met by every pair of vegetation-index
    means, so the guard is not confined to noise-level movements. *)
Theorem state_guard_suppresses_genuine_change :
  forall (percentile : Z -> list band -> band) (p : pixel),
    let baseline_mean := constant 0.1 in
    let target_mean := constant 0.95 in
    let baseline_classes :=
      productivity.percentile_classes baseline_mean example_deciles in
    let target_classes :=
      productivity.percentile_classes target_mean example_deciles in
    baseline_classes p = Some 1
    /\ target_classes p = Some 10
    /\ returns_at "state" (productivity.state_classes baseline_classes target_classes
                                     baseline_mean target_mean) p 2
    /\ exists img,
         productivity.productivity_state percentile model_2001_2004
           vi_2001_2004 []
         = ok img
         /\ sample "state" img p = Some 2.
Proof.
  intros percentile p. repeat apply conj; try reflexivity.
  - returned. reflexivity.
  - edestruct state_stable_of_means as [img [E S]]; cycle 3.
    + exists img. split; [ exact E | exact S ].
    + reflexivity.
    + reflexivity.
    + vm_compute. discriminate.
Qed.

(** ** The years of an integrated series *)

Lemma sequence_length (start end_ : Z) :
  List.length (sequence start end_) = Z.to_nat (end_ - start + 1).
Proof.
  unfold sequence. now rewrite length_map, length_seq.
Qed.

Lemma In_sequence (start end_ y : Z) :
  In y (sequence start end_) <-> (start <= y <= end_)%Z.
Proof.
  unfold sequence. rewrite in_map_iff. split.
  - intros [i [<- Hi]]. apply in_seq in Hi. lia.
  - intros Hy. exists (Z.to_nat (y - start)). split; [ lia | ].
    apply in_seq. lia.
Qed.

Lemma NoDup_sequence (start end_ : Z) : NoDup (sequence start end_).
Proof.
  unfold sequence. apply Injective_map_NoDup.
  - intros i j Hij. lia.
  - apply seq_NoDup.
Qed.

(** *** Series built by a call that may fail *)


Lemma mapM_ok {A B} (f : A -> result B) (l : list A) :
  (forall a, In a l -> exists b, f a = ok b) -> exists bs, mapM f l = ok bs.
Proof.
  induction l as [| a l IH]; intros H.
  - now exists [].
  - destruct (H a) as [b Hb]; [ now left | ].
    destruct IH as [bs Hbs]; [ intros a' Ha'; apply H; now right | ].
    exists (b :: bs). simpl. now rewrite Hb, Hbs.
Qed.

Lemma mapM_length {A B} (f : A -> result B) (l : list A) (bs : list B) :
  mapM f l = ok bs -> List.length bs = List.length l.
Proof.
  revert bs. induction l as [| a l IH]; intros bs; simpl.
  - intros E. now inversion E.
  - destruct (f a) as [e | b]; simpl; [ discriminate | ].
    destruct (mapM f l) as [e | bs']; simpl; [ discriminate | ].
    intros E. inversion E. simpl. now rewrite (IH bs').
Qed.

Lemma mapM_Forall2 {A B} (f : A -> result B) (l : list A) (bs : list B) :
  mapM f l = ok bs -> Forall2 (fun a b => f a = ok b) l bs.
Proof.
  revert bs. induction l as [| a l IH]; intros bs; simpl.
  - intros E. inversion E. constructor.
  - destruct (f a) as [e | b] eqn:Ea; simpl; [ discriminate | ].
    destruct (mapM f l) as [e | bs'] eqn:El; simpl; [ discriminate | ].
    intros E. inversion E. subst. constructor; [ exact Ea | now apply IH ].
Qed.

Lemma mapM_raise_one {A B} (f : A -> result B) (e : exn) (l : list A) :
  (exists a, In a l /\ f a = raise e) ->
  (forall a, In a l -> f a = raise e \/ exists b, f a = ok b) ->
  mapM f l = raise e.
Proof.
  induction l as [| a l IH]; intros [a0 [Hin Ha0]] Hall; [ destruct Hin | ].
  simpl. destruct (Hall a (or_introl Logic.eq_refl)) as [E | [b E]]; rewrite E;
    [ reflexivity | ].
  simpl. rewrite IH; [ reflexivity | | ].
  - destruct Hin as [<- | Hin]; [ | now exists a0 ].
    rewrite E in Ha0. discriminate.
  - intros a' Ha'. apply Hall. now right.
Qed.

Lemma mapM_In {A B} (f : A -> result B) (l : list A) (bs : list B) (b : B) :
  mapM f l = ok bs -> In b bs -> exists a, In a l /\ f a = ok b.
Proof.
  intros E. apply mapM_Forall2 in E.
  induction E as [| a b' l bs Eab _ IH]; intros Hin; [ destruct Hin | ].
  destruct Hin as [<- | Hin].
  - exists a. split; [ now left | exact Eab ].
  - destruct (IH Hin) as [a' [Ha' Ea']]. exists a'. split; [ now right | exact Ea' ].
Qed.

Section PerYear.

(** A series built by mapping the years to images that carry their year,
    when each of them can be built. *)
Variable per_year : Z -> result Image.
Hypothesis per_year_tag : forall y img, per_year y = ok img -> year img = Some y.

Lemma per_year_tags (years : list Z) (series : ImageCollection) :
  mapM per_year years = ok series -> map year series = map Some years.
Proof.
  intros E. apply mapM_Forall2 in E.
  induction E as [| y img years series Ey _ IH]; [ reflexivity | ].
  simpl. now rewrite (per_year_tag _ _ Ey), IH.
Qed.

Lemma tagged_count (series : ImageCollection) (years : list Z) (y : Z) :
  map year series = map Some years ->
  List.length (filter (has_year y) series) = count_occ Z.eq_dec years y.
Proof.
  revert years. induction series as [| img series IH]; intros [| y' years] E;
    try discriminate; [ reflexivity | ].
  simpl in E. inversion E as [[Ey Et]]. simpl.
  unfold has_year at 1. rewrite Ey.
  destruct (Z.eq_dec y' y) as [-> | N].
  - rewrite Z.eqb_refl. simpl. now rewrite (IH years).
  - apply Z.eqb_neq in N. rewrite N. now apply IH.
Qed.

Lemma per_year_exactly_one (start end_ y : Z) (series : ImageCollection) :
  mapM per_year (sequence start end_) = ok series ->
  (start <= y <= end_)%Z ->
  List.length (filter (has_year y) series) = 1%nat.
Proof.
  intros E Hy. rewrite (tagged_count _ (sequence start end_)).
  - apply NoDup_count_occ'; [ apply NoDup_sequence | now apply In_sequence ].
  - now apply per_year_tags.
Qed.

Lemma per_year_absent (years : list Z) (series : ImageCollection) (y : Z) :
  mapM per_year years = ok series ->
  ~ In y years -> filter (has_year y) series = [].
Proof.
  intros E Hy. apply length_zero_iff_nil.
  rewrite (tagged_count _ years) by now apply per_year_tags.
  now apply count_occ_not_In.
Qed.

(** The raster tagged with a year of the range is the one built for it. *)
Lemma per_year_single (start end_ y : Z) (series : ImageCollection) :
  mapM per_year (sequence start end_) = ok series ->
  (start <= y <= end_)%Z ->
  exists img, per_year y = ok img /\ filter (has_year y) series = [img].
Proof.
  intros E Hy. apply In_sequence in Hy.
  pose proof (NoDup_sequence start end_) as Hnd.
  revert series E Hnd Hy.
  induction (sequence start end_) as [| y' years IH]; intros series E Hnd Hy;
    [ destruct Hy | ].
  simpl in E.
  destruct (per_year y') as [e | img] eqn:Ey'; simpl in E; [ discriminate | ].
  destruct (mapM per_year years) as [e | rest] eqn:Erest; simpl in E;
    [ discriminate | ].
  inversion E; subst series. clear E.
  inversion Hnd as [| ? ? Hnotin Hnd']; subst.
  simpl. unfold has_year at 1. rewrite (per_year_tag _ _ Ey').
  destruct (Z.eq_dec y' y) as [-> | N].
  - rewrite Z.eqb_refl. exists img. split; [ exact Ey' | ].
    now rewrite (per_year_absent years rest y Erest Hnotin).
  - destruct Hy as [Hy | Hy]; [ contradiction | ].
    apply Z.eqb_neq in N. rewrite N. now apply IH.
Qed.

End PerYear.

(** *** The composite of one year *)

Lemma map_fst_combine_names {A} (names : list string) (l : list A) :
  List.length names = List.length l -> map fst (combine names l) = names.
Proof.
  revert l. induction names as [| n names IH]; intros [| a l] H;
    try discriminate; [ reflexivity | ].
  simpl. f_equal. apply IH. now inversion H.
Qed.

Lemma map_snd_combine_names {A} (names : list string) (l : list A) :
  List.length names = List.length l -> map snd (combine names l) = l.
Proof.
  revert l. induction names as [| n names IH]; intros [| a l] H;
    try discriminate; [ reflexivity | ].
  simpl. f_equal. apply IH. now inversion H.
Qed.

(** What [rename] returns: the same bands under the new names, the same
    properties. *)
Lemma rename_ok (names : list string) (img img' : Image) :
  rename names img = ok img' ->
  bandNames img' = names
  /\ map snd (bands img') = map snd (bands img)
  /\ year img' = year img /\ time_start img' = time_start img.
Proof.
  unfold rename.
  destruct (Nat.eqb (List.length names) (List.length (bands img))) eqn:E;
    [ | discriminate ].
  apply Nat.eqb_eq in E. intros H. inversion H. subst img'. clear H.
  unfold bandNames. cbn [bands year time_start].
  rewrite map_fst_combine_names, map_snd_combine_names
    by now rewrite length_map.
  repeat split.
Qed.

Lemma rename_cases (names : list string) (img : Image) :
  (List.length names = List.length (bands img) ->
   rename names img
   = ok (mkImage (combine names (map snd (bands img)))
                 (year img) (time_start img)))
  /\ (List.length names <> List.length (bands img) ->
      rename names img = raise names_mismatch).
Proof.
  unfold rename. split; intros H.
  - apply Nat.eqb_eq in H. now rewrite H.
  - apply Nat.eqb_neq in H. now rewrite H.
Qed.

(** The reduction of a collection whose first image has one band. *)
Lemma reduce_mean_one_band (img : Image) (l : ImageCollection) (band : string) :
  bandNames img = [band] ->
  reduce_mean (img :: l)
  = single (band ++ "_mean") (fun p => mean_at p (map the_band (img :: l))).
Proof.
  intros H. unfold reduce_mean. rewrite H. reflexivity.
Qed.

Lemma aggregate_array_of_year (collection : ImageCollection) (y : Z) :
  filter (in_year y) collection <> [] ->
  aggregate_array_time_start (filter (in_year y) collection) <> [].
Proof.
  destruct (filter (in_year y) collection) as [| img l] eqn:E; [ congruence | ].
  intros _.
  assert (Hin : In img (filter (in_year y) collection)) by (rewrite E; now left).
  apply filter_In in Hin. destruct Hin as [_ Hy].
  unfold in_year in Hy. unfold aggregate_array_time_start. simpl.
  destruct (time_start img); [ discriminate | discriminate ].
Qed.

(** The years of the three integrators by name. *)
Lemma int_yearly_climate_unfold (precipitation : ImageCollection) (start end_ : Z) :
  integration.int_yearly_climate precipitation start end_
  = mapM (climate_of_year precipitation) (sequence start end_).
Proof. reflexivity. Qed.


(** Whatever an integrator returns for a year has the bands and the year
    that the integrator names. *)
Lemma daily_to_monthly_to_annual_ok ndvi_coll y img :
  integration.daily_to_monthly_to_annual ndvi_coll y = ok img ->
  bandNames img = ["vi"] /\ year img = Some y.
Proof.
  unfold integration.daily_to_monthly_to_annual.
  match goal with
  | |- bind ?m _ = _ -> _ => destruct m as [e | vi] eqn:E
  end; [ discriminate | ].
  intros H. inversion H. subst img.
  apply rename_ok in E. split; [ apply E | reflexivity ].
Qed.

Lemma year_band_ok (y : Z) :
  rename ["year"] (float (Image_constant (inject_Z y)))
  = ok (mkImage [("year", lift1 float32 (constant (inject_Z y)))] None None).
Proof. reflexivity. Qed.

Lemma climate_of_year_ok precipitation y img :
  climate_of_year precipitation y = ok img ->
  bandNames img = ["clim"; "year"] /\ year img = Some y.
Proof.
  unfold climate_of_year. rewrite year_band_ok.
  match goal with
  | |- bind ?m _ = _ -> _ => destruct m as [e | clim] eqn:E
  end; [ discriminate | ].
  intros H. inversion H. subst img.
  apply rename_ok in E. destruct E as [E _]. unfold bandNames in *.
  split; [ | reflexivity ].
  cbn [addBands set_year bands]. rewrite map_app, E. reflexivity.
Qed.

Lemma modis_of_year_ok modis_img y img :
  modis_of_year modis_img y = ok img ->
  bandNames img = ["vi"; "year"] /\ year img = Some y.
Proof.
  unfold modis_of_year. rewrite year_band_ok.
  match goal with
  | |- bind ?m _ = _ -> _ => destruct m as [e | vi] eqn:E
  end; [ discriminate | ].
  intros H. inversion H. subst img.
  apply rename_ok in E. destruct E as [E _]. unfold bandNames in *.
  split; [ | reflexivity ].
  cbn [addBands set_year bands]. rewrite map_app, E. reflexivity.
Qed.

(** Without observation in the year the composite has no band, and the
    call that names its band fails; with observations of one band the
    composite is built. *)
Lemma daily_to_monthly_to_annual_cases
  (ndvi_coll : ImageCollection) (band : string) (y : Z) :
  (filter (in_year y) ndvi_coll = [] ->
   integration.daily_to_monthly_to_annual ndvi_coll y = raise names_mismatch)
  /\ (one_band band ndvi_coll ->
      filter (in_year y) ndvi_coll <> [] ->
      exists img, integration.daily_to_monthly_to_annual ndvi_coll y = ok img).
Proof.
  unfold integration.daily_to_monthly_to_annual. split.
  - intros E. rewrite E. reflexivity.
  - intros Hband N.
    destruct (filter (in_year y) ndvi_coll) as [| img l] eqn:E; [ congruence | ].
    assert (Hin : In img (filter (in_year y) ndvi_coll)) by (rewrite E; now left).
    apply filter_In in Hin. destruct Hin as [Hin Hy].
    unfold in_year in Hy.
    destruct (time_start img) as [d |] eqn:Ed; [ | discriminate ].
    assert (Hm : in_month (d_month d) img = true)
      by (unfold in_month; now rewrite Ed, Z.eqb_refl).
    unfold aggregate_array_time_start. cbn [flat_map]. rewrite Ed.
    cbn [app map filter]. rewrite Hm.
    rewrite (reduce_mean_one_band img _ band (Hband img Hin)).
    eexists. reflexivity.
Qed.

Lemma annual_mean_cases
  (collection : ImageCollection) (band name : string) (y : Z) :
  (filter (in_year y) collection = [] ->
   rename [name] (reduce_mean (filter (in_year y) collection))
   = raise names_mismatch)
  /\ (one_band band collection ->
      filter (in_year y) collection <> [] ->
      exists img,
        rename [name] (reduce_mean (filter (in_year y) collection)) = ok img).
Proof.
  split.
  - intros E. rewrite E. reflexivity.
  - intros Hband N.
    destruct (filter (in_year y) collection) as [| img l] eqn:E; [ congruence | ].
    assert (Hin : In img (filter (in_year y) collection)) by (rewrite E; now left).
    apply filter_In in Hin. destruct Hin as [Hin _].
    rewrite (reduce_mean_one_band img _ band (Hband img Hin)).
    eexists. reflexivity.
Qed.

Lemma climate_of_year_cases
  (precipitation : ImageCollection) (band : string) (y : Z) :
  (filter (in_year y) precipitation = [] ->
   climate_of_year precipitation y = raise names_mismatch)
  /\ (one_band band precipitation ->
      filter (in_year y) precipitation <> [] ->
      exists img, climate_of_year precipitation y = ok img).
Proof.
  unfold climate_of_year. rewrite year_band_ok.
  destruct (annual_mean_cases precipitation band "clim" y) as [G N].
  split.
  - intros E. now rewrite (G E).
  - intros Hband Hne. destruct (N Hband Hne) as [img E]. rewrite E.
    eexists. reflexivity.
Qed.

Lemma modis_of_year_cases
  (modis_img : ImageCollection) (band : string) (y : Z) :
  (filter (in_year y) modis_img = [] ->
   modis_of_year modis_img y = raise names_mismatch)
  /\ (one_band band modis_img ->
      filter (in_year y) modis_img <> [] ->
      exists img, modis_of_year modis_img y = ok img).
Proof.
  unfold modis_of_year. rewrite year_band_ok.
  destruct (annual_mean_cases modis_img band "vi" y) as [G N].
  split.
  - intros E. now rewrite (G E).
  - intros Hband Hne. destruct (N Hband Hne) as [img E]. rewrite E.
    eexists. reflexivity.
Qed.

Lemma empty_or_not {A} (l : list A) : l = [] \/ l <> [].
Proof. destruct l; [ now left | right; discriminate ]. Qed.

Lemma rename_raises (names : list string) (img : Image) (e : exn) :
  rename names img = raise e -> e = names_mismatch.
Proof.
  unfold rename.
  destruct (Nat.eqb (List.length names) (List.length (bands img)));
    [ discriminate | ].
  intros H. now inversion H.
Qed.

Lemma daily_to_monthly_to_annual_raises ndvi_coll y e :
  integration.daily_to_monthly_to_annual ndvi_coll y = raise e ->
  e = names_mismatch.
Proof.
  unfold integration.daily_to_monthly_to_annual.
  match goal with
  | |- bind ?m _ = _ -> _ => destruct m as [e' | vi] eqn:E
  end; [ | discriminate ].
  intros H. inversion H. subst e'. now apply rename_raises in E.
Qed.

Lemma climate_of_year_raises precipitation y e :
  climate_of_year precipitation y = raise e -> e = names_mismatch.
Proof.
  unfold climate_of_year. rewrite year_band_ok.
  match goal with
  | |- bind ?m _ = _ -> _ => destruct m as [e' | clim] eqn:E
  end; [ | discriminate ].
  intros H. inversion H. subst e'. now apply rename_raises in E.
Qed.

Lemma modis_of_year_raises modis_img y e :
  modis_of_year modis_img y = raise e -> e = names_mismatch.
Proof.
  unfold modis_of_year. rewrite year_band_ok.
  match goal with
  | |- bind ?m _ = _ -> _ => destruct m as [e' | vi] eqn:E
  end; [ | discriminate ].
  intros H. inversion H. subst e'. now apply rename_raises in E.
Qed.

Lemma mapM_raises {A B} (f : A -> result B) (l : list A) (e e0 : exn) :
  (forall a e', f a = raise e' -> e' = e0) ->
  mapM f l = raise e -> e = e0.
Proof.
  intros H. induction l as [| a l IH]; simpl; [ discriminate | ].
  destruct (f a) as [e' | b] eqn:Ea; simpl.
  - intros F. inversion F. subst e'. now apply (H a).
  - destruct (mapM f l) as [e' | bs]; simpl; [ | discriminate ].
    intros F. inversion F. subst e'. now apply IH.
Qed.

(** A series of yearly composites: built when every year of the range has
    an observation, one raster a year; not built when a year has none. *)
Lemma yearly_series (per_year : Z -> result Image) (names : list string)
  (collection : ImageCollection) (start end_ : Z) :
  (forall y img, per_year y = ok img ->
                 bandNames img = names /\ year img = Some y) ->
  (forall y e, per_year y = raise e -> e = names_mismatch) ->
  (forall y, filter (in_year y) collection = [] ->
             per_year y = raise names_mismatch) ->
  ((forall y, filter (in_year y) collection <> [] ->
              exists img, per_year y = ok img) ->
   (forall y, (start <= y <= end_)%Z -> filter (in_year y) collection <> []) ->
   exists series,
     mapM per_year (sequence start end_) = ok series
     /\ map year series = map Some (sequence start end_)
     /\ List.length series = Z.to_nat (end_ - start + 1)
     /\ (forall y, (start <= y <= end_)%Z ->
           List.length (filter (has_year y) series) = 1%nat)
     /\ (forall img, In img series -> bandNames img = names))
  /\ ((exists y, (start <= y <= end_)%Z /\ filter (in_year y) collection = []) ->
      mapM per_year (sequence start end_) = raise names_mismatch).
Proof.
  intros Htag Hraise Hgap.
  split.
  - intros Hok Hall.
    destruct (mapM_ok per_year (sequence start end_)) as [series E].
    { intros y Hy. apply In_sequence in Hy. now apply Hok, Hall. }
    exists series. split; [ exact E | ].
    assert (Hy : forall y img, per_year y = ok img -> year img = Some y)
      by (intros y img Ei; now apply (Htag y img)).
    split; [ now apply (per_year_tags per_year) | ].
    split; [ rewrite (mapM_length _ _ _ E); apply sequence_length | ].
    split.
    + intros y Hr. now apply (per_year_exactly_one per_year Hy start end_).
    + intros img Hin. destruct (mapM_In _ _ _ _ E Hin) as [y [_ Ei]].
      now apply (Htag y img).
  - intros [y [Hy Hg]].
    destruct (mapM per_year (sequence start end_)) as [e | series] eqn:E.
    + now rewrite (mapM_raises _ _ _ _ Hraise E).
    + exfalso. apply In_sequence in Hy. apply mapM_Forall2 in E.
      assert (Hex : exists img, per_year y = ok img).
      { clear - E Hy. induction E as [| a b l l' Eab _ IH]; [ destruct Hy | ].
        destruct Hy as [<- | Hy]; [ now exists b | now apply IH ]. }
      destruct Hex as [img Ei]. rewrite (Hgap y Hg) in Ei. discriminate.
Qed.

(** C9. For [start <= end_], with observations of one band and at least
    one of them in every year of [start, end_], the integrated
    vegetation-index series and the integrated climate series are built
    and hold exactly one raster tagged with each year of the range, and
    none tagged otherwise.  A year of the range without observation does
    not give a masked raster: its composite has no band, the call that
    names the band fails, and with it the whole series. *)
Theorem annual_integration_one_raster_per_year :
  forall (ndvi_coll precipitation : ImageCollection) (vi_band clim_band : string)
         (start end_ : Z),
    (start <= end_)%Z ->
    one_band vi_band ndvi_coll ->
    one_band clim_band precipitation ->
    let vi := integration.int_yearly_ndvi ndvi_coll start end_ in
    let clim := integration.int_yearly_climate precipitation start end_ in
    let one_a_year (series : ImageCollection) : Prop :=
      map year series = map Some (sequence start end_)
      /\ List.length series = Z.to_nat (end_ - start + 1)
      /\ forall y, (start <= y <= end_)%Z ->
                   List.length (filter (has_year y) series) = 1%nat in
    ((forall y, (start <= y <= end_)%Z -> filter (in_year y) ndvi_coll <> []) ->
     exists series,
       vi = ok series /\ one_a_year series
       /\ forall img, In img series -> bandNames img = ["vi"])
    /\ ((forall y, (start <= y <= end_)%Z ->
                   filter (in_year y) precipitation <> []) ->
        exists series,
          clim = ok series /\ one_a_year series
          /\ forall img, In img series -> bandNames img = ["clim"; "year"])
    /\ ((exists y, (start <= y <= end_)%Z /\ filter (in_year y) ndvi_coll = []) ->
        vi = raise names_mismatch)
    /\ ((exists y, (start <= y <= end_)%Z
                   /\ filter (in_year y) precipitation = []) ->
        clim = raise names_mismatch).
Proof.
  intros ndvi_coll precipitation vi_band clim_band start end_ Hle Hvi Hclim
    vi clim one_a_year.
  destruct (yearly_series (integration.daily_to_monthly_to_annual ndvi_coll)
              ["vi"] ndvi_coll start end_
              (daily_to_monthly_to_annual_ok ndvi_coll)
              (daily_to_monthly_to_annual_raises ndvi_coll)
              (fun y => proj1 (daily_to_monthly_to_annual_cases
                                 ndvi_coll vi_band y)))
    as [Vok Vgap].
  destruct (yearly_series (climate_of_year precipitation)
              ["clim"; "year"] precipitation start end_
              (climate_of_year_ok precipitation)
              (climate_of_year_raises precipitation)
              (fun y => proj1 (climate_of_year_cases precipitation clim_band y)))
    as [Cok Cgap].
  subst vi clim one_a_year. rewrite int_yearly_climate_unfold.
  unfold integration.int_yearly_ndvi.
  split; [ | split; [ | split ] ].
  - intros Hall.
    destruct (Vok (fun y => proj2 (daily_to_monthly_to_annual_cases
                                     ndvi_coll vi_band y) Hvi) Hall)
      as [series [E [T [L [O B]]]]].
    exists series. repeat split; assumption.
  - intros Hall.
    destruct (Cok (fun y => proj2 (climate_of_year_cases
                                     precipitation clim_band y) Hclim) Hall)
      as [series [E [T [L [O B]]]]].
    exists series. repeat split; assumption.
  - exact Vgap.
  - exact Cgap.
Qed.

(** ** The band of the integrated series and the band its consumers select *)









Section Consumers.

Variable z_coefficient : Z -> Q.
Variable kendallsCorrelation : list band -> band.
Variable linearFit : list (band * band) -> band * band.
Variable land_cover : Image.
Variable soil_tax : band.
Variable ESA_lc_classes reclassification_matrix : list Q.
Variable lc_first_year lc_last_year : Z.
Variable in_bounds : pixel -> bool.
Variable percentile_by_group : band -> band -> list (Q * Q).
Variable percentile : Z -> list band -> band.


End Consumers.

(** ** The dispatch on the trajectory method *)

Section Dispatch.

Variable z_coefficient : Z -> Q.
Variable kendallsCorrelation : list band -> band.
Variable linearFit : list (band * band) -> band * band.
Variable prod_ndvi_trend :
  Z -> Z -> ImageCollection -> result (Image * Image).
Variable prod_ue_trend :
  Z -> Z -> ImageCollection -> ImageCollection -> result (Image * Image).
Variable get_kendall_coef : Z -> Z -> Q.

(** C7. With the method [s_restrend], or with a method that is not in the
    list of methods, both [productivity_trajectory] functions raise, for
    every input series and every estimator: nothing of the trend
    computation precedes the exception and no raster is returned.  run.py
    raises the [NameError] of the branch itself ("s_restrend method not yet
    supported", "Unrecognized method ...").  productivity.py has no branch
    for [s_restrend] and no final [else]; what it raises is the
    [UnboundLocalError] of reading [z_score], which no branch has assigned,
    the same for the unimplemented method and for an unknown one, and in
    neither case an error that names the method. *)
Theorem unsupported_trajectory_raises :
  forall (model : Model)
         (nvdi_yearly_integration climate_yearly_integration : ImageCollection),
    trajectory model = "s_restrend" \/ ~ In (trajectory model) pm.trajectories ->
    productivity.productivity_trajectory z_coefficient kendallsCorrelation
      linearFit model nvdi_yearly_integration climate_yearly_integration
    = raise (UnboundLocalError "z_score")
    /\ run.productivity_trajectory prod_ndvi_trend prod_ue_trend
         get_kendall_coef model nvdi_yearly_integration
         climate_yearly_integration
       = raise (run_refusal (trajectory model))
    /\ is_NameError (UnboundLocalError "z_score") = true
    /\ is_NameError (run_refusal (trajectory model)) = true.
Proof.
  intros model vi clim H.
  unfold productivity.productivity_trajectory, run.productivity_trajectory,
    run_refusal.
  destruct H as [E | N].
  - rewrite E. repeat split; reflexivity.
  - assert (D : forall m, In m pm.trajectories ->
                         String.eqb (trajectory model) m = false).
    { intros m Hm. apply String.eqb_neq. intros E. apply N. now rewrite E. }
    simpl nth.
    rewrite !D by (simpl; tauto).
    repeat split; reflexivity.
Qed.

End Dispatch.

(** ** The residual series of RESTREND *)

(** When the residual series is built, it has one entry for every image of
    the vegetation-index series: [restrend] maps [ndvi_residuals] over that
    series, not over the joined one. *)
Lemma residual_series_follows_vi linearFit vi clim residuals :
  productivity.residual_series linearFit vi clim = ok residuals ->
  List.length residuals = List.length vi.
Proof.
  unfold productivity.residual_series.
  destruct (productivity.ndvi_climate_merge clim vi) as [e | merged];
    simpl; [ discriminate | ].
  destruct (productivity.reduce_linearFit linearFit merged) as [e | model];
    simpl; [ discriminate | ].
  destruct (select "offset" model) as [e | offset]; simpl; [ discriminate | ].
  destruct (select "scale" model) as [e | scale]; simpl; [ discriminate | ].
  destruct (select_coll "clim" merged) as [e | clims]; simpl; [ discriminate | ].
  apply mapM_length.
Qed.

(** C6. With the vegetation index given for 2001 and 2002 and the climate
    for 2001 only, the inner join has the one year present in both, but
    [restrend] then computes a residual for every year of the
    vegetation-index series: for 2002 there is no predicted raster and the
    computation fails, so no residual series over the joined years comes
    out.  With the climate given for more years than the vegetation index,
    the residual series has the years present in both. *)
Theorem restrend_residuals_over_unjoined_series :
  forall linearFit : list (band * band) -> band * band,
    let vi := [annual "ndvi" 2001 0.3; annual "ndvi" 2002 0.4] in
    let clim := [annual "clim" 2001 500] in
    (exists joined,
        productivity.ndvi_climate_merge clim vi = ok joined
        /\ map year joined = [Some 2001%Z])
    /\ productivity.residual_series linearFit vi clim
       = raise (EEException "Image.subtract: Parameter 'image2' is required.")
    /\ (exists residuals,
          productivity.residual_series linearFit
            [annual "ndvi" 2001 0.3]
            [annual "clim" 2001 500; annual "clim" 2002 600]
          = ok residuals
          /\ List.length residuals = 1%nat).
Proof.
  intros linearFit vi clim. split; [ | split ].
  - eexists. split; reflexivity.
  - reflexivity.
  - eexists. split; reflexivity.
Qed.

(** ** The transition code of the soil organic carbon model *)

Section Transition.

Variable IPCC_lc_change_matrix : list Q.
Variable c_conversion_factor management_factor input_factor : list Q.

(** In a turn of the loop, the code of a cell whose class changed is ten
    times the earlier class plus the later one; the code of a cell whose
    class did not change is kept. *)
Lemma step_transition_code
  (climate_conversion_coef lc_time0 lc_time1 : band) (year_index : Z)
  (st st' : soil_organic_carbon.State) (p : pixel) (a b code : Q) :
  soil_organic_carbon.step IPCC_lc_change_matrix c_conversion_factor
    management_factor input_factor climate_conversion_coef year_index
    lc_time0 lc_time1 st = ok st' ->
  lc_time0 p = Some a ->
  lc_time1 p = Some b ->
  soil_organic_carbon.lc_transition st p = Some code ->
  soil_organic_carbon.lc_transition st' p
  = Some (if Qeq_bool a b then code else a * 10 + b).
Proof.
  unfold soil_organic_carbon.step.
  destruct (select_index year_index (soil_organic_carbon.soc_images st))
    as [e | soc_year]; simpl; [ discriminate | ].
  intros E Ha Hb Hcode. inversion E; subst st'; clear E. simpl.
  unfold where_b, where_, neq, add, multiply_c, multiply, lift2, constant.
  rewrite Hcode, Ha, Hb, nonzero_of_bool.
  now destruct (Qeq_bool a b).
Qed.

(** C8. For the first pair of years the transition code of a cell going
    from class 1 to class 2 is 102, a hundred times the earlier class plus
    the later one, set at every cell; a turn of the loop gives the same
    change the code 12, ten times the earlier class plus the later one, and
    leaves the 102 where the class does not change.  The first pair and the
    following pairs do not share one encoding. *)
Theorem first_pair_code_is_hundredfold :
  forall (soc climate_conversion_coef : band) (p : pixel),
    let st0 :=
      soil_organic_carbon.first_pair IPCC_lc_change_matrix c_conversion_factor
        management_factor input_factor soc climate_conversion_coef
        (constant 1) (constant 2) in
    let turn lc_time0 lc_time1 :=
      soil_organic_carbon.step IPCC_lc_change_matrix c_conversion_factor
        management_factor input_factor climate_conversion_coef 1
        lc_time0 lc_time1 st0 in
    soil_organic_carbon.lc_transition st0 p = Some 102
    /\ (exists st1,
          turn (constant 1) (constant 2) = ok st1
          /\ soil_organic_carbon.lc_transition st1 p = Some 12)
    /\ (exists st1,
          turn (constant 2) (constant 2) = ok st1
          /\ soil_organic_carbon.lc_transition st1 p = Some 102).
Proof.
  intros soc coef p st0 turn. split; [ reflexivity | split ].
  - eexists. split; reflexivity.
  - eexists. split; reflexivity.
Qed.

End Transition.

(** ** The annual composite of a year with sub-monthly observations *)

(** *** Sums of rationals over lists *)

Section Sums.
Context {A : Type}.

Lemma Qsum_map_ext (g h : A -> Q) (l : list A) :
  (forall x, In x l -> g x == h x) -> Qsum (map g l) == Qsum (map h l).
Proof.
  induction l as [| a l IH]; intros H; simpl; [ reflexivity | ].
  rewrite (H a) by now left. rewrite IH; [ reflexivity | ].
  intros x Hx. apply H. now right.
Qed.

Lemma Qsum_map_plus (g h : A -> Q) (l : list A) :
  Qsum (map (fun x => g x + h x) l) == Qsum (map g l) + Qsum (map h l).
Proof.
  induction l as [| a l IH]; simpl; [ reflexivity | ]. rewrite IH. ring.
Qed.

Lemma Qsum_map_scale (c : Q) (g : A -> Q) (l : list A) :
  Qsum (map (fun x => g x * c) l) == Qsum (map g l) * c.
Proof.
  induction l as [| a l IH]; simpl; [ ring | ]. rewrite IH. ring.
Qed.

Lemma Qsum_map_zero (l : list A) : Qsum (map (fun _ => 0) l) == 0.
Proof.
  induction l as [| a l IH]; simpl; [ reflexivity | ]. rewrite IH. ring.
Qed.

Lemma Qsum_map_filter (P : A -> bool) (g : A -> Q) (l : list A) :
  Qsum (map g (filter P l)) == Qsum (map (fun x => if P x then g x else 0) l).
Proof.
  induction l as [| a l IH]; simpl; [ reflexivity | ].
  destruct (P a); simpl; rewrite IH; ring.
Qed.

Lemma Qsum_count (P : A -> bool) (l : list A) :
  Qsum (map (fun x => if P x then 1 else 0) l)
  == inject_Z (Z.of_nat (List.length (filter P l))).
Proof.
  induction l as [| a l IH]; simpl; [ reflexivity | ].
  rewrite IH. destruct (P a); simpl List.length.
  - rewrite Nat2Z.inj_succ, <- Z.add_1_l, inject_Z_plus. reflexivity.
  - ring.
Qed.

End Sums.

Lemma Qsum_swap {A B} (a : A -> B -> Q) (l1 : list A) (l2 : list B) :
  Qsum (map (fun i => Qsum (map (a i) l2)) l1)
  == Qsum (map (fun j => Qsum (map (fun i => a i j) l1)) l2).
Proof.
  induction l1 as [| i l1 IH]; simpl.
  - now rewrite Qsum_map_zero.
  - rewrite IH, <- Qsum_map_plus. reflexivity.
Qed.

Section Groups.
Context {A : Type}.
Variable key : A -> Z.
Variable f : A -> Q.

Let same_key (i j : A) : bool := Z.eqb (key j) (key i).

(** The sum, over the elements, of the mean of each element's group is the
    sum of the elements. *)
Lemma Qsum_group_means (l : list A) :
  Qsum (map (fun i => Qmean (map f (filter (same_key i) l))) l)
  == Qsum (map f l).
Proof.
  set (n := fun i => inject_Z (Z.of_nat (List.length (filter (same_key i) l)))).
  assert (Hn : forall j, In j l -> ~ n j == 0).
  { intros j Hj. unfold n.
    assert (Hin : In j (filter (same_key j) l)).
    { apply filter_In. split; [ exact Hj | apply Z.eqb_refl ]. }
    destruct (filter (same_key j) l); [ contradiction | ].
    simpl List.length. rewrite Nat2Z.inj_succ.
    intros E. unfold Qeq in E. simpl in E. lia. }
  assert (Hsame : forall i j, same_key i j = true -> n i == n j).
  { intros i j E. unfold n.
    rewrite (filter_ext (same_key i) (same_key j)); [ reflexivity | ].
    intros x. unfold same_key in *. apply Z.eqb_eq in E. now rewrite E. }
  transitivity
    (Qsum (map (fun i =>
                  Qsum (map (fun j => (if same_key i j then f j else 0) * / n i) l))
               l)).
  { apply Qsum_map_ext. intros i _. unfold Qmean.
    rewrite length_map, Qsum_map_filter, Qsum_map_scale. reflexivity. }
  rewrite Qsum_swap.
  apply Qsum_map_ext. intros j Hj.
  transitivity
    (Qsum (map (fun i => (if same_key i j then 1 else 0) * (f j * / n j)) l)).
  { apply Qsum_map_ext. intros i _.
    destruct (same_key i j) eqn:E; [ | ring ].
    rewrite (Hsame i j E). ring. }
  rewrite Qsum_map_scale.
  rewrite (Qsum_map_ext _ (fun i => if same_key j i then 1 else 0)).
  2:{ intros i _. unfold same_key. now rewrite Z.eqb_sym. }
  rewrite Qsum_count. fold (n j). field. now apply Hn.
Qed.

End Groups.

(** *** The composite of the code is the mean over the observations *)

Lemma values_at_map {A} (g : A -> band) (v : A -> Q) (p : pixel) (l : list A) :
  (forall a, In a l -> g a p = Some (v a)) ->
  values_at p (map g l) = map v l.
Proof.
  induction l as [| a l IH]; intros H; simpl; [ reflexivity | ].
  rewrite (H a) by now left. simpl. f_equal. apply IH.
  intros a' Ha'. apply H. now right.
Qed.

Lemma mean_at_map {A} (g : A -> band) (v : A -> Q) (p : pixel) (l : list A) :
  l <> [] ->
  (forall a, In a l -> g a p = Some (v a)) ->
  mean_at p (map g l) = Some (Qmean (map v l)).
Proof.
  intros Hne H. unfold mean_at. rewrite (values_at_map g v p l H).
  destruct l; [ congruence | reflexivity ].
Qed.

Lemma months_of_dated (c : ImageCollection) :
  (forall img, In img c -> time_start img <> None) ->
  map d_month (aggregate_array_time_start c) = map month_of c.
Proof.
  induction c as [| img c IH]; intros H; simpl; [ reflexivity | ].
  unfold month_of at 1.
  destruct (time_start img) as [d |] eqn:E.
  - simpl. f_equal. apply IH. intros i Hi. apply H. now right.
  - exfalso. apply (H img); [ now left | exact E ].
Qed.

(** The reduction of observations of one band. *)
Lemma reduce_mean_of_one_band (c : ImageCollection) (band : string) :
  c <> [] -> one_band band c ->
  reduce_mean c
  = single (band ++ "_mean") (fun p => mean_at p (map the_band c)).
Proof.
  destruct c as [| img l]; [ congruence | ]. intros _ H.
  apply reduce_mean_one_band. apply H. now left.
Qed.

(** Where every observation of the year has a value, the composite of
    [int_yearly_ndvi] is the mean over the observations of the year, cast
    to a 32-bit float: each month's mean enters once per observation of
    that month. *)
Lemma int_yearly_ndvi_is_mean_over_observations
  (ndvi_coll : ImageCollection) (band : string) (y : Z) (p : pixel) :
  one_band band ndvi_coll ->
  filter (in_year y) ndvi_coll <> [] ->
  (forall img, In img (filter (in_year y) ndvi_coll) -> the_band img p <> None) ->
  exists composite overall,
    integration.daily_to_monthly_to_annual ndvi_coll y = ok composite
    /\ single_level_mean ndvi_coll y p = Some overall
    /\ sample "vi" composite p = Some (float32 overall).
Proof.
  set (ann := filter (in_year y) ndvi_coll). intros Hband Hne Hvalid.
  assert (Hann : one_band band ann).
  { intros img Hin. apply Hband. apply filter_In in Hin. tauto. }
  assert (Hval : forall img, In img ann -> the_band img p = Some (value_at p img)).
  { intros img Hin. unfold value_at.
    destruct (the_band img p) eqn:E; [ reflexivity | ].
    now destruct (Hvalid img Hin). }
  assert (Hdated : forall img, In img ann -> time_start img <> None).
  { intros img Hin. apply filter_In in Hin. destruct Hin as [_ Hin].
    unfold in_year in Hin. now destruct (time_start img). }
  assert (Hmonth : forall i, In i ann ->
             filter (in_month (month_of i)) ann
             = filter (fun j => Z.eqb (month_of j) (month_of i)) ann).
  { intros i Hi. apply filter_ext_in. intros j Hj.
    unfold in_month, month_of at 2.
    destruct (time_start j) eqn:E; [ reflexivity | ].
    now destruct (Hdated j Hj). }
  assert (Hsame : forall i, In i ann ->
             filter (fun j => Z.eqb (month_of j) (month_of i)) ann <> []).
  { intros i Hi E.
    assert (Hin : In i (filter (fun j => Z.eqb (month_of j) (month_of i)) ann))
      by (apply filter_In; split; [ exact Hi | apply Z.eqb_refl ]).
    now rewrite E in Hin. }
  set (monthly := fun i : Image =>
         single (band ++ "_mean")
           (fun q => mean_at q
              (map the_band
                 (filter (fun j => Z.eqb (month_of j) (month_of i)) ann)))).
  assert (Hcoll :
    map (fun month => reduce_mean (filter (in_month month) ann))
        (map d_month (aggregate_array_time_start ann))
    = map monthly ann).
  { rewrite (months_of_dated ann Hdated), map_map.
    apply map_ext_in. intros i Hi. rewrite (Hmonth i Hi).
    apply reduce_mean_of_one_band; [ now apply Hsame | ].
    intros j Hj. apply Hann. apply filter_In in Hj. tauto. }
  set (unrounded :=
         Qmean (map (fun i =>
                       Qmean (map (value_at p)
                                (filter (fun j => Z.eqb (month_of j) (month_of i))
                                        ann))) ann)).
  assert (Hmean : mean_at p (map the_band (map monthly ann)) = Some unrounded).
  { rewrite map_map. apply mean_at_map; [ exact Hne | ].
    intros i Hi. unfold monthly, the_band, single. cbn [bands].
    apply mean_at_map; [ now apply Hsame | ].
    intros j Hj. apply Hval. apply filter_In in Hj. tauto. }
  assert (Hmonthly : reduce_mean (map monthly ann)
                     = single ((band ++ "_mean") ++ "_mean")
                         (fun q => mean_at q (map the_band (map monthly ann)))).
  { apply reduce_mean_of_one_band.
    - intros E. apply map_eq_nil in E. contradiction.
    - intros img Hin. apply in_map_iff in Hin. destruct Hin as [i [<- _]].
      reflexivity. }
  assert (Hsum : unrounded == Qmean (map (value_at p) ann)).
  { unfold unrounded, Qmean. rewrite !length_map.
    now rewrite (Qsum_group_means month_of (value_at p) ann). }
  eexists. exists (Qmean (map (value_at p) ann)).
  split; [ | split ].
  - unfold integration.daily_to_monthly_to_annual. fold ann.
    rewrite Hcoll, Hmonthly. reflexivity.
  - unfold single_level_mean. fold ann.
    rewrite (reduce_mean_of_one_band ann band Hne Hann).
    unfold the_band, single. cbn [bands].
    now apply mean_at_map.
  - unfold sample, set_year, float, map_bands, single, lift1. cbn.
    rewrite Hmean. cbn [option_map]. f_equal. now apply float32_comp.
Qed.

(** C5. For a year with two observations of value 1 in January and one of
    value 4 in February, the composite of [int_yearly_ndvi] is 2, the mean
    over the three observations, and not 5/2, the mean of the two monthly
    means: the list of months has one entry per observation, so a month
    enters the outer mean once for each of its observations. *)
Theorem annual_composite_counts_months_per_observation :
  forall p : pixel,
    let ndvi_coll :=
      [observation 2001 1 1 1; observation 2001 1 17 1;
       observation 2001 2 2 4] in
    exists image composite monthly overall,
      integration.daily_to_monthly_to_annual ndvi_coll 2001 = ok image
      /\ sample "vi" image p = Some composite
      /\ two_level_mean ndvi_coll 2001 p = Some monthly
      /\ single_level_mean ndvi_coll 2001 p = Some overall
      /\ composite == 2
      /\ monthly == 5 / 2
      /\ composite == overall
      /\ ~ composite == monthly.
Proof.
  intros p ndvi_coll.
  eexists; eexists; eexists; eexists.
  split; [ reflexivity | ].
  split; [ reflexivity | ].
  split; [ reflexivity | ].
  split; [ reflexivity | ].
  repeat split; try (vm_compute; reflexivity). vm_compute. discriminate.
Qed.

(** ** The theorems at concrete inputs *)

(** C9, the claim as it is written, at two years asked for with
    observations in the first one only: no series is returned, so the
    second year has no raster, masked or other. *)
Lemma gap_year_fails_the_integration :
  integration.int_yearly_ndvi
    [observation 2001 1 1 1; observation 2001 2 2 4] 2001 2002
  = raise names_mismatch
  /\ integration.int_yearly_climate [rainfall 2001 6 1 30] 2001 2002
     = raise names_mismatch.
Proof. split; reflexivity. Qed.

(** Observations in each of the two years asked for; a third year asked
    for is without observation. *)
Lemma annual_integration_one_raster_per_year_witness :
  let ndvi_coll := [observation 2001 1 1 1; observation 2002 2 2 4] in
  (2001 <= 2002)%Z
  /\ (exists series,
        integration.int_yearly_ndvi ndvi_coll 2001 2002 = ok series
        /\ map year series = [Some 2001%Z; Some 2002%Z])
  /\ integration.int_yearly_ndvi ndvi_coll 2001 2003 = raise names_mismatch.
Proof.
  intros ndvi_coll.
  assert (Hle : (2001 <= 2002)%Z) by lia.
  assert (Hle' : (2001 <= 2003)%Z) by lia.
  assert (Hband : one_band "ndvi" ndvi_coll).
  { intros img [<- | [<- | []]]; reflexivity. }
  destruct (annual_integration_one_raster_per_year ndvi_coll ndvi_coll
              "ndvi" "ndvi" 2001 2002 Hle Hband Hband) as [Hok _].
  destruct (annual_integration_one_raster_per_year ndvi_coll ndvi_coll
              "ndvi" "ndvi" 2001 2003 Hle' Hband Hband) as [_ [_ [Hgap _]]].
  split; [ exact Hle | ]. split.
  - destruct Hok as [series [E [[T _] _]]].
    + intros y Hy. assert (Ey : (y = 2001 \/ y = 2002)%Z) by lia.
      destruct Ey as [-> | ->]; discriminate.
    + exists series. split; [ exact E | exact T ].
  - apply Hgap. exists 2003%Z. split; [ lia | reflexivity ].
Defined.


(** The method [s_restrend] and a method that is not in the list, with
    estimators that would succeed. *)
Lemma unsupported_trajectory_raises_witness :
  let series := [annual "ndvi" 2001 0.3; annual "ndvi" 2002 0.4] in
  let estimator : result (Image * Image) :=
    ok (single "scale" (constant 1), single "tau" (constant 1)) in
  let model method := mkModel method 2001 2002 2001 2002 2001 2002 None in
  (productivity.productivity_trajectory (fun _ => 1) (fun _ => constant 1)
     (fun _ => (constant 1, constant 0)) (model "s_restrend") series []
   = raise (UnboundLocalError "z_score")
   /\ run.productivity_trajectory (fun _ _ _ => estimator)
        (fun _ _ _ _ => estimator) (fun _ _ => 1) (model "s_restrend") series []
      = raise (NameError "s_restrend method not yet supported"))
  /\ (productivity.productivity_trajectory (fun _ => 1) (fun _ => constant 1)
        (fun _ => (constant 1, constant 0)) (model "slope") series []
      = raise (UnboundLocalError "z_score")
      /\ is_error
           (run.productivity_trajectory (fun _ _ _ => estimator)
              (fun _ _ _ _ => estimator) (fun _ _ => 1) (model "slope") series [])
         = true).
Proof.
  intros series estimator model.
  assert (H1 : trajectory (model "s_restrend") = "s_restrend"
               \/ ~ In (trajectory (model "s_restrend")) pm.trajectories)
    by (left; reflexivity).
  assert (H2 : trajectory (model "slope") = "s_restrend"
               \/ ~ In (trajectory (model "slope")) pm.trajectories).
  { right. simpl. intros [H | [H | [H | [H | H]]]];
      try discriminate H; exact H. }
  destruct (unsupported_trajectory_raises (fun _ => 1) (fun _ => constant 1)
              (fun _ => (constant 1, constant 0)) (fun _ _ _ => estimator)
              (fun _ _ _ _ => estimator) (fun _ _ => 1)
              (model "s_restrend") series [] H1) as [A1 [B1 _]].
  destruct (unsupported_trajectory_raises (fun _ => 1) (fun _ => constant 1)
              (fun _ => (constant 1, constant 0)) (fun _ _ _ => estimator)
              (fun _ _ _ _ => estimator) (fun _ _ => 1)
              (model "slope") series [] H2) as [A2 [B2 _]].
  split; split.
  - exact A1.
  - exact B1.
  - exact A2.
  - rewrite B2. reflexivity.
Defined.


(* ================================================================== *)
(** * Part III. Further properties of the scripts                      *)
(* ================================================================== *)

(** ** The fusion of the three sub-indicators *)

Lemma sample_find (name : string) (img : Image) (p : pixel) (v : Q) :
  sample name img p = Some v ->
  exists b, find_band name (bands img) = Some b /\ b p = Some v.
Proof.
  unfold sample. destruct (find_band name (bands img)) as [b |];
    [ intros H; now exists b | discriminate ].
Qed.

(** Every cell of [productivity_final] is the closed form of the table at
    the three classes of the cell. *)
Lemma productivity_final_cell
  (trajectory performance state : Image) (p : pixel) (t s f : Q) :
  sample "trajectory" trajectory p = Some t ->
  sample "state" state p = Some s ->
  sample "performance" performance p = Some f ->
  exists img,
    productivity.productivity_final trajectory performance state = ok img
    /\ sample "productivity" img p = Some (fusion t s f).
Proof.
  intros Ht Hs Hf.
  destruct (sample_find _ _ _ _ Ht) as [tb [Etb Htb]].
  destruct (sample_find _ _ _ _ Hs) as [sb [Esb Hsb]].
  destruct (sample_find _ _ _ _ Hf) as [fb [Efb Hfb]].
  unfold productivity.productivity_final, band_of.
  rewrite Etb, Efb, Esb. simpl.
  eexists. split; [ reflexivity | ].
  unfold sample, map_bands, rename, single; simpl.
  unfold uint8, lift1, where', where_, And, eq_c, eq, lift2, constant, fusion.
  rewrite Htb, Hsb, Hfb, ?nonzero_of_bool.
  q_compare; try reflexivity; exfalso; lra.
Qed.

(** The valid classes are taken one by one. *)
Ltac each_class :=
  repeat match goal with
    | H : In _ (_ :: _) |- _ => destruct H as [H | H]; [ subst | ]
    | H : In _ [] |- _ => destruct H
    end.

(** X1. For valid classes the fused class is one of 1, 2, 3 and never above
    the trajectory class; a degraded trajectory is always degraded, and an
    improved trajectory is degraded only when state and performance are
    both degraded. *)
Theorem productivity_final_follows_trajectory :
  forall (trajectory performance state : Image) (p : pixel) (t s f : Q),
    In t [1; 2; 3] -> In s [1; 2; 3] -> In f [1; 2] ->
    sample "trajectory" trajectory p = Some t ->
    sample "state" state p = Some s ->
    sample "performance" performance p = Some f ->
    exists img c,
      productivity.productivity_final trajectory performance state = ok img
      /\ sample "productivity" img p = Some c
      /\ In c [1; 2; 3]
      /\ c <= t
      /\ (t = 1 -> c = 1)
      /\ (t = 3 -> (c = 1 <-> s = 1 /\ f = 1)).
Proof.
  intros trajectory performance state p t s f It Is If Ht Hs Hf.
  destruct (productivity_final_cell _ _ _ p t s f Ht Hs Hf) as [img [E Hc]].
  exists img, (fusion t s f).
  split; [ exact E | ]. split; [ exact Hc | ].
  clear - It Is If. each_class; vm_compute; intuition (try discriminate; auto).
Qed.

(** X2. A class that is not valid, in any of the three inputs, gives the
    fused class 0: no row of the table matches. *)
Theorem productivity_final_invalid_class :
  forall (trajectory performance state : Image) (p : pixel) (t s f : Q),
    sample "trajectory" trajectory p = Some t ->
    sample "state" state p = Some s ->
    sample "performance" performance p = Some f ->
    ~ (t == 1 \/ t == 2 \/ t == 3)
    \/ ~ (s == 1 \/ s == 2 \/ s == 3)
    \/ ~ (f == 1 \/ f == 2) ->
    exists img,
      productivity.productivity_final trajectory performance state = ok img
      /\ sample "productivity" img p = Some 0.
Proof.
  intros trajectory performance state p t s f Ht Hs Hf Hinvalid.
  destruct (productivity_final_cell _ _ _ p t s f Ht Hs Hf) as [img [E Hc]].
  exists img. split; [ exact E | ]. rewrite Hc. f_equal.
  unfold fusion. q_compare; try reflexivity; exfalso; tauto.
Qed.

(** X3. The table is monotone: a cell whose three classes are at least
    those of another cell has a fused class at least that of the other. *)
Theorem productivity_final_monotone :
  forall (trajectory performance state : Image) (p q : pixel)
         (t s f t' s' f' : Q),
    In t [1; 2; 3] -> In s [1; 2; 3] -> In f [1; 2] ->
    In t' [1; 2; 3] -> In s' [1; 2; 3] -> In f' [1; 2] ->
    sample "trajectory" trajectory p = Some t ->
    sample "state" state p = Some s ->
    sample "performance" performance p = Some f ->
    sample "trajectory" trajectory q = Some t' ->
    sample "state" state q = Some s' ->
    sample "performance" performance q = Some f' ->
    t <= t' -> s <= s' -> f <= f' ->
    exists img c c',
      productivity.productivity_final trajectory performance state = ok img
      /\ sample "productivity" img p = Some c
      /\ sample "productivity" img q = Some c'
      /\ c <= c'.
Proof.
  intros trajectory performance state p q t s f t' s' f'
    It Is If It' Is' If' Ht Hs Hf Ht' Hs' Hf' Lt Ls Lf.
  destruct (productivity_final_cell _ _ _ p t s f Ht Hs Hf) as [img [E Hc]].
  destruct (productivity_final_cell _ _ _ q t' s' f' Ht' Hs' Hf')
    as [img' [E' Hc']].
  assert (img' = img) by (rewrite E in E'; now inversion E'). subst img'.
  exists img, (fusion t s f), (fusion t' s' f').
  split; [ exact E | ]. split; [ exact Hc | ]. split; [ exact Hc' | ].
  clear - It Is If It' Is' If' Lt Ls Lf.
  each_class; solve [ vm_compute; discriminate
                    | exfalso; revert Lt Ls Lf; vm_compute; intuition congruence ].
Qed.

(** X4. A cell whose z-score is exactly 1.96 or -1.96 leaves
    [productivity_trajectory] with the class 0, and [productivity_final]
    then gives it the class 0 as well, whatever its state and its
    performance are. *)
Theorem threshold_trajectory_has_no_final_class :
  forall (z_score : band) (performance state : Image) (p : pixel) (z s f : Q),
    z_score p = Some z ->
    z == 1.96 \/ z == -1.96 ->
    sample "state" state p = Some s ->
    sample "performance" performance p = Some f ->
    exists trajectory img,
      productivity.trajectory_classes z_score = ok trajectory
      /\ productivity.productivity_final trajectory performance state = ok img
      /\ sample "productivity" img p = Some 0.
Proof.
  intros z_score performance state p z s f Hz Hthreshold Hs Hf.
  destruct (trajectory_classes_threshold z_score p z Hz Hthreshold)
    as [trajectory [Et Ht]].
  destruct (productivity_final_cell _ _ _ p 0 s f Ht Hs Hf) as [img [E Hc]].
  exists trajectory, img. split; [ exact Et | ]. split; [ exact E | ].
  rewrite Hc. reflexivity.
Qed.

Lemma productivity_final_follows_trajectory_witness :
  exists img,
    productivity.productivity_final (class_raster "trajectory" 3)
      (class_raster "performance" 1) (class_raster "state" 1) = ok img
    /\ sample "productivity" img (0, 0)%Z = Some 1.
Proof.
  destruct (productivity_final_follows_trajectory
              (class_raster "trajectory" 3) (class_raster "performance" 1)
              (class_raster "state" 1) (0, 0)%Z 3 1 1)
    as [img [c [E [Hc [_ [_ [_ H3]]]]]]];
    try reflexivity; try (simpl; tauto).
  exists img. split; [ exact E | ].
  rewrite Hc. f_equal. apply H3; [ reflexivity | split; reflexivity ].
Defined.

Lemma productivity_final_invalid_class_witness :
  exists img,
    productivity.productivity_final (class_raster "trajectory" 0)
      (class_raster "performance" 2) (class_raster "state" 3) = ok img
    /\ sample "productivity" img (0, 0)%Z = Some 0.
Proof.
  apply (productivity_final_invalid_class
           (class_raster "trajectory" 0) (class_raster "performance" 2)
           (class_raster "state" 3) (0, 0)%Z 0 3 2);
    try reflexivity.
  left. intros [H | [H | H]]; discriminate H.
Defined.

(** Two cells of one raster: the classes (2, 2, 1) at the origin and
    (3, 2, 2) elsewhere. *)
Lemma productivity_final_monotone_witness :
  let at_origin (a b : Q) : band :=
    fun p => if (fst p =? 0)%Z && (snd p =? 0)%Z then Some a else Some b in
  exists img c c',
    productivity.productivity_final
      (single "trajectory" (at_origin 2 3))
      (single "performance" (at_origin 1 2))
      (single "state" (at_origin 2 2)) = ok img
    /\ sample "productivity" img (0, 0)%Z = Some c
    /\ sample "productivity" img (5, 7)%Z = Some c'
    /\ c <= c'.
Proof.
  intros at_origin.
  apply (productivity_final_monotone
           (single "trajectory" (at_origin 2 3))
           (single "performance" (at_origin 1 2))
           (single "state" (at_origin 2 2))
           (0, 0)%Z (5, 7)%Z 2 2 1 3 2 2);
    try reflexivity; try (simpl; tauto); try (vm_compute; discriminate).
Defined.

Lemma threshold_trajectory_has_no_final_class_witness :
  exists trajectory img,
    productivity.trajectory_classes (constant 1.96) = ok trajectory
    /\ productivity.productivity_final trajectory
         (class_raster "performance" 2) (class_raster "state" 3) = ok img
    /\ sample "productivity" img (0, 0)%Z = Some 0.
Proof.
  apply (threshold_trajectory_has_no_final_class
           (constant 1.96) (class_raster "performance" 2)
           (class_raster "state" 3) (0, 0)%Z 1.96 3 2);
    try reflexivity.
  left. reflexivity.
Defined.

(** ** Cells without data *)

(** X5. A cell without z-score, without ratio or without percent change is
    not left masked by the three classifiers: each gives it the class 0 of
    its initial image. *)
Theorem classifiers_give_no_data_the_class_0 :
  forall (values : band) (p : pixel),
    values p = None ->
    returns_at "trajectory" (productivity.trajectory_classes values) p 0
    /\ returns_at "performance" (productivity.performance_classes values) p 0
    /\ returns_at "soc" (soil_organic_carbon.soc_classes values) p 0.
Proof.
  intros values p H.
  repeat apply conj; returned;
    unfold sample, map_bands, single; simpl;
    unfold uint8, lift1, where', where_, And, lt_c, gt_c, lte_c, gte_c,
      lt, gt, lte, gte, lift2, constant;
    rewrite H; reflexivity.
Qed.

Lemma classifiers_give_no_data_the_class_0_witness :
  returns_at "trajectory" (productivity.trajectory_classes masked) (0, 0)%Z 0.
Proof.
  apply (classifiers_give_no_data_the_class_0 masked (0, 0)%Z). reflexivity.
Defined.

(** ** The percentile classes *)

(** One [where] of the chain of classes: the class so far, or the next
    one. *)
Lemma where_next_class (input test : band) (p : pixel) (k i : Z) :
  input p = Some (inject_Z i) -> (1 <= i <= k)%Z ->
  exists i', where_ input test (constant (inject_Z (k + 1))) p = Some (inject_Z i')
             /\ (1 <= i' <= k + 1)%Z.
Proof.
  intros H Hi. unfold where_, constant. rewrite H.
  destruct (test p) as [t |]; [ destruct (nonzero t) | ];
    eexists; (split; [ reflexivity | lia ]).
Qed.

(** The class of a mean is one of 1, ..., 10 as soon as the mean and the
    first decile have a value. *)
Lemma percentile_classes_range
  (ndvi_mean : band) (perc : Z -> band) (p : pixel) (m q10 : Q) :
  ndvi_mean p = Some m -> perc 10%Z p = Some q10 ->
  exists c, productivity.percentile_classes ndvi_mean perc p = Some (inject_Z c)
            /\ (1 <= c <= 10)%Z.
Proof.
  intros Hm Hq. unfold productivity.percentile_classes, where_b.
  assert (H2 : exists i,
             where_ (where_ (constant pm.int_16_min)
                            (lte ndvi_mean (perc 10%Z)) (constant 1))
                    (gt ndvi_mean (perc 10%Z)) (constant 2) p
             = Some (inject_Z i) /\ (1 <= i <= 2)%Z).
  { unfold where_, lte, gt, lift2, constant, Qlt_bool.
    rewrite Hm, Hq, ?nonzero_of_bool.
    destruct (Qle_bool m q10); [ exists 1%Z | exists 2%Z ];
      (split; [ reflexivity | lia ]). }
  destruct H2 as [i2 [E2 R2]].
  destruct (where_next_class _ (gt ndvi_mean (perc 20%Z)) p 2 _ E2 R2)
    as [i3 [E3 R3]].
  destruct (where_next_class _ (gt ndvi_mean (perc 30%Z)) p 3 _ E3 R3)
    as [i4 [E4 R4]].
  destruct (where_next_class _ (gt ndvi_mean (perc 40%Z)) p 4 _ E4 R4)
    as [i5 [E5 R5]].
  destruct (where_next_class _ (gt ndvi_mean (perc 50%Z)) p 5 _ E5 R5)
    as [i6 [E6 R6]].
  destruct (where_next_class _ (gt ndvi_mean (perc 60%Z)) p 6 _ E6 R6)
    as [i7 [E7 R7]].
  destruct (where_next_class _ (gt ndvi_mean (perc 70%Z)) p 7 _ E7 R7)
    as [i8 [E8 R8]].
  destruct (where_next_class _ (gt ndvi_mean (perc 80%Z)) p 8 _ E8 R8)
    as [i9 [E9 R9]].
  destruct (where_next_class _ (gt ndvi_mean (perc 90%Z)) p 9 _ E9 R9)
    as [i10 [E10 R10]].
  exists i10. split; [ exact E10 | lia ].
Qed.

(** Where the mean and the nine deciles p10, ..., p90 have values and the
    deciles ascend, the class is at most [j] exactly when the mean is at
    most the decile p(10 j). *)
Lemma percentile_classes_bracket
  (ndvi_mean : band) (perc : Z -> band) (p : pixel) (m : Q) (q : Z -> Q) :
  ndvi_mean p = Some m ->
  (forall j, (1 <= j <= 9)%Z -> perc (10 * j)%Z p = Some (q j)) ->
  (forall j, (1 <= j < 9)%Z -> q j <= q (j + 1)%Z) ->
  exists c,
    productivity.percentile_classes ndvi_mean perc p = Some (inject_Z c)
    /\ (1 <= c <= 10)%Z
    /\ forall j, (1 <= j <= 9)%Z -> ((c <= j)%Z <-> m <= q j).
Proof.
  intros Hm Hperc Hasc.
  pose proof (Hperc 1%Z ltac:(lia)) as P1. pose proof (Hperc 2%Z ltac:(lia)) as P2.
  pose proof (Hperc 3%Z ltac:(lia)) as P3. pose proof (Hperc 4%Z ltac:(lia)) as P4.
  pose proof (Hperc 5%Z ltac:(lia)) as P5. pose proof (Hperc 6%Z ltac:(lia)) as P6.
  pose proof (Hperc 7%Z ltac:(lia)) as P7. pose proof (Hperc 8%Z ltac:(lia)) as P8.
  pose proof (Hperc 9%Z ltac:(lia)) as P9.
  pose proof (Hasc 1%Z ltac:(lia)) as A1. pose proof (Hasc 2%Z ltac:(lia)) as A2.
  pose proof (Hasc 3%Z ltac:(lia)) as A3. pose proof (Hasc 4%Z ltac:(lia)) as A4.
  pose proof (Hasc 5%Z ltac:(lia)) as A5. pose proof (Hasc 6%Z ltac:(lia)) as A6.
  pose proof (Hasc 7%Z ltac:(lia)) as A7. pose proof (Hasc 8%Z ltac:(lia)) as A8.
  simpl in P1, P2, P3, P4, P5, P6, P7, P8, P9, A1, A2, A3, A4, A5, A6, A7, A8.
  clear Hperc Hasc.
  unfold productivity.percentile_classes, where_b, where_, lte, gt, lift2,
    constant, Qlt_bool.
  rewrite Hm, P1, P2, P3, P4, P5, P6, P7, P8, P9, ?nonzero_of_bool.
  assert (J : forall j, (1 <= j <= 9)%Z ->
                j = 1%Z \/ j = 2%Z \/ j = 3%Z \/ j = 4%Z \/ j = 5%Z
                \/ j = 6%Z \/ j = 7%Z \/ j = 8%Z \/ j = 9%Z) by (intros; lia).
  destruct (Qle_bool_reflect m (q 1%Z)); destruct (Qle_bool_reflect m (q 2%Z));
  destruct (Qle_bool_reflect m (q 3%Z)); destruct (Qle_bool_reflect m (q 4%Z));
  destruct (Qle_bool_reflect m (q 5%Z)); destruct (Qle_bool_reflect m (q 6%Z));
  destruct (Qle_bool_reflect m (q 7%Z)); destruct (Qle_bool_reflect m (q 8%Z));
  destruct (Qle_bool_reflect m (q 9%Z)); simpl;
    try (exfalso; lra);
    eexists; (split; [ reflexivity | ]); (split; [ lia | ]);
    intros j Hj; destruct (J j Hj) as [-> | [-> | [-> | [-> | [-> | [-> | [-> | [-> | ->]]]]]]]];
    split; intros; try lia; try assumption; try (exfalso; lra).
Qed.

(** X6. With the mean and the deciles p10, ..., p90 of a cell given and the
    deciles ascending, the percentile class is one of 1, ..., 10, and it is
    at most [j] exactly when the mean is at most p(10 j): a mean equal to a
    decile falls in the lower class. *)
Theorem percentile_class_brackets_the_mean :
  forall (ndvi_mean : band) (perc : Z -> band) (p : pixel) (m : Q) (q : Z -> Q),
    ndvi_mean p = Some m ->
    (forall j, (1 <= j <= 9)%Z -> perc (10 * j)%Z p = Some (q j)) ->
    (forall j, (1 <= j < 9)%Z -> q j <= q (j + 1)%Z) ->
    exists c,
      productivity.percentile_classes ndvi_mean perc p = Some (inject_Z c)
      /\ (1 <= c <= 10)%Z
      /\ forall j, (1 <= j <= 9)%Z -> ((c <= j)%Z <-> m <= q j).
Proof.
  exact percentile_classes_bracket.
Qed.

(** X7. Against the same ascending deciles, a greater mean never gets a
    lower percentile class. *)
Theorem percentile_class_is_monotone :
  forall (ndvi_mean ndvi_mean' : band) (perc : Z -> band) (p : pixel)
         (m m' : Q) (q : Z -> Q),
    ndvi_mean p = Some m ->
    ndvi_mean' p = Some m' ->
    (forall j, (1 <= j <= 9)%Z -> perc (10 * j)%Z p = Some (q j)) ->
    (forall j, (1 <= j < 9)%Z -> q j <= q (j + 1)%Z) ->
    m <= m' ->
    exists c c',
      productivity.percentile_classes ndvi_mean perc p = Some (inject_Z c)
      /\ productivity.percentile_classes ndvi_mean' perc p = Some (inject_Z c')
      /\ (c <= c')%Z.
Proof.
  intros ndvi_mean ndvi_mean' perc p m m' q Hm Hm' Hperc Hasc Hle.
  destruct (percentile_classes_bracket ndvi_mean perc p m q Hm Hperc Hasc)
    as [c [E [R B]]].
  destruct (percentile_classes_bracket ndvi_mean' perc p m' q Hm' Hperc Hasc)
    as [c' [E' [R' B']]].
  exists c, c'. split; [ exact E | ]. split; [ exact E' | ].
  destruct (Z_le_gt_dec c c') as [L | G]; [ exact L | ].
  assert (Hj : (1 <= c' <= 9)%Z) by lia.
  apply (B c' Hj).
  apply Qle_trans with m'; [ exact Hle | ].
  apply (B' c' Hj). lia.
Qed.

Lemma percentile_classes_no_data
  (ndvi_mean : band) (perc : Z -> band) (p : pixel) :
  ndvi_mean p = None ->
  productivity.percentile_classes ndvi_mean perc p = Some pm.int_16_min.
Proof.
  intros H.
  unfold productivity.percentile_classes, where_b, where_, lte, gt, lift2,
    constant.
  now rewrite H.
Qed.

(** X8. A cell whose target period has no mean, while its baseline period
    has one, gets the state degraded (1): its target class stays at the
    sentinel, and the difference of the classes is far below -2 without
    being the sentinel itself.  A cell without mean in either period gets
    the state stable (2): the two sentinels cancel. *)
Theorem state_of_cells_without_data :
  forall (baseline_ndvi_mean target_ndvi_mean : band) (perc : Z -> band)
         (p : pixel),
    target_ndvi_mean p = None ->
    let state :=
      returns_at "state"
        (productivity.state_classes
           (productivity.percentile_classes baseline_ndvi_mean perc)
           (productivity.percentile_classes target_ndvi_mean perc)
           baseline_ndvi_mean target_ndvi_mean) p in
    (forall b q10,
        baseline_ndvi_mean p = Some b -> perc 10%Z p = Some q10 ->
        state 1)
    /\ (baseline_ndvi_mean p = None -> state 2).
Proof.
  intros bm tm perc p Ht state. subst state. split.
  - intros b q10 Hb Hq.
    destruct (percentile_classes_range bm perc p b q10 Hb Hq) as [x [Ex Rx]].
    pose proof (percentile_classes_no_data tm perc p Ht) as Ey.
    returned.
    unfold sample, map_bands, single; simpl.
    unfold uint8, lift1, where', where_, And, lt_c, gt_c, lte_c, gte_c, neq_c,
      lt, gt, lte, gte, neq, abs, subtract, lift1, lift2, constant.
    rewrite Ex, Ey, Hb, Ht.
    assert (Hx : (x = 1 \/ x = 2 \/ x = 3 \/ x = 4 \/ x = 5 \/ x = 6 \/ x = 7
                 \/ x = 8 \/ x = 9 \/ x = 10)%Z) by lia.
    repeat (destruct Hx as [Hx | Hx]); subst x; reflexivity.
  - intros Hb.
    pose proof (percentile_classes_no_data bm perc p Hb) as Ex.
    pose proof (percentile_classes_no_data tm perc p Ht) as Ey.
    returned.
    unfold sample, map_bands, single; simpl.
    unfold uint8, lift1, where', where_, And, lt_c, gt_c, lte_c, gte_c, neq_c,
      lt, gt, lte, gte, neq, abs, subtract, lift1, lift2, constant.
    rewrite Ex, Ey, Hb. reflexivity.
Qed.

(** X9. Where the two means differ by more than 100, the guard does not
    apply and the state follows the difference of the two percentile
    classes: improved (3) from +2 on, degraded (1) from -2 down, stable (2)
    in between. *)
Theorem state_follows_the_class_difference :
  forall (baseline_classes target_classes baseline_ndvi_mean target_ndvi_mean
            : band) (p : pixel) (b t : Q) (x y : Z),
    baseline_ndvi_mean p = Some b ->
    target_ndvi_mean p = Some t ->
    baseline_classes p = Some (inject_Z x) ->
    target_classes p = Some (inject_Z y) ->
    (1 <= x <= 10)%Z -> (1 <= y <= 10)%Z ->
    100 < Qabs (b - t) ->
    returns_at "state"
      (productivity.state_classes baseline_classes target_classes
                                  baseline_ndvi_mean target_ndvi_mean) p
      (if (2 <=? y - x)%Z then 3 else if (y - x <=? -2)%Z then 1 else 2).
Proof.
  intros bc tc bm tm p b t x y Hb Ht Hx Hy Rx Ry Hfar. returned.
  unfold sample, map_bands, single; simpl.
  unfold uint8, lift1, where', where_, And, lt_c, gt_c, lte_c, gte_c, neq_c,
    lt, gt, lte, gte, neq, abs, subtract, lift1, lift2, constant, Qlt_bool.
  rewrite Hb, Ht, Hx, Hy.
  cbn -[Qabs Qminus Qle_bool Qeq_bool Qfloor inject_Z Z.leb].
  destruct (Qle_bool_reflect (Qabs (b - t)) 100) as [L | _]; [ exfalso; lra | ].
  assert (Ex : (x = 1 \/ x = 2 \/ x = 3 \/ x = 4 \/ x = 5 \/ x = 6 \/ x = 7
               \/ x = 8 \/ x = 9 \/ x = 10)%Z) by lia.
  assert (Ey : (y = 1 \/ y = 2 \/ y = 3 \/ y = 4 \/ y = 5 \/ y = 6 \/ y = 7
               \/ y = 8 \/ y = 9 \/ y = 10)%Z) by lia.
  repeat (destruct Ex as [Ex | Ex]); repeat (destruct Ey as [Ey | Ey]);
    subst x y; reflexivity.
Qed.

Lemma decile_values_ascend (j : Z) :
  (1 <= j < 9)%Z -> decile_values j <= decile_values (j + 1).
Proof.
  intros Hj.
  assert (E : (j = 1 \/ j = 2 \/ j = 3 \/ j = 4 \/ j = 5 \/ j = 6 \/ j = 7
               \/ j = 8)%Z) by lia.
  repeat (destruct E as [E | E]); subst j; vm_compute; discriminate.
Qed.

Lemma percentile_class_brackets_the_mean_witness :
  exists c,
    productivity.percentile_classes (constant 0.3) example_deciles (0, 0)%Z
    = Some (inject_Z c)
    /\ (1 <= c <= 10)%Z
    /\ ((c <= 3)%Z <-> 0.3 <= decile_values 3).
Proof.
  destruct (percentile_class_brackets_the_mean
              (constant 0.3) example_deciles (0, 0)%Z 0.3 decile_values)
    as [c [E [R B]]].
  - reflexivity.
  - intros j Hj. reflexivity.
  - exact decile_values_ascend.
  - exists c. split; [ exact E | ]. split; [ exact R | ].
    apply B. lia.
Defined.

Lemma percentile_class_is_monotone_witness :
  exists c c',
    productivity.percentile_classes (constant 0.3) example_deciles (0, 0)%Z
    = Some (inject_Z c)
    /\ productivity.percentile_classes (constant 0.75) example_deciles (0, 0)%Z
       = Some (inject_Z c')
    /\ (c <= c')%Z.
Proof.
  apply (percentile_class_is_monotone
           (constant 0.3) (constant 0.75) example_deciles (0, 0)%Z
           0.3 0.75 decile_values).
  - reflexivity.
  - reflexivity.
  - intros j Hj. reflexivity.
  - exact decile_values_ascend.
  - vm_compute. discriminate.
Defined.

(** A baseline mean of 0.3 and no mean in the target period. *)
Lemma state_of_cells_without_data_witness :
  returns_at "state"
    (productivity.state_classes
       (productivity.percentile_classes (constant 0.3) example_deciles)
       (productivity.percentile_classes masked example_deciles)
       (constant 0.3) masked) (0, 0)%Z 1.
Proof.
  destruct (state_of_cells_without_data
              (constant 0.3) masked example_deciles (0, 0)%Z) as [H _].
  - reflexivity.
  - apply (H 0.3 (inject_Z 10 / 100)); reflexivity.
Defined.

(** Means of an index scaled by 10000: 1000 in class 1, 9000 in class 9. *)
Lemma state_follows_the_class_difference_witness :
  returns_at "state"
    (productivity.state_classes (constant 1) (constant 9)
                                (constant 1000) (constant 9000)) (0, 0)%Z 3.
Proof.
  apply (state_follows_the_class_difference
           (constant 1) (constant 9) (constant 1000) (constant 9000)
           (0, 0)%Z 1000 9000 1 9);
    try reflexivity; try lia.
Defined.

(** ** The join of the two annual series *)

Lemma select_ok (name : string) (img : Image) :
  find_band name (bands img) <> None ->
  exists img', select name img = ok img' /\ selected name img img'.
Proof.
  intros H. unfold select, selected.
  destruct (find_band name (bands img)) as [b |]; [ | congruence ].
  eexists. split; [ reflexivity | ]. now exists b.
Qed.

Lemma select_coll_ok (name : string) (c : ImageCollection) :
  (forall img, In img c -> find_band name (bands img) <> None) ->
  exists c', select_coll name c = ok c' /\ Forall2 (selected name) c c'.
Proof.
  unfold select_coll.
  induction c as [| img c IH]; intros H; simpl.
  - exists []. split; [ reflexivity | constructor ].
  - destruct (select_ok name img) as [img' [E S]]; [ apply H; now left | ].
    destruct IH as [c' [E' F]]; [ intros i Hi; apply H; now right | ].
    exists (img' :: c'). rewrite E, E'. split; [ reflexivity | now constructor ].
Qed.

Lemma selected_years (name : string) (c c' : ImageCollection) :
  Forall2 (selected name) c c' -> map year c' = map year c.
Proof.
  induction 1 as [| img img' c c' [b [_ ->]] _ IH]; simpl; [ reflexivity | ].
  now rewrite IH.
Qed.

Lemma selected_bands (name : string) (c c' : ImageCollection) (img' : Image) :
  Forall2 (selected name) c c' -> In img' c' -> bandNames img' = [name].
Proof.
  induction 1 as [| img i' c c' [b [_ ->]] _ IH]; simpl; [ tauto | ].
  intros [<- | Hin]; [ reflexivity | now apply IH ].
Qed.

Lemma In_inner_join (primary secondary : ImageCollection) (a b : Image) :
  In (a, b) (productivity.inner_join primary secondary)
  <-> In a primary /\ In b secondary /\ productivity.same_year a b = true.
Proof.
  unfold productivity.inner_join. rewrite in_flat_map. split.
  - intros [a' [Ha Hin]]. apply in_map_iff in Hin.
    destruct Hin as [b' [E Hb]]. inversion E; subst.
    apply filter_In in Hb. tauto.
  - intros [Ha [Hb Hsame]]. exists a. split; [ exact Ha | ].
    apply in_map. apply filter_In. tauto.
Qed.

Lemma same_year_iff (a b : Image) :
  productivity.same_year a b = true
  <-> exists y, year a = Some y /\ year b = Some y.
Proof.
  unfold productivity.same_year.
  destruct (year a) as [x |], (year b) as [y |]; split;
    try discriminate; try (intros [z [E1 E2]]; discriminate).
  - intros E. apply Z.eqb_eq in E. subst. now exists y.
  - intros [z [E1 E2]]. inversion E1; inversion E2; subst. apply Z.eqb_refl.
Qed.

(** The years of the joined collection are the years present in both. *)
Lemma joined_years (clim ndvi : ImageCollection) (y : Z) :
  In (Some y)
     (map year (map productivity.cat_with_year (productivity.inner_join clim ndvi)))
  <-> In (Some y) (map year clim) /\ In (Some y) (map year ndvi).
Proof.
  rewrite map_map. rewrite in_map_iff. split.
  - intros [[a b] [E Hin]]. simpl in E. apply In_inner_join in Hin.
    destruct Hin as [Ha [Hb Hsame]]. apply same_year_iff in Hsame.
    destruct Hsame as [z [Ea Eb]]. rewrite Ea in E. inversion E; subst z.
    split; apply in_map_iff; [ now exists a | now exists b ].
  - intros [Hc Hn]. apply in_map_iff in Hc. apply in_map_iff in Hn.
    destruct Hc as [a [Ea Ha]]. destruct Hn as [b [Eb Hb]].
    exists (a, b). split; [ exact Ea | ].
    apply In_inner_join. split; [ exact Ha | split; [ exact Hb | ] ].
    apply same_year_iff. now exists y.
Qed.

Lemma ndvi_climate_merge_ok :
  forall climate_yearly_integration ndvi_yearly_integration : ImageCollection,
    (forall img, In img climate_yearly_integration ->
                 find_band "clim" (bands img) <> None) ->
    (forall img, In img ndvi_yearly_integration ->
                 find_band "ndvi" (bands img) <> None) ->
    exists joined,
      productivity.ndvi_climate_merge climate_yearly_integration
                                      ndvi_yearly_integration = ok joined
      /\ (forall y, In (Some y) (map year joined)
                    <-> In (Some y) (map year climate_yearly_integration)
                        /\ In (Some y) (map year ndvi_yearly_integration))
      /\ (forall img, In img joined ->
                      bandNames img = ["clim"; "ndvi"] /\ year img <> None).
Proof.
  intros clim ndvi Hclim Hndvi.
  destruct (select_coll_ok "clim" clim Hclim) as [clim' [Ec Fc]].
  destruct (select_coll_ok "ndvi" ndvi Hndvi) as [ndvi' [En Fn]].
  unfold productivity.ndvi_climate_merge. rewrite Ec, En. simpl.
  eexists. split; [ reflexivity | ]. split.
  - intros y. rewrite joined_years.
    now rewrite (selected_years _ _ _ Fc), (selected_years _ _ _ Fn).
  - intros img Hin. apply in_map_iff in Hin. destruct Hin as [[a b] [<- Hin]].
    apply In_inner_join in Hin. destruct Hin as [Ha [Hb Hsame]].
    split.
    + unfold bandNames, productivity.cat_with_year. simpl.
      rewrite map_app.
      change (bandNames a ++ bandNames b = ["clim"; "ndvi"]).
      now rewrite (selected_bands _ _ _ a Fc Ha), (selected_bands _ _ _ b Fn Hb).
    + apply same_year_iff in Hsame. destruct Hsame as [y [Ea _]].
      simpl. rewrite Ea. discriminate.
Qed.

(** X10. When every climate raster has the band [clim] and every
    vegetation-index raster the band [ndvi], [ndvi_climate_merge] returns
    a collection whose rasters carry the two bands [clim] and [ndvi] and a
    year, and whose years are exactly the years present in both series: a
    year of one series only is dropped. *)
Theorem ndvi_climate_merge_keeps_the_common_years :
  forall climate_yearly_integration ndvi_yearly_integration : ImageCollection,
    (forall img, In img climate_yearly_integration ->
                 find_band "clim" (bands img) <> None) ->
    (forall img, In img ndvi_yearly_integration ->
                 find_band "ndvi" (bands img) <> None) ->
    exists joined,
      productivity.ndvi_climate_merge climate_yearly_integration
                                      ndvi_yearly_integration = ok joined
      /\ (forall y, In (Some y) (map year joined)
                    <-> In (Some y) (map year climate_yearly_integration)
                        /\ In (Some y) (map year ndvi_yearly_integration))
      /\ (forall img, In img joined ->
                      bandNames img = ["clim"; "ndvi"] /\ year img <> None).
Proof.
  exact ndvi_climate_merge_ok.
Qed.

Lemma ndvi_climate_merge_keeps_the_common_years_witness :
  exists joined,
    productivity.ndvi_climate_merge
      [annual "clim" 2001 500; annual "clim" 2002 600]
      [annual "ndvi" 2002 0.4; annual "ndvi" 2003 0.5] = ok joined
    /\ (In (Some 2002%Z) (map year joined)
        <-> In (Some 2002%Z) [Some 2001%Z; Some 2002%Z]
            /\ In (Some 2002%Z) [Some 2002%Z; Some 2003%Z]).
Proof.
  destruct (ndvi_climate_merge_keeps_the_common_years
              [annual "clim" 2001 500; annual "clim" 2002 600]
              [annual "ndvi" 2002 0.4; annual "ndvi" 2003 0.5])
    as [joined [E [Y _]]].
  - intros img [<- | [<- | []]]; discriminate.
  - intros img [<- | [<- | []]]; discriminate.
  - exists joined. split; [ exact E | ]. exact (Y 2002%Z).
Defined.

(** ** The residuals and the rain-use efficiency *)

Lemma filter_has_year (c : ImageCollection) (y : Z) :
  filter (has_year y) c <> [] <-> In (Some y) (map year c).
Proof.
  split.
  - intros H. destruct (filter (has_year y) c) as [| img l] eqn:E;
      [ congruence | ].
    assert (Hin : In img (filter (has_year y) c)) by (rewrite E; now left).
    apply filter_In in Hin. destruct Hin as [Hin Hy].
    apply in_map_iff. exists img. split; [ | exact Hin ].
    unfold has_year in Hy. destruct (year img); [ | discriminate ].
    apply Z.eqb_eq in Hy. now subst.
  - intros H E. apply in_map_iff in H. destruct H as [img [Hy Hin]].
    assert (Hf : In img (filter (has_year y) c)).
    { apply filter_In. split; [ exact Hin | ].
      unfold has_year. rewrite Hy. apply Z.eqb_refl. }
    now rewrite E in Hf.
Qed.

Lemma two_bands (img : Image) :
  bandNames img = ["clim"; "ndvi"] ->
  find_band "clim" (bands img) <> None /\ find_band "ndvi" (bands img) <> None.
Proof.
  unfold bandNames. destruct (bands img) as [| [n1 b1] [| [n2 b2] [| ? ?]]];
    simpl; try discriminate.
  intros E. inversion E; subst. simpl. split; discriminate.
Qed.

(** What [ndvi_residuals] gives for an annual raster with its band and its
    year: a residual when a predicted raster has that year, the error of
    the subtraction when none has. *)
Lemma ndvi_residuals_cases (modeled : ImageCollection) (image : Image) :
  find_band "ndvi" (bands image) <> None ->
  year image <> None ->
  (In (year image) (map year modeled) ->
   exists r, productivity.ndvi_residuals modeled image = ok r
             /\ bandNames r = ["year"; "ndvi_res"])
  /\ (~ In (year image) (map year modeled) ->
      productivity.ndvi_residuals modeled image = raise no_predicted_image).
Proof.
  intros Hband Hyear. unfold productivity.ndvi_residuals.
  destruct (year image) as [y |] eqn:Ey; [ | congruence ].
  destruct (select_ok "ndvi" image Hband) as [ndvi_o [E _]]. rewrite E. simpl.
  split; intros H.
  - apply filter_has_year in H.
    destruct (filter (has_year y) modeled) as [| ndvi_p l]; [ congruence | ].
    eexists. split; reflexivity.
  - destruct (filter (has_year y) modeled) as [| ndvi_p l] eqn:F;
      [ reflexivity | ].
    exfalso. apply H. apply filter_has_year. rewrite F. discriminate.
Qed.

(** The predicted rasters of [restrend] have the years of the join. *)
Lemma residual_series_unfold
  (linearFit : list (band * band) -> band * band)
  (vi clim : ImageCollection) :
  (forall img, In img clim -> find_band "clim" (bands img) <> None) ->
  (forall img, In img vi -> find_band "ndvi" (bands img) <> None) ->
  exists predicted,
    productivity.residual_series linearFit vi clim
    = mapM (productivity.ndvi_residuals predicted) vi
    /\ forall y, In (Some y) (map year predicted)
                 <-> In (Some y) (map year clim) /\ In (Some y) (map year vi).
Proof.
  intros Hclim Hvi.
  destruct (ndvi_climate_merge_ok clim vi Hclim Hvi) as [joined [E [Y B]]].
  unfold productivity.residual_series, productivity.reduce_linearFit.
  rewrite E. simpl.
  destruct (select_coll_ok "clim" joined) as [xs [Ex Fx]];
    [ intros img Hin; now apply two_bands, B | ].
  destruct (select_coll_ok "ndvi" joined) as [ys [Ey Fy]];
    [ intros img Hin; now apply two_bands, B | ].
  rewrite Ex, Ey. simpl.
  eexists. split; [ reflexivity | ].
  intros y. rewrite <- Y, <- (selected_years _ _ _ Fx), map_map. reflexivity.
Qed.

(** X11. With the band [clim] in every climate raster and the band [ndvi]
    and a year in every vegetation-index raster, the residual series of
    [restrend] is built exactly when every year of the vegetation-index
    series is a year of the climate series: then it has one raster, with
    the bands [year] and [ndvi_res], for every vegetation-index raster;
    otherwise the subtraction for the unmatched year fails. *)
Theorem restrend_residuals_need_climate_for_every_year :
  forall (linearFit : list (band * band) -> band * band)
         (ndvi_yearly_integration climate_yearly_integration : ImageCollection),
    (forall img, In img climate_yearly_integration ->
                 find_band "clim" (bands img) <> None) ->
    (forall img, In img ndvi_yearly_integration ->
                 find_band "ndvi" (bands img) <> None /\ year img <> None) ->
    ((forall img, In img ndvi_yearly_integration ->
                  In (year img) (map year climate_yearly_integration)) ->
     exists residuals,
       productivity.residual_series linearFit ndvi_yearly_integration
                                    climate_yearly_integration = ok residuals
       /\ List.length residuals = List.length ndvi_yearly_integration
       /\ forall r, In r residuals -> bandNames r = ["year"; "ndvi_res"])
    /\ ((exists img, In img ndvi_yearly_integration
                     /\ ~ In (year img) (map year climate_yearly_integration)) ->
        productivity.residual_series linearFit ndvi_yearly_integration
                                     climate_yearly_integration
        = raise no_predicted_image).
Proof.
  intros linearFit vi clim Hclim Hvi.
  destruct (residual_series_unfold linearFit vi clim Hclim)
    as [predicted [E Y]]; [ intros img Hin; now apply Hvi | ].
  rewrite E. clear E.
  assert (Hyear : forall img, In img vi ->
            (In (year img) (map year predicted)
             <-> In (year img) (map year clim))).
  { intros img Hin. destruct (Hvi img Hin) as [_ Hy].
    destruct (year img) as [y |] eqn:Ey; [ | congruence ].
    rewrite Y. split; [ tauto | ]. intros Hc. split; [ exact Hc | ].
    apply in_map_iff. now exists img. }
  split.
  - intros Hall.
    destruct (mapM_ok (productivity.ndvi_residuals predicted) vi)
      as [residuals Er].
    { intros img Hin. destruct (Hvi img Hin) as [Hb Hy].
      destruct (ndvi_residuals_cases predicted img Hb Hy) as [Hok _].
      destruct Hok as [r [Hr _]]; [ apply Hyear; auto | now exists r ]. }
    exists residuals. split; [ exact Er | ].
    split; [ now apply (mapM_length _ _ _ Er) | ].
    apply mapM_Forall2 in Er. intros r Hr.
    assert (Hex : exists img, In img vi
                              /\ productivity.ndvi_residuals predicted img = ok r).
    { clear - Er Hr. induction Er as [| img r' l l' E _ IH]; [ destruct Hr | ].
      destruct Hr as [<- | Hr].
      - exists img. split; [ now left | exact E ].
      - destruct (IH Hr) as [i [Hi Ei]]. exists i. split; [ now right | exact Ei ]. }
    destruct Hex as [img [Hin Eimg]]. destruct (Hvi img Hin) as [Hb Hy].
    destruct (ndvi_residuals_cases predicted img Hb Hy) as [Hok _].
    destruct Hok as [r' [Hr' Hn]]; [ apply Hyear; auto | ].
    rewrite Hr' in Eimg. inversion Eimg. now subst.
  - intros [img0 [Hin0 Hno]]. apply mapM_raise_one.
    + exists img0. split; [ exact Hin0 | ].
      destruct (Hvi img0 Hin0) as [Hb Hy].
      apply (ndvi_residuals_cases predicted img0 Hb Hy).
      intros H. apply Hno. now apply Hyear.
    + intros img Hin. destruct (Hvi img Hin) as [Hb Hy].
      destruct (ndvi_residuals_cases predicted img Hb Hy) as [Hok Hfail].
      destruct (year img) as [y |] eqn:Ey; [ | congruence ].
      destruct (filter (has_year y) predicted) as [| i l] eqn:F.
      * left. apply Hfail. intros I. apply filter_has_year in I. congruence.
      * right. destruct Hok as [r [Hr _]]; [ | now exists r ].
        apply filter_has_year. rewrite F. discriminate.
Qed.


(** ** Quality bits and cloud masks *)

Lemma land_bit (n k : Z) :
  (0 <= k)%Z ->
  Z.land n (Z.shiftl 1 k) = if Z.testbit n k then (2 ^ k)%Z else 0%Z.
Proof.
  intros Hk. rewrite Z.shiftl_1_l.
  apply Z.bits_inj'. intros i Hi.
  rewrite Z.land_spec, Z.pow2_bits_eqb by assumption.
  destruct (Z.eqb_spec k i) as [-> | N].
  - destruct (Z.testbit n i) eqn:E; simpl.
    + now rewrite Z.pow2_bits_true.
    + now rewrite Z.bits_0.
  - rewrite andb_false_r. destruct (Z.testbit n k).
    + rewrite Z.pow2_bits_false; [ reflexivity | assumption ].
    + now rewrite Z.bits_0.
Qed.

(** A flag of the quality band is set where the mask of the flag does not
    give 0. *)
Lemma flag_is_bit (n k : Z) :
  (0 <= k)%Z ->
  nonzero (inject_Z (Z.land (Qfloor (inject_Z n)) (Qfloor (inject_Z (Z.shiftl 1 k)))))
  = Z.testbit n k.
Proof.
  intros Hk. rewrite !Qfloor_Z, land_bit by assumption.
  destruct (Z.testbit n k); [ | reflexivity ].
  unfold nonzero. destruct (Qeq_bool_reflect (inject_Z (2 ^ k)) 0) as [E | _];
    [ | reflexivity ].
  exfalso. unfold Qeq in E. simpl in E.
  pose proof (Z.pow_pos_nonneg 2 k). lia.
Qed.

Lemma shifted_bits (n s e : Z) :
  (0 <= s <= e)%Z ->
  Z.land (Z.shiftr n s) (Z.shiftl 1 (1 + e - s) - 1)
  = ((n / 2 ^ s) mod 2 ^ (e - s + 1))%Z.
Proof.
  intros H. rewrite Z.shiftr_div_pow2 by lia.
  replace (Z.shiftl 1 (1 + e - s) - 1)%Z with (Z.ones (e - s + 1)).
  - apply Z.land_ones. lia.
  - rewrite Z.ones_equiv, Z.shiftl_1_l.
    replace (1 + e - s)%Z with (e - s + 1)%Z by lia. lia.
Qed.

Lemma bit_selection_value (bitmask : band) (p : pixel) (n s e : Z) :
  bitmask p = Some (inject_Z n) ->
  (0 <= s <= e)%Z ->
  integration.bit_selection bitmask s e p
  = Some (inject_Z ((n / 2 ^ s) mod 2 ^ (e - s + 1))).
Proof.
  intros Hn Hse.
  unfold integration.bit_selection, bitwiseAnd_c, bitwiseAnd, rightShift,
    lift1, lift2, constant.
  rewrite Hn. cbv beta iota delta [option_map].
  rewrite !Qfloor_Z, shifted_bits by assumption. reflexivity.
Qed.

Lemma single_bit (n s : Z) :
  (0 <= s)%Z -> ((n / 2 ^ s) mod 2 ^ (s - s + 1))%Z = Z.b2z (Z.testbit n s).
Proof.
  intros Hs. replace (s - s + 1)%Z with 1%Z by lia.
  rewrite <- Z.shiftr_div_pow2 by lia.
  change (2 ^ 1)%Z with 2%Z.
  rewrite <- Z.bit0_mod, Z.shiftr_spec by lia.
  now rewrite Z.add_0_l.
Qed.

(** X13. On a cell of integer value [n], [bit_selection] from [start_bit]
    to [end_bit] gives the number written by those bits of [n]: [n]
    divided by 2^start_bit, modulo 2^(end_bit - start_bit + 1); it lies
    between 0 and that power of two, and for one bit it is 1 or 0 as the
    bit is set or not. *)
Theorem bit_selection_reads_the_bits :
  forall (bitmask : band) (p : pixel) (n start_bit end_bit : Z),
    bitmask p = Some (inject_Z n) ->
    (0 <= start_bit <= end_bit)%Z ->
    let field := ((n / 2 ^ start_bit) mod 2 ^ (end_bit - start_bit + 1))%Z in
    integration.bit_selection bitmask start_bit end_bit p = Some (inject_Z field)
    /\ (0 <= field < 2 ^ (end_bit - start_bit + 1))%Z
    /\ (start_bit = end_bit -> field = Z.b2z (Z.testbit n start_bit)).
Proof.
  intros bitmask p n s e Hn Hse field.
  split; [ | split ].
  - now apply bit_selection_value.
  - apply Z.mod_pos_bound. apply Z.pow_pos_nonneg; lia.
  - intros <-. apply single_bit. lia.
Qed.

Lemma bit_selection_reads_the_bits_witness :
  integration.bit_selection (constant (inject_Z 1026)) 0 1 (0, 0)%Z
  = Some (inject_Z 2).
Proof.
  destruct (bit_selection_reads_the_bits
              (constant (inject_Z 1026)) (0, 0)%Z 1026 0 1) as [H _].
  - reflexivity.
  - lia.
  - exact H.
Defined.

Lemma find_band_map_bands (f : band -> band) (name : string) (img : Image) :
  find_band name (bands (map_bands f img))
  = option_map f (find_band name (bands img)).
Proof.
  unfold map_bands. simpl. induction (bands img) as [| [n b] l IH]; simpl;
    [ reflexivity | ].
  destruct (String.eqb n name); [ reflexivity | exact IH ].
Qed.

Lemma sample_map_bands (f : band -> band) (name : string) (img : Image)
  (p : pixel) :
  sample name (map_bands f img) p
  = match find_band name (bands img) with
    | Some b => f b p
    | None => None
    end.
Proof.
  unfold sample. rewrite find_band_map_bands.
  now destruct (find_band name (bands img)).
Qed.

(** X14. For a Landsat sensor, a cell of [cloud_mask] keeps the value of
    each band when the quality value of the cell has neither the bits 3
    and 8 both set nor the bit 4 set, and every band of the image has a
    value there; otherwise the cell is masked in every band. *)
Theorem cloud_mask_landsat :
  forall (img : Image) (sensor : string) (p : pixel) (n : Z),
    is_in sensor ["Landsat 5"; "Landsat 7"; "Landsat 4"; "Landsat 8"; "Landsat 9"]
    = true ->
    sample "pixel_qa" img p = Some (inject_Z n) ->
    exists img',
      integration.cloud_mask img sensor = ok img'
      /\ forall name,
           sample name img' p
           = if landsat_cloud n || negb (all_bands_valid img p) then None
             else sample name img p.
Proof.
  intros img sensor p n Hsensor Hqa.
  destruct (sample_find _ _ _ _ Hqa) as [qa [Eqa Hn]].
  unfold integration.cloud_mask, band_of. rewrite Hsensor, Eqa.
  cbn [bind ok].
  eexists. split; [ reflexivity | ].
  intros name. rewrite sample_map_bands, find_band_map_bands. unfold sample.
  destruct (find_band name (bands img)) as [b |]; simpl option_map;
    [ | now destruct (landsat_cloud n || negb (all_bands_valid img p)) ].
  unfold updateMask, mask_min, Not, Or, And, bitwiseAnd_c, bitwiseAnd,
    lift1, lift2, constant.
  rewrite Hn. cbv beta iota delta [option_map].
  change (inject_Z 8) with (inject_Z (Z.shiftl 1 3)).
  change (inject_Z 256) with (inject_Z (Z.shiftl 1 8)).
  change (inject_Z 16) with (inject_Z (Z.shiftl 1 4)).
  rewrite ?nonzero_of_bool, !flag_is_bit by lia.
  fold (all_bands_valid img p). unfold landsat_cloud.
  destruct (Z.testbit n 3), (Z.testbit n 8), (Z.testbit n 4),
    (all_bands_valid img p); reflexivity.
Qed.

Lemma is_zero_not_nonzero (x : Q) : Qeq_bool x 0 = negb (nonzero x).
Proof. unfold nonzero. now rewrite negb_involutive. Qed.

(** X15. For Sentinel 2, a cell of [cloud_mask] is kept when the bits 10
    and 11 of its quality value are both 0, and the kept value of each band
    is the value divided by 10000; [apply_scale_factor] then multiplies it
    by 0.0001 once more, so that the value leaves the two steps divided by
    10000 twice. *)
Theorem cloud_mask_sentinel_scales_twice :
  forall (img : Image) (p : pixel) (n : Z),
    sample "QA60" img p = Some (inject_Z n) ->
    exists img' scaled,
      integration.cloud_mask img "Sentinel 2" = ok img'
      /\ integration.apply_scale_factor img' "Sentinel 2" = ok scaled
      /\ forall name v,
           sample name img p = Some v ->
           sample name img' p
           = (if sentinel_clear n then Some (v / 10000) else None)
           /\ sample name scaled p
              = (if sentinel_clear n then Some (v / 10000 * 0.0001) else None).
Proof.
  intros img p n Hqa.
  destruct (sample_find _ _ _ _ Hqa) as [qa [Eqa Hn]].
  unfold integration.cloud_mask, integration.apply_scale_factor, band_of.
  rewrite Eqa. cbn [bind ok is_in existsb String.eqb Ascii.eqb Bool.eqb orb].
  eexists. eexists. split; [ reflexivity | ]. split; [ reflexivity | ].
  intros name v Hv.
  destruct (sample_find _ _ _ _ Hv) as [b [Eb Hb]].
  assert (K : Qeq_bool 10000 0 = false) by reflexivity.
  assert (M : updateMask b
                (And (qa |> bitwiseAnd_c 1024 |> eq_c 0)
                     (qa |> bitwiseAnd_c 2048 |> eq_c 0)) p
              = if sentinel_clear n then Some v else None).
  { change 1024%Z with (Z.shiftl 1 10). change 2048%Z with (Z.shiftl 1 11).
    unfold updateMask, And, eq_c, eq, bitwiseAnd_c, bitwiseAnd, lift2, constant.
    rewrite Hn, Hb. cbv beta iota.
    rewrite !is_zero_not_nonzero, ?nonzero_of_bool, !flag_is_bit by lia.
    reflexivity. }
  split.
  - rewrite sample_map_bands, find_band_map_bands, Eb. simpl option_map.
    unfold divide_c, divide, constant. rewrite M.
    destruct (sentinel_clear n); [ now rewrite K | reflexivity ].
  - unfold copyProperties, sample. cbn [bands].
    rewrite !find_band_map_bands, Eb. simpl option_map.
    unfold multiply_c, multiply, lift2, divide_c, divide, constant. rewrite M.
    destruct (sentinel_clear n); [ now rewrite K | reflexivity ].
Qed.

(** X16. For MODIS, a cell of [cloud_mask] keeps the value of each band
    when, in its quality value, the two lowest bits write 0 or 1 and the
    bits 10, 14 and 15 are 0; otherwise the cell is masked in every
    band. *)
Theorem cloud_mask_modis :
  forall (img : Image) (p : pixel) (n : Z),
    sample "DetailedQA" img p = Some (inject_Z n) ->
    exists img',
      integration.cloud_mask img "MODIS" = ok img'
      /\ forall name,
           sample name img' p
           = if modis_clear n then sample name img p else None.
Proof.
  intros img p n Hqa.
  destruct (sample_find _ _ _ _ Hqa) as [qa [Eqa Hn]].
  unfold integration.cloud_mask, band_of.
  rewrite Eqa. cbn [bind ok is_in existsb String.eqb Ascii.eqb Bool.eqb orb].
  eexists. split; [ reflexivity | ].
  intros name. rewrite sample_map_bands. unfold sample.
  destruct (find_band name (bands img)) as [b |];
    [ | now destruct (modis_clear n) ].
  unfold updateMask, And, eq_c, lte_c, eq, lte, lift2, constant.
  rewrite (bit_selection_value qa p n 0 1 Hn) by lia.
  rewrite (bit_selection_value qa p n 14 14 Hn) by lia.
  rewrite (bit_selection_value qa p n 15 15 Hn) by lia.
  rewrite (bit_selection_value qa p n 10 10 Hn) by lia.
  rewrite !single_bit by lia. cbv beta iota.
  rewrite ?nonzero_of_bool.
  replace ((n / 2 ^ 0) mod 2 ^ (1 - 0 + 1))%Z with (n mod 4)%Z
    by (change (2 ^ 0)%Z with 1%Z; now rewrite Z.div_1_r).
  unfold modis_clear.
  assert (L : Qle_bool (inject_Z (n mod 4)) 1 = (n mod 4 <=? 1)%Z).
  { unfold Qle_bool. simpl. now rewrite !Z.mul_1_r. }
  rewrite L.
  destruct (n mod 4 <=? 1)%Z, (Z.testbit n 14), (Z.testbit n 15),
    (Z.testbit n 10); reflexivity.
Qed.

(** X17. For a sensor that is none of Landsat 4, 5, 7, 8, 9 and Sentinel 2,
    [rename_band] returns the image as it is and [apply_scale_factor]
    raises, as no branch assigns the image it returns; [cloud_mask]
    returns the image as it is unless the sensor is MODIS. *)
Theorem apply_scale_factor_needs_a_known_sensor :
  forall (img : Image) (sensor : string),
    ~ In sensor surface_reflectance_sensors ->
    integration.rename_band img sensor = ok img
    /\ integration.apply_scale_factor img sensor
       = raise (UnboundLocalError "scalled_img")
    /\ (sensor <> "MODIS" -> integration.cloud_mask img sensor = ok img).
Proof.
  intros img sensor Hno.
  assert (D : forall name, In name surface_reflectance_sensors ->
                           String.eqb sensor name = false).
  { intros name Hin. apply String.eqb_neq. intros E. apply Hno. now rewrite E. }
  unfold integration.rename_band, integration.apply_scale_factor,
    integration.cloud_mask, is_in, existsb.
  rewrite !D by (simpl; tauto). simpl.
  split; [ reflexivity | ]. split; [ reflexivity | ].
  intros Hmodis. apply String.eqb_neq in Hmodis. now rewrite Hmodis.
Qed.

(** ** Vegetation indices and the threshold *)

(** X18. For reflectances that are not negative and not both zero, the
    NDVI of a cell lies between -1 and 1 and the EVI strictly between
    -2.4 and 2.4; both images keep the date of the observation. *)
Theorem vegetation_indices_are_bounded :
  forall (img : Image) (p : pixel) (nir red : Q),
    sample "NIR" img p = Some nir ->
    sample "Red" img p = Some red ->
    0 <= nir -> 0 <= red -> 0 < nir + red ->
    exists ndvi evi v w,
      integration.calculate_ndvi img = ok ndvi
      /\ integration.calculate_evi img = ok evi
      /\ time_start ndvi = time_start img
      /\ time_start evi = time_start img
      /\ sample "ndvi" ndvi p = Some v
      /\ sample "evi" evi p = Some w
      /\ -1 <= v <= 1
      /\ -2.4 < w < 2.4.
Proof.
  intros img p nir red Hnir Hred Pn Pr Ps.
  destruct (sample_find _ _ _ _ Hnir) as [nb [En Hnb]].
  destruct (sample_find _ _ _ _ Hred) as [rb [Er Hrb]].
  unfold integration.calculate_ndvi, integration.calculate_evi, band_of.
  rewrite En, Er. cbn [bind ok].
  exists (mkImage [("ndvi", divide (subtract nb rb) (add nb rb))]
                  None (time_start img)).
  eexists.
  exists ((nir - red) / (nir + red)), (2.4 * ((nir - red) / (nir + red + 1))).
  split; [ reflexivity | ]. split; [ reflexivity | ].
  split; [ reflexivity | ]. split; [ reflexivity | ].
  split; [ | split; [ | split ] ].
  - unfold sample. cbn [bands find_band String.eqb Ascii.eqb Bool.eqb].
    unfold divide, subtract, add, lift2. rewrite Hnb, Hrb.
    destruct (Qeq_bool_reflect (nir + red) 0) as [Z0 | _]; [ | reflexivity ].
    exfalso. lra.
  - unfold sample. cbn [bands find_band String.eqb Ascii.eqb Bool.eqb].
    unfold multiply, divide, subtract, add, lift2, constant. rewrite Hnb, Hrb.
    destruct (Qeq_bool_reflect (nir + red + 1) 0) as [Z0 | _]; [ | reflexivity ].
    exfalso. lra.
  - split.
    + apply Qle_shift_div_l; [ exact Ps | lra ].
    + apply Qle_shift_div_r; [ exact Ps | lra ].
  - assert (Pd : 0 < nir + red + 1) by lra.
    assert (B : -1 < (nir - red) / (nir + red + 1) < 1).
    { split.
      - apply Qlt_shift_div_l; [ exact Pd | lra ].
      - apply Qlt_shift_div_r; [ exact Pd | lra ]. }
    lra.
Qed.

(** X20. [vi_threshold] keeps a value above the threshold and turns any
    other value into 0, without masking the cell; it keeps the date of the
    observation, and a second application changes nothing. *)
Theorem vi_threshold_zeroes_low_values :
  forall (img : Image) (threshold : Q) (name : string) (p : pixel) (v : Q),
    sample name img p = Some v ->
    exists w w',
      sample name (integration.vi_threshold img threshold) p = Some w
      /\ (threshold < v -> w == v)
      /\ (v <= threshold -> w == 0)
      /\ time_start (integration.vi_threshold img threshold) = time_start img
      /\ sample name
           (integration.vi_threshold (integration.vi_threshold img threshold)
                                     threshold) p = Some w'
      /\ w' == w.
Proof.
  intros img threshold name p v Hv.
  destruct (sample_find _ _ _ _ Hv) as [b [Eb Hb]].
  set (keep := fun x : Q => x * of_bool (Qlt_bool threshold x)).
  assert (S1 : forall i x, sample name i p = Some x ->
                 sample name (integration.vi_threshold i threshold) p
                 = Some (keep x)).
  { intros i x Hx. destruct (sample_find _ _ _ _ Hx) as [bx [Ebx Hbx]].
    unfold integration.vi_threshold, copyProperties, sample. cbn [bands].
    rewrite find_band_map_bands, Ebx. simpl option_map.
    unfold multiply, gt_c, gt, lift2, constant. now rewrite Hbx. }
  exists (keep v), (keep (keep v)).
  assert (K1 : threshold < v -> keep v == v).
  { intros L. unfold keep, Qlt_bool.
    destruct (Qle_bool_reflect v threshold); [ exfalso; lra | simpl; ring ]. }
  assert (K0 : v <= threshold -> keep v == 0).
  { intros L. unfold keep, Qlt_bool.
    destruct (Qle_bool_reflect v threshold); [ simpl; ring | exfalso; lra ]. }
  split; [ now apply S1 | ]. split; [ exact K1 | ]. split; [ exact K0 | ].
  split; [ reflexivity | ].
  split; [ apply S1; now apply S1 | ].
  unfold keep at 1. unfold Qlt_bool.
  destruct (Qle_bool_reflect (keep v) threshold) as [L | G]; simpl.
  - destruct (Qlt_le_dec threshold v) as [A | B].
    + exfalso. rewrite (K1 A) in L. lra.
    + rewrite (K0 B). ring.
  - ring.
Qed.

(** ** The period and the annual composites *)

Lemma fold_min_spec (l : list Z) (z : Z) :
  (fold_left Z.min l z <= z)%Z
  /\ (forall x, In x l -> (fold_left Z.min l z <= x)%Z)
  /\ (fold_left Z.min l z = z \/ In (fold_left Z.min l z) l).
Proof.
  revert z. induction l as [| a l IH]; intros z; simpl.
  - split; [ lia | ]. split; [ tauto | now left ].
  - destruct (IH (Z.min z a)) as [H1 [H2 H3]].
    split; [ lia | ]. split.
    + intros x [<- | Hx]; [ lia | now apply H2 ].
    + destruct H3 as [E | Hin]; [ | right; now right ].
      rewrite E. destruct (Z.min_spec z a) as [[_ ->] | [_ ->]];
        [ now left | right; now left ].
Qed.

Lemma fold_max_spec (l : list Z) (z : Z) :
  (z <= fold_left Z.max l z)%Z
  /\ (forall x, In x l -> (x <= fold_left Z.max l z)%Z)
  /\ (fold_left Z.max l z = z \/ In (fold_left Z.max l z) l).
Proof.
  revert z. induction l as [| a l IH]; intros z; simpl.
  - split; [ lia | ]. split; [ tauto | now left ].
  - destruct (IH (Z.max z a)) as [H1 [H2 H3]].
    split; [ lia | ]. split.
    + intros x [<- | Hx]; [ lia | now apply H2 ].
    + destruct H3 as [E | Hin]; [ | right; now right ].
      rewrite E. destruct (Z.max_spec z a) as [[_ ->] | [_ ->]];
        [ right; now left | now left ].
Qed.

Lemma In_given (l : list (option Z)) (z : Z) :
  In z (integration.given l) <-> In (Some z) l.
Proof.
  unfold integration.given. rewrite in_flat_map. split.
  - intros [[x |] [Hin Hz]]; [ | destruct Hz ].
    destruct Hz as [<- | []]. exact Hin.
  - intros H. exists (Some z). split; [ exact H | now left ].
Qed.

(** X21. The period of the integration starts at the least of the starts
    that are given and ends at the greatest of the ends that are given: it
    is one of them and it covers all of them; starts and ends that are not
    given (None) do not count, and with none given there is no period. *)
Theorem integration_period_covers_every_window :
  forall start_list end_list : list (option Z),
    (forall s, integration.period_start start_list = Some s ->
       In (Some s) start_list
       /\ forall z, In (Some z) start_list -> (s <= z)%Z)
    /\ (forall e, integration.period_end end_list = Some e ->
          In (Some e) end_list
          /\ forall z, In (Some z) end_list -> (z <= e)%Z)
    /\ (integration.period_start start_list = None
        <-> forall z, ~ In (Some z) start_list)
    /\ (integration.period_end end_list = None
        <-> forall z, ~ In (Some z) end_list).
Proof.
  intros start_list end_list.
  unfold integration.period_start, integration.period_end,
    integration.min_of, integration.max_of.
  split; [ | split; [ | split ] ].
  - intros s H.
    destruct (integration.given start_list) as [| z l] eqn:G; [ discriminate | ].
    inversion H as [Hs]. destruct (fold_min_spec l z) as [H1 [H2 H3]].
    assert (Hin : forall x, In x (z :: l) <-> In (Some x) start_list)
      by (intros x; rewrite <- G; apply In_given).
    split.
    + apply Hin. destruct H3 as [-> | H3]; [ now left | now right ].
    + intros x Hx. apply Hin in Hx. destruct Hx as [<- | Hx];
        [ exact H1 | now apply H2 ].
  - intros e H.
    destruct (integration.given end_list) as [| z l] eqn:G; [ discriminate | ].
    inversion H as [He]. destruct (fold_max_spec l z) as [H1 [H2 H3]].
    assert (Hin : forall x, In x (z :: l) <-> In (Some x) end_list)
      by (intros x; rewrite <- G; apply In_given).
    split.
    + apply Hin. destruct H3 as [-> | H3]; [ now left | now right ].
    + intros x Hx. apply Hin in Hx. destruct Hx as [<- | Hx];
        [ exact H1 | now apply H2 ].
  - destruct (integration.given start_list) as [| z l] eqn:G; split.
    + intros _ x Hx. apply In_given in Hx. now rewrite G in Hx.
    + reflexivity.
    + discriminate.
    + intros H. exfalso. apply (H z). apply In_given. rewrite G. now left.
  - destruct (integration.given end_list) as [| z l] eqn:G; split.
    + intros _ x Hx. apply In_given in Hx. now rewrite G in Hx.
    + reflexivity.
    + discriminate.
    + intros H. exfalso. apply (H z). apply In_given. rewrite G. now left.
Qed.

Lemma Qmean_one (v : Q) : Qmean [v] == v.
Proof. unfold Qmean, Qsum. simpl. field. Qed.

(** X22. With observations of one band in every year of the range, a
    year with exactly one observation gets the value of that observation,
    cell by cell, from each of the three annual integrators: cast to a
    32-bit float by [int_yearly_ndvi], as it is by the two others; where
    the observation is masked, so is the composite. *)
Theorem one_observation_a_year_is_kept :
  forall (collection : ImageCollection) (band : string) (start end_ y : Z)
         (observed : Image) (p : pixel),
    (start <= y <= end_)%Z ->
    one_band band collection ->
    (forall y', (start <= y' <= end_)%Z ->
                filter (in_year y') collection <> []) ->
    filter (in_year y) collection = [observed] ->
    exists ndvi modis clim a b c,
      integration.int_yearly_ndvi collection start end_ = ok ndvi
      /\ integration.annual_modis_vi collection start end_ = ok modis
      /\ integration.int_yearly_climate collection start end_ = ok clim
      /\ filter (has_year y) ndvi = [a]
      /\ filter (has_year y) modis = [b]
      /\ filter (has_year y) clim = [c]
      /\ match the_band observed p with
         | Some v =>
             sample "vi" a p = Some (float32 v)
             /\ exists vb vc,
                  sample "vi" b p = Some vb /\ vb == v
                  /\ sample "clim" c p = Some vc /\ vc == v
         | None =>
             sample "vi" a p = None /\ sample "vi" b p = None
             /\ sample "clim" c p = None
         end.
Proof.
  intros collection band start end_ y observed p Hy Hband Hall Hone.
  assert (Hin : In observed (filter (in_year y) collection))
    by (rewrite Hone; now left).
  apply filter_In in Hin. destruct Hin as [Hin Hdate].
  pose proof (Hband observed Hin) as Hname.
  unfold in_year in Hdate.
  destruct (time_start observed) as [d |] eqn:Ed; [ | discriminate ].
  assert (Hmonth : filter (in_month (d_month d)) [observed] = [observed]).
  { simpl. unfold in_month. now rewrite Ed, Z.eqb_refl. }
  (* the three series *)
  destruct (yearly_series (integration.daily_to_monthly_to_annual collection)
              ["vi"] collection start end_
              (daily_to_monthly_to_annual_ok collection)
              (daily_to_monthly_to_annual_raises collection)
              (fun y => proj1 (daily_to_monthly_to_annual_cases
                                 collection band y))) as [Vok _].
  destruct (Vok (fun y => proj2 (daily_to_monthly_to_annual_cases
                                   collection band y) Hband) Hall)
    as [ndvi [En _]].
  destruct (yearly_series (modis_of_year collection)
              ["vi"; "year"] collection start end_
              (modis_of_year_ok collection)
              (modis_of_year_raises collection)
              (fun y => proj1 (modis_of_year_cases collection band y)))
    as [Mok _].
  destruct (Mok (fun y => proj2 (modis_of_year_cases collection band y) Hband)
                Hall) as [modis [Em _]].
  destruct (yearly_series (climate_of_year collection)
              ["clim"; "year"] collection start end_
              (climate_of_year_ok collection)
              (climate_of_year_raises collection)
              (fun y => proj1 (climate_of_year_cases collection band y)))
    as [Cok _].
  destruct (Cok (fun y => proj2 (climate_of_year_cases collection band y) Hband)
                Hall) as [clim [Ec _]].
  (* the rasters of the year *)
  destruct (per_year_single (integration.daily_to_monthly_to_annual collection)
              (fun y img E => proj2 (daily_to_monthly_to_annual_ok _ y img E))
              start end_ y ndvi En Hy) as [a [Ea Fa]].
  destruct (per_year_single (modis_of_year collection)
              (fun y img E => proj2 (modis_of_year_ok _ y img E))
              start end_ y modis Em Hy) as [b [Eb Fb]].
  destruct (per_year_single (climate_of_year collection)
              (fun y img E => proj2 (climate_of_year_ok _ y img E))
              start end_ y clim Ec Hy) as [c [Ecl Fc]].
  exists ndvi, modis, clim, a, b, c.
  split; [ exact En | ]. split; [ exact Em | ]. split; [ exact Ec | ].
  split; [ exact Fa | ]. split; [ exact Fb | ]. split; [ exact Fc | ].
  (* their values *)
  assert (Ha : sample "vi" a p
               = option_map float32
                   (mean_at p [fun p' => mean_at p' [the_band observed]])).
  { unfold integration.daily_to_monthly_to_annual in Ea.
    rewrite Hone in Ea. unfold aggregate_array_time_start in Ea.
    cbn [flat_map] in Ea. rewrite Ed in Ea.
    change (map d_month ([d] ++ [])) with [d_month d] in Ea.
    cbn [map] in Ea. rewrite Hmonth in Ea.
    rewrite (reduce_mean_one_band observed [] band Hname) in Ea.
    inversion Ea. reflexivity. }
  assert (Hb : sample "vi" b p = mean_at p [the_band observed]).
  { unfold modis_of_year in Eb. rewrite Hone in Eb.
    rewrite (reduce_mean_one_band observed [] band Hname) in Eb.
    inversion Eb. reflexivity. }
  assert (Hc : sample "clim" c p = mean_at p [the_band observed]).
  { unfold climate_of_year in Ecl. rewrite Hone in Ecl.
    rewrite (reduce_mean_one_band observed [] band Hname) in Ecl.
    inversion Ecl. reflexivity. }
  rewrite Ha, Hb, Hc. unfold mean_at, values_at. cbn [flat_map].
  destruct (the_band observed p) as [v |]; cbn.
  - split.
    + f_equal. apply float32_comp. rewrite !Qmean_one. reflexivity.
    + exists (Qmean [v]), (Qmean [v]).
      repeat split; try reflexivity; apply Qmean_one.
  - repeat split; reflexivity.
Qed.

Lemma one_band_image (img : Image) (band : string) :
  bandNames img = [band] -> exists b, bands img = [(band, b)].
Proof.
  unfold bandNames. destruct (bands img) as [| [n b] [| nb l]]; simpl;
    intros H; try discriminate.
  inversion H. subst. now exists b.
Qed.

(** X23. [preproc_modis_npp] takes the first image of each year: with
    images of one band and one of them in every year of the range it
    returns one raster a year, tagged with its year; a single year
    without image makes the whole series fail. *)
Theorem preproc_modis_npp_needs_every_year :
  forall (npp_coll : ImageCollection) (band : string) (start end_ : Z),
    one_band band npp_coll ->
    ((forall y, (start <= y <= end_)%Z -> filter (in_year y) npp_coll <> []) ->
     exists series,
       integration.preproc_modis_npp npp_coll start end_ = ok series
       /\ map year series = map Some (sequence start end_))
    /\ ((exists y, (start <= y <= end_)%Z /\ filter (in_year y) npp_coll = []) ->
        integration.preproc_modis_npp npp_coll start end_ = raise no_first_image).
Proof.
  intros npp_coll band start end_ Hband.
  unfold integration.preproc_modis_npp.
  match goal with
  | |- (_ -> exists s, mapM ?f ?l = ok s /\ _) /\ _ => set (per_year := f)
  end.
  assert (Hcases : forall y,
            (filter (in_year y) npp_coll = [] -> per_year y = raise no_first_image)
            /\ (filter (in_year y) npp_coll <> [] ->
                exists img, per_year y = ok img /\ year img = Some y)).
  { intros y. unfold per_year. split.
    - intros E. now rewrite E.
    - intros N.
      destruct (filter (in_year y) npp_coll) as [| img l] eqn:E; [ congruence | ].
      assert (Hin : In img (filter (in_year y) npp_coll)) by (rewrite E; now left).
      apply filter_In in Hin. destruct Hin as [Hin _].
      destruct (one_band_image img band (Hband img Hin)) as [b Hb].
      unfold first. cbn [bind ok]. unfold rename at 1, map_bands at 1.
      cbn [bands]. rewrite Hb. cbn.
      eexists. split; reflexivity. }
  split.
  - intros Hall.
    destruct (mapM_ok per_year (sequence start end_)) as [series E].
    { intros y Hy. apply In_sequence in Hy.
      destruct (proj2 (Hcases y) (Hall y Hy)) as [img [Ei _]]. now exists img. }
    exists series. split; [ exact E | ].
    apply (per_year_tags per_year); [ | exact E ].
    intros y img Ei.
    destruct (empty_or_not (filter (in_year y) npp_coll)) as [G | N].
    + rewrite (proj1 (Hcases y) G) in Ei. discriminate.
    + destruct (proj2 (Hcases y) N) as [img' [Ei' Hy]].
      rewrite Ei in Ei'. inversion Ei'. now subst.
  - intros [y [Hy Hgap]]. apply mapM_raise_one.
    + exists y. split; [ now apply In_sequence | ]. now apply Hcases.
    + intros y' _.
      destruct (empty_or_not (filter (in_year y') npp_coll)) as [G | N].
      * left. now apply Hcases.
      * right. destruct (proj2 (Hcases y') N) as [img [Ei _]]. now exists img.
Qed.

(** ** The significance classes of the trend *)

(** X24. Where slope and Mann-Kendall trend are both defined, the
    significance class is 0 when the slope is within 10 of zero or the
    trend is not above the 90 percent coefficient (also when it equals
    it); otherwise it is the level 1, 2 or 3 of the highest coefficient
    the trend reaches, with the sign of the slope.  The initial -32768
    survives at no such cell. *)
Theorem significance_class_of_the_trend :
  forall (scale mk_trend : band) (kendall90 kendall95 kendall99 : Q)
         (p : pixel) (s m : Q),
    scale p = Some s ->
    mk_trend p = Some m ->
    let signif :=
      run.signif_classes scale mk_trend kendall90 kendall95 kendall99 p in
    let level : Q :=
      if Qle_bool kendall99 (Qabs m) then 3
      else if Qle_bool kendall95 (Qabs m) then 2 else 1 in
    (Qabs s <= 10 \/ Qabs m <= kendall90 -> signif = Some 0)
    /\ (10 < Qabs s -> kendall90 < Qabs m ->
        (0 < s -> signif = Some level)
        /\ (s < 0 -> signif = Some (- level))).
Proof.
  intros scale mk_trend k90 k95 k99 p s m Hs Hm signif level.
  subst signif level.
  unfold run.signif_classes, where', where_, And, lt_c, gt_c, lte_c, gte_c,
    lt, gt, lte, gte, abs, lift1, lift2, constant, Qlt_bool.
  rewrite Hs, Hm.
  cbn -[Qabs Qle_bool Qeq_bool].
  rewrite ?nonzero_of_bool.
  split.
  - intros [H | H]; apply Qle_bool_iff in H; rewrite H;
      repeat match goal with
        | |- context [Qle_bool ?a ?b] => destruct (Qle_bool a b); simpl
        end; reflexivity.
  - intros H10 H90.
    assert (E10 : Qle_bool (Qabs s) 10 = false).
    { destruct (Qle_bool_reflect (Qabs s) 10); [ exfalso; lra | reflexivity ]. }
    assert (E90 : Qle_bool (Qabs m) k90 = false).
    { destruct (Qle_bool_reflect (Qabs m) k90); [ exfalso; lra | reflexivity ]. }
    assert (G90 : Qle_bool k90 (Qabs m) = true)
      by (apply Qle_bool_iff; lra).
    rewrite E10, E90, G90.
    split; intros Hsign.
    + assert (P : Qle_bool s 0 = false).
      { destruct (Qle_bool_reflect s 0); [ exfalso; lra | reflexivity ]. }
      assert (N : Qle_bool 0 s = true) by (apply Qle_bool_iff; lra).
      rewrite P, N.
      destruct (Qle_bool k99 (Qabs m)), (Qle_bool k95 (Qabs m)); reflexivity.
    + assert (P : Qle_bool s 0 = true) by (apply Qle_bool_iff; lra).
      assert (N : Qle_bool 0 s = false).
      { destruct (Qle_bool_reflect 0 s); [ exfalso; lra | reflexivity ]. }
      rewrite P, N.
      destruct (Qle_bool k99 (Qabs m)), (Qle_bool k95 (Qabs m)); reflexivity.
Qed.

(** ** The loop over the years of the soil organic carbon model *)

Lemma where_kept (input test value : band) (p : pixel) (i t : Q) :
  input p = Some i -> test p = Some t -> nonzero t = false ->
  where_ input test value p = Some i.
Proof.
  intros Hi Ht Hz. unfold where_. rewrite Hi, Ht, Hz.
  now destruct (value p).
Qed.

Lemma where_taken (input test value : band) (p : pixel) (i t v : Q) :
  input p = Some i -> test p = Some t -> nonzero t = true ->
  value p = Some v ->
  where_ input test value p = Some v.
Proof.
  intros Hi Ht Hz Hv. unfold where_. now rewrite Hi, Ht, Hz, Hv.
Qed.

Lemma neq_at (x y : band) (p : pixel) (a b : Q) :
  x p = Some a -> y p = Some b ->
  neq x y p = Some (of_bool (negb (Qeq_bool a b))).
Proof. intros Hx Hy. unfold neq, lift2. now rewrite Hx, Hy. Qed.

Lemma eq_at (x y : band) (p : pixel) (a b : Q) :
  x p = Some a -> y p = Some b ->
  eq x y p = Some (of_bool (Qeq_bool a b)).
Proof. intros Hx Hy. unfold eq, lift2. now rewrite Hx, Hy. Qed.

Lemma gt_c_at (x : band) (k : Q) (p : pixel) (a : Q) :
  x p = Some a -> gt_c k x p = Some (of_bool (Qlt_bool k a)).
Proof. intros Hx. unfold gt_c, gt, lift2, constant. now rewrite Hx. Qed.

Section SocLoop.

Variable IPCC_lc_change_matrix : list Q.
Variable c_conversion_factor management_factor input_factor : list Q.

(** X25. In a turn of the loop, at a cell whose land cover does not
    change, the years since the transition go up by one and the yearly
    change of the stock stays what it was, until more than 20 years have
    passed: from then on the yearly change is 0 and the stock stays.  At a
    cell whose land cover changes the count starts again at 1 and the
    yearly change is a twentieth of what the three factors of the new
    transition take from the stock of the year. *)
Theorem soc_change_runs_for_twenty_years :
  forall (climate_conversion_coef lc_time0 lc_time1 soc_year : band)
         (year_index : Z) (st : soil_organic_carbon.State)
         (p : pixel) (a b t c s : Q),
    select_index year_index (soil_organic_carbon.soc_images st) = ok soc_year ->
    lc_time0 p = Some a ->
    lc_time1 p = Some b ->
    soil_organic_carbon.lc_transition_time st p = Some t ->
    soil_organic_carbon.organic_carbon_change st p = Some c ->
    soc_year p = Some s ->
    exists (st' : soil_organic_carbon.State) (soc_final : band),
      soil_organic_carbon.step IPCC_lc_change_matrix c_conversion_factor
        management_factor input_factor climate_conversion_coef year_index
        lc_time0 lc_time1 st = ok st'
      /\ soil_organic_carbon.soc_images st'
         = soil_organic_carbon.soc_images st ++ [soc_final]
      /\ (a == b ->
          soil_organic_carbon.lc_transition_time st' p = Some (t + 1)
          /\ (t + 1 <= 20 ->
              soil_organic_carbon.organic_carbon_change st' p = Some c
              /\ soc_final p = Some (s - c))
          /\ (20 < t + 1 ->
              soil_organic_carbon.organic_carbon_change st' p = Some 0
              /\ soc_final p = Some (s - 0)))
      /\ (~ a == b ->
          soil_organic_carbon.lc_transition_time st' p = Some 1
          /\ forall f_climate f_management f_input : Q,
               soil_organic_carbon.climate_coef IPCC_lc_change_matrix
                 c_conversion_factor climate_conversion_coef
                 (soil_organic_carbon.lc_transition st') p = Some f_climate ->
               remap IPCC_lc_change_matrix management_factor
                 (soil_organic_carbon.lc_transition st') p = Some f_management ->
               remap IPCC_lc_change_matrix input_factor
                 (soil_organic_carbon.lc_transition st') p = Some f_input ->
               soil_organic_carbon.organic_carbon_change st' p
               = Some ((s - s * f_climate * f_management * f_input) / 20)
               /\ soc_final p
                  = Some (s - (s - s * f_climate * f_management * f_input) / 20)).
Proof.
  intros coef lc_time0 lc_time1 soc_year year_index st p a b t c s
    Hsel Ha Hb Ht Hc Hs.
  destruct st as [tr tm oc lci si].
  cbv beta iota delta [soil_organic_carbon.soc_images
    soil_organic_carbon.lc_transition_time
    soil_organic_carbon.organic_carbon_change] in Hsel, Ht, Hc.
  unfold soil_organic_carbon.step.
  cbv beta iota delta [soil_organic_carbon.soc_images
    soil_organic_carbon.lc_transition_time
    soil_organic_carbon.organic_carbon_change
    soil_organic_carbon.lc_transition].
  rewrite Hsel. cbv beta iota delta [bind ok].
  eexists. eexists. split; [ reflexivity | ].
  cbv beta iota delta [soil_organic_carbon.soc_images
    soil_organic_carbon.lc_transition_time
    soil_organic_carbon.organic_carbon_change
    soil_organic_carbon.lc_transition].
  split; [ reflexivity | ].
  pose proof (neq_at _ _ p _ _ Ha Hb) as Hneq.
  pose proof (eq_at _ _ p _ _ Ha Hb) as Heq.
  unfold where_b, where'.
  split.
  - intros Hab. apply Qeq_bool_iff in Hab. rewrite Hab in Hneq, Heq.
    simpl in Hneq, Heq.
    assert (Htime :
      where_ (where_ tm (eq lc_time0 lc_time1) (add tm (constant 1)))
             (neq lc_time0 lc_time1) (constant 1) p = Some (t + 1)).
    { apply where_kept with (t := 0); [ | exact Hneq | reflexivity ].
      apply where_taken with (i := t) (t := 1);
        [ exact Ht | exact Heq | reflexivity | ].
      unfold add, lift2, constant. now rewrite Ht. }
    split; [ exact Htime | ].
    pose proof (gt_c_at _ 20 p _ Htime) as Hgt.
    split; intros H20.
    + assert (Hocc : forall X,
        where_ (where_ oc (neq lc_time0 lc_time1) X)
          (gt_c 20
             (where_ (where_ tm (eq lc_time0 lc_time1) (add tm (constant 1)))
                (neq lc_time0 lc_time1) (constant 1)))
          (constant 0) p = Some c).
      { intros X. apply where_kept with (t := 0).
        - apply where_kept with (t := 0); [ exact Hc | exact Hneq | reflexivity ].
        - rewrite Hgt. unfold Qlt_bool.
          apply Qle_bool_iff in H20. now rewrite H20.
        - reflexivity. }
      split; [ apply Hocc | ].
      unfold subtract, lift2. now rewrite Hs, Hocc.
    + assert (Hocc : forall X,
        where_ (where_ oc (neq lc_time0 lc_time1) X)
          (gt_c 20
             (where_ (where_ tm (eq lc_time0 lc_time1) (add tm (constant 1)))
                (neq lc_time0 lc_time1) (constant 1)))
          (constant 0) p = Some 0).
      { intros X. apply where_taken with (i := c) (t := 1).
        - apply where_kept with (t := 0); [ exact Hc | exact Hneq | reflexivity ].
        - rewrite Hgt. unfold Qlt_bool.
          destruct (Qle_bool_reflect (t + 1) 20); [ exfalso; lra | reflexivity ].
        - reflexivity.
        - reflexivity. }
      split; [ apply Hocc | ].
      unfold subtract, lift2. now rewrite Hs, Hocc.
  - intros Hab.
    assert (Eab : Qeq_bool a b = false).
    { destruct (Qeq_bool_reflect a b); [ contradiction | reflexivity ]. }
    rewrite Eab in Hneq, Heq. simpl in Hneq, Heq.
    assert (Htime :
      where_ (where_ tm (eq lc_time0 lc_time1) (add tm (constant 1)))
             (neq lc_time0 lc_time1) (constant 1) p = Some 1).
    { apply where_taken with (i := t) (t := 1);
        [ | exact Hneq | reflexivity | reflexivity ].
      apply where_kept with (t := 0); [ exact Ht | exact Heq | reflexivity ]. }
    split; [ exact Htime | ].
    intros fc fm fi Hfc Hfm Hfi.
    pose proof (gt_c_at _ 20 p _ Htime) as Hgt.
    match goal with
    | |- where_ (where_ oc _ ?X) _ _ p = _ /\ _ =>
        assert (HX : X p = Some ((s - s * fc * fm * fi) / 20))
    end.
    { unfold divide_c, divide, subtract, multiply, lift2, constant.
      rewrite Hs, Hfc, Hfm, Hfi. reflexivity. }
    match goal with
    | |- ?lhs = _ /\ _ =>
        assert (Hocc : lhs = Some ((s - s * fc * fm * fi) / 20))
    end.
    { apply where_kept with (t := 0).
      - apply where_taken with (i := c) (t := 1);
          [ exact Hc | exact Hneq | reflexivity | exact HX ].
      - rewrite Hgt. reflexivity.
      - reflexivity. }
    split; [ exact Hocc | ].
    unfold subtract at 1, lift2 at 1. now rewrite Hs, Hocc.
Qed.

End SocLoop.

(** ** The run of the soil organic carbon model *)

Lemma sequence_cons (a b : Z) :
  (a <= b)%Z -> sequence a b = a :: sequence (a + 1) b.
Proof.
  intros H. unfold sequence.
  replace (Z.to_nat (b - a + 1)) with (S (Z.to_nat (b - (a + 1) + 1))) by lia.
  simpl. f_equal; [ f_equal; lia | ].
  rewrite <- seq_shift, map_map. apply map_ext. intros i. lia.
Qed.

Lemma sequence_nil (a b : Z) : (b < a)%Z -> sequence a b = [].
Proof.
  intros H. unfold sequence.
  now replace (Z.to_nat (b - a + 1)) with 0%nat by lia.
Qed.

Lemma select_index_in_range (bs : list band) (i : Z) :
  (0 <= i < Z.of_nat (List.length bs))%Z ->
  exists b, select_index i bs = ok b.
Proof.
  intros H. unfold select_index.
  destruct (Z.ltb_spec i 0) as [N | _]; [ lia | ].
  destruct (nth_error bs (Z.to_nat i)) as [b |] eqn:E.
  - now exists b.
  - apply nth_error_None in E. lia.
Qed.

Lemma in_years_one (y : Z) (img : Image) :
  in_years y y img = true <->
  exists d, time_start img = Some d /\ d_year d = y.
Proof.
  unfold in_years. destruct (time_start img) as [d |].
  - rewrite Z.ltb_irrefl, andb_true_iff, !Z.leb_le. split.
    + intros H. exists d. split; [ reflexivity | lia ].
    + intros [d' [E H]]. inversion E; subst d'. lia.
  - split; [ discriminate | intros [d [E _]]; discriminate ].
Qed.

Lemma in_years_of_one (a b y : Z) (img : Image) :
  (a <= y <= b)%Z -> in_years y y img = true -> in_years a b img = true.
Proof.
  intros Hy H. apply in_years_one in H. destruct H as [d [E Hd]].
  unfold in_years. rewrite E.
  destruct (Z.ltb_spec b a) as [N | _]; [ lia | ].
  apply andb_true_iff. rewrite !Z.leb_le. lia.
Qed.

Lemma filter_nil_iff {A} (f : A -> bool) (l : list A) :
  filter f l = [] <-> forall x, In x l -> f x = false.
Proof.
  induction l as [| a l IH]; simpl.
  - split; [ intros _ x [] | reflexivity ].
  - destruct (f a) eqn:E; split.
    + discriminate.
    + intros H. specialize (H a (or_introl Logic.eq_refl)). congruence.
    + intros H x [<- | Hx]; [ exact E | now apply IH ].
    + intros H. apply IH. intros x Hx. apply H. now right.
Qed.

Section SocRun.

Variable soc_raster : band.
Variable land_cover_ic : ImageCollection.
Variable land_cover_first_year land_cover_max_year : Z.
Variable ipcc_climate_zones : band.
Variable climate_conversion_matrix : list Q * list Q.
Variable translation_matrix : list Q * list Q.
Variable IPCC_lc_change_matrix : list Q.
Variable c_conversion_factor management_factor input_factor : list Q.
Variable in_bounds : pixel -> bool.

Lemma lc_of_year_cases (a b y : Z) :
  let landcover := filter (in_years a b) land_cover_ic in
  let lc := soil_organic_carbon.lc_of_year translation_matrix landcover y in
  ((a <= y <= b)%Z -> covers land_cover_ic y -> exists lc_time, lc = ok lc_time)
  /\ (~ covers land_cover_ic y -> lc = raise no_first_image)
  /\ ((a <= b < y)%Z -> lc = raise no_first_image)
  /\ (lc = raise no_first_image \/ exists lc_time, lc = ok lc_time).
Proof.
  intros landcover lc. subst lc. unfold soil_organic_carbon.lc_of_year.
  split; [ | split; [ | split ] ].
  - intros Hy [img [Hin Himg]].
    destruct (filter (in_years y y) landcover) as [| i l] eqn:E.
    + exfalso. rewrite filter_nil_iff in E.
      specialize (E img). rewrite Himg in E.
      assert (F : true = false); [ | discriminate ].
      apply E. apply filter_In. split; [ exact Hin | ].
      now apply in_years_of_one with (y := y).
    + eexists. reflexivity.
  - intros Hno.
    replace (filter (in_years y y) landcover) with (@nil Image);
      [ reflexivity | ].
    symmetry. apply filter_nil_iff. intros img Hin.
    apply filter_In in Hin. destruct Hin as [Hin _].
    destruct (in_years y y img) eqn:E; [ | reflexivity ].
    exfalso. apply Hno. now exists img.
  - intros Hy.
    replace (filter (in_years y y) landcover) with (@nil Image);
      [ reflexivity | ].
    symmetry. apply filter_nil_iff. intros img Hin.
    apply filter_In in Hin. destruct Hin as [_ Hab].
    destruct (in_years y y img) eqn:E; [ | reflexivity ].
    exfalso. apply in_years_one in E. destruct E as [d [E Hd]].
    unfold in_years in Hab. rewrite E in Hab.
    destruct (Z.ltb_spec b a) as [N | _]; [ lia | ].
    apply andb_true_iff in Hab. rewrite !Z.leb_le in Hab. lia.
  - destruct (filter (in_years y y) landcover) as [| i l].
    + now left.
    + right. eexists. reflexivity.
Qed.

Lemma loop_raised (landcover : ImageCollection) (coef : band) (start : Z)
  (years : list Z) (e : exn) :
  fold_left
    (fun acc year =>
       st <- acc ;;
       lc_time0 <-
         soil_organic_carbon.lc_of_year translation_matrix landcover year ;;
       lc_time1 <-
         soil_organic_carbon.lc_of_year translation_matrix landcover
           (year + 1) ;;
       soil_organic_carbon.step IPCC_lc_change_matrix c_conversion_factor
         management_factor input_factor coef (year - start)
         lc_time0 lc_time1 st)
    years (raise e) = raise e.
Proof.
  induction years as [| y years IH]; [ reflexivity | exact IH ].
Qed.

Lemma loop_cons (landcover : ImageCollection) (coef : band) (start y : Z)
  (years : list Z) (st : soil_organic_carbon.State) :
  soil_organic_carbon.loop translation_matrix IPCC_lc_change_matrix
    c_conversion_factor management_factor input_factor
    landcover coef start (y :: years) st
  = match
      (lc_time0 <-
         soil_organic_carbon.lc_of_year translation_matrix landcover y ;;
       lc_time1 <-
         soil_organic_carbon.lc_of_year translation_matrix landcover (y + 1) ;;
       soil_organic_carbon.step IPCC_lc_change_matrix c_conversion_factor
         management_factor input_factor coef (y - start) lc_time0 lc_time1 st)
    with
    | inl e => raise e
    | inr st' =>
        soil_organic_carbon.loop translation_matrix IPCC_lc_change_matrix
          c_conversion_factor management_factor input_factor
          landcover coef start years st'
    end.
Proof.
  unfold soil_organic_carbon.loop. simpl fold_left.
  match goal with
  | |- fold_left _ _ ?m = _ => destruct m as [e | st']
  end.
  - apply loop_raised.
  - reflexivity.
Qed.

(** The loop over the years [a], ..., [a + n - 1], entered with a stock
    for each of the years up to [a]. *)
Lemma loop_runs (coef : band) (start lc_year_end : Z) (n : nat) :
  let landcover := filter (in_years start lc_year_end) land_cover_ic in
  forall (a : Z) (st : soil_organic_carbon.State),
    (start < a)%Z ->
    (a + Z.of_nat n = lc_year_end)%Z ->
    List.length (soil_organic_carbon.soc_images st)
    = Z.to_nat (a - start + 1) ->
    let run :=
      soil_organic_carbon.loop translation_matrix IPCC_lc_change_matrix
        c_conversion_factor management_factor input_factor
        landcover coef start (sequence a (lc_year_end - 1)) st in
    ((forall y, (a <= y <= lc_year_end)%Z -> covers land_cover_ic y) ->
     exists st',
       run = ok st'
       /\ List.length (soil_organic_carbon.soc_images st')
          = Z.to_nat (lc_year_end - start + 1))
    /\ ((exists y, (a < y <= lc_year_end)%Z /\ ~ covers land_cover_ic y) ->
        covers land_cover_ic a ->
        run = raise no_first_image).
Proof.
  intros landcover. induction n as [| n IH]; intros a st Ha Hn Hlen run;
    subst run.
  - split.
    + intros _. rewrite sequence_nil by lia. exists st. split; [ reflexivity | ].
      rewrite Hlen. f_equal. lia.
    + intros [y [Hy _]]. lia.
  - assert (Hseq : sequence a (lc_year_end - 1)
                   = a :: sequence (a + 1) (lc_year_end - 1))
      by (apply sequence_cons; lia).
    rewrite Hseq, loop_cons.
    destruct (select_index_in_range (soil_organic_carbon.soc_images st)
                (a - start)) as [soc_year Hsel]; [ rewrite Hlen; lia | ].
    assert (Hstep : forall lc0 lc1, exists st',
      soil_organic_carbon.step IPCC_lc_change_matrix c_conversion_factor
        management_factor input_factor coef (a - start) lc0 lc1 st = ok st'
      /\ List.length (soil_organic_carbon.soc_images st')
         = Z.to_nat (a + 1 - start + 1)).
    { intros lc0 lc1. unfold soil_organic_carbon.step. rewrite Hsel.
      eexists. split; [ reflexivity | ].
      cbv beta iota delta [soil_organic_carbon.soc_images].
      rewrite length_app. simpl.
      change (List.length (soil_organic_carbon.soc_images st) + 1
              = Z.to_nat (a + 1 - start + 1))%nat.
      rewrite Hlen. lia. }
    destruct (lc_of_year_cases start lc_year_end a) as [Ca [Na [_ Da]]].
    destruct (lc_of_year_cases start lc_year_end (a + 1)) as [Cb [Nb [_ Db]]].
    fold landcover in Ca, Na, Da, Cb, Nb, Db.
    split.
    + intros Hcov.
      destruct Ca as [lc0 E0]; [ lia | apply Hcov; lia | ].
      destruct Cb as [lc1 E1]; [ lia | apply Hcov; lia | ].
      rewrite E0, E1. cbv beta iota delta [bind ok].
      destruct (Hstep lc0 lc1) as [st' [Est Hlen']]. rewrite Est.
      apply (IH (a + 1)%Z st'); [ lia | lia | exact Hlen' | ].
      intros y Hy. apply Hcov. lia.
    + intros [y [Hy Hgap]] Hcova.
      destruct Ca as [lc0 E0]; [ lia | exact Hcova | ].
      rewrite E0. cbv beta iota delta [bind ok].
      destruct Db as [E1 | [lc1 E1]]; rewrite E1; [ reflexivity | ].
      cbv beta iota delta [bind ok].
      destruct (Hstep lc0 lc1) as [st' [Est Hlen']]. rewrite Est.
      assert (Hcovb : covers land_cover_ic (a + 1)).
      { destruct (Z.eq_dec y (a + 1)) as [-> | Hne].
        - exfalso. rewrite (Nb Hgap) in E1. discriminate.
        - unfold soil_organic_carbon.lc_of_year in E1.
          destruct (filter (in_years (a + 1) (a + 1)) landcover)
            as [| img l] eqn:F; [ discriminate | ].
          exists img.
          assert (Hin : In img (filter (in_years (a + 1) (a + 1)) landcover))
            by (rewrite F; now left).
          apply filter_In in Hin. destruct Hin as [Hin Himg].
          apply filter_In in Hin. destruct Hin as [Hin _]. now split. }
      apply (IH (a + 1)%Z st'); [ lia | lia | exact Hlen' | | exact Hcovb ].
      exists y. split; [ | exact Hgap ].
      destruct (Z.eq_dec y (a + 1)) as [-> | Hne]; [ | lia ].
      contradiction.
Qed.

(** X26. The model returns a class raster, with the single band [soc],
    whenever the period has at least two years and the land cover has an
    image for each of its years; a year of the period without land cover
    makes it fail, and so does a period of a single year, whose second
    land cover is never there. *)
Theorem soil_organic_carbon_needs_land_cover_every_year :
  forall model : Model,
    let lc_year_end :=
      Z.min (Z.max (p_soc_t_end model) land_cover_first_year)
            land_cover_max_year in
    let run :=
      soil_organic_carbon.soil_organic_carbon soc_raster land_cover_ic
        land_cover_first_year land_cover_max_year ipcc_climate_zones
        climate_conversion_matrix translation_matrix IPCC_lc_change_matrix
        c_conversion_factor management_factor input_factor in_bounds model in
    ((p_soc_t_start model < lc_year_end)%Z ->
     (forall y, (p_soc_t_start model <= y <= lc_year_end)%Z ->
                covers land_cover_ic y) ->
     exists img, run = ok img /\ bandNames img = ["soc"])
    /\ ((p_soc_t_start model < lc_year_end)%Z ->
        (exists y, (p_soc_t_start model <= y <= lc_year_end)%Z
                   /\ ~ covers land_cover_ic y) ->
        run = raise no_first_image)
    /\ (p_soc_t_start model = lc_year_end -> run = raise no_first_image).
Proof.
  intros model lc_year_end run. subst run.
  unfold soil_organic_carbon.soil_organic_carbon,
    soil_organic_carbon.transitions.
  fold lc_year_end.
  set (start := p_soc_t_start model).
  set (landcover := filter (in_years start lc_year_end) land_cover_ic).
  match goal with
  | |- context [soil_organic_carbon.loop _ _ _ _ _ landcover ?c _ _ _] =>
      set (coef := c)
  end.
  match goal with
  | |- context [soil_organic_carbon.first_pair _ _ _ _ ?s coef] =>
      set (soc := s)
  end.
  destruct (lc_of_year_cases start lc_year_end start) as [C0 [N0 [_ D0]]].
  destruct (lc_of_year_cases start lc_year_end (start + 1)) as [C1 [N1 [L1 D1]]].
  fold landcover in C0, N0, D0, C1, N1, L1, D1.
  unfold soil_organic_carbon.range.
  split; [ | split ].
  - intros Hlt Hcov.
    destruct C0 as [lc0 E0]; [ lia | apply Hcov; lia | ].
    destruct C1 as [lc1 E1]; [ lia | apply Hcov; lia | ].
    rewrite E0, E1. cbv beta iota delta [bind ok].
    destruct (loop_runs coef start lc_year_end
                (Z.to_nat (lc_year_end - (start + 1))) (start + 1)%Z
                (soil_organic_carbon.first_pair IPCC_lc_change_matrix
                   c_conversion_factor management_factor input_factor
                   soc coef lc0 lc1))
      as [Hrun _]; [ lia | lia | simpl; lia | ].
    fold landcover in Hrun.
    destruct Hrun as [st' [Est Hlen]]; [ intros y Hy; apply Hcov; lia | ].
    rewrite Est. cbv beta iota delta [bind ok fst snd].
    destruct (select_index_in_range (soil_organic_carbon.soc_images st')
                (lc_year_end - start)) as [soc_end Eend]; [ rewrite Hlen; lia | ].
    destruct (select_index_in_range (soil_organic_carbon.soc_images st') 0)
      as [soc_start Estart]; [ rewrite Hlen; lia | ].
    rewrite Eend, Estart.
    eexists. split; reflexivity.
  - intros Hlt [y [Hy Hgap]].
    destruct (Z.eq_dec y start) as [-> | Hne0].
    { rewrite (N0 Hgap). reflexivity. }
    destruct D0 as [E0 | [lc0 E0]]; rewrite E0; [ reflexivity | ].
    cbv beta iota delta [bind ok].
    destruct (Z.eq_dec y (start + 1)) as [-> | Hne1].
    { rewrite (N1 Hgap). reflexivity. }
    destruct D1 as [E1 | [lc1 E1]]; rewrite E1; [ reflexivity | ].
    cbv beta iota delta [bind ok].
    destruct (loop_runs coef start lc_year_end
                (Z.to_nat (lc_year_end - (start + 1))) (start + 1)%Z
                (soil_organic_carbon.first_pair IPCC_lc_change_matrix
                   c_conversion_factor management_factor input_factor
                   soc coef lc0 lc1))
      as [_ Hfail]; [ lia | lia | simpl; lia | ].
    fold landcover in Hfail. rewrite Hfail; [ reflexivity | | ].
    + exists y. split; [ lia | exact Hgap ].
    + unfold soil_organic_carbon.lc_of_year in E1.
      destruct (filter (in_years (start + 1) (start + 1)) landcover)
        as [| img l] eqn:F; [ discriminate | ].
      exists img.
      assert (Hin : In img (filter (in_years (start + 1) (start + 1)) landcover))
        by (rewrite F; now left).
      apply filter_In in Hin. destruct Hin as [Hin Himg].
      apply filter_In in Hin. destruct Hin as [Hin _]. now split.
  - intros Heq.
    destruct D0 as [E0 | [lc0 E0]]; rewrite E0; [ reflexivity | ].
    cbv beta iota delta [bind ok].
    rewrite L1 by lia. reflexivity.
Qed.

End SocRun.

(** ** The output of the trajectory of the indicator script *)

Lemma int16_unmask_at (b : band) (p : pixel) :
  exists z : Z,
    int16 (unmask (-32768) b) p = Some (inject_Z z)
    /\ (-32768 <= z <= 32767)%Z.
Proof.
  unfold int16, lift1, unmask.
  destruct (b p) as [v |]; simpl option_map.
  - exists (Z.max (-32768) (Z.min 32767 (Qfloor v))). split; [ reflexivity | lia ].
  - exists (-32768)%Z. split; [ reflexivity | lia ].
Qed.

(** X27. When the trajectory of the indicator script returns, its first
    two bands are [scale] and [signif], and no cell of any of its bands is
    masked: every value is an integer of the 16-bit range. *)
Theorem trajectory_output_has_no_masked_cell :
  forall (prod_ndvi_trend : Z -> Z -> ImageCollection -> result (Image * Image))
         (prod_ue_trend :
            Z -> Z -> ImageCollection -> ImageCollection
            -> result (Image * Image))
         (get_kendall_coef : Z -> Z -> Q)
         (io : Model)
         (nvdi_yearly_integration climate_yearly_integration : ImageCollection)
         (out : Image),
    run.productivity_trajectory prod_ndvi_trend prod_ue_trend get_kendall_coef
      io nvdi_yearly_integration climate_yearly_integration = ok out ->
    (exists others, bandNames out = "scale" :: "signif" :: others)
    /\ forall (name : string) (b : band) (p : pixel),
         In (name, b) (bands out) ->
         exists z : Z,
           b p = Some (inject_Z z) /\ (-32768 <= z <= 32767)%Z.
Proof.
  intros ndvi_trend ue_trend kendall io ndvi clim out.
  unfold run.productivity_trajectory.
  match goal with
  | |- bind ?m _ = _ -> _ => destruct m as [e | [lf_trend mk_trend]]
  end; [ discriminate | ].
  cbv beta iota delta [bind ok fst snd].
  destruct (band_of "scale" lf_trend) as [e | scale]; [ discriminate | ].
  intros E. inversion E as [Hout]. clear E. split.
  - eexists. reflexivity.
  - intros name b p Hin.
    unfold map_bands at 1 in Hin. cbv beta iota delta [bands] in Hin.
    apply in_map_iff in Hin. destruct Hin as [[n1 b1] [E1 Hin]].
    unfold map_bands in Hin. cbv beta iota delta [bands] in Hin.
    apply in_map_iff in Hin. destruct Hin as [[n0 b0] [E0 _]].
    simpl in E0, E1. inversion E0; subst. inversion E1; subst.
    apply int16_unmask_at.
Qed.

(** ** The properties at work *)

(** One vegetation-index raster and one climate raster of the same year. *)
Lemma restrend_residuals_need_climate_for_every_year_witness :
  exists residuals,
    productivity.residual_series (fun _ => (constant 0, constant 1))
      [annual "ndvi" 2001 0.3] [annual "clim" 2001 100] = ok residuals
    /\ List.length residuals = 1%nat.
Proof.
  destruct (restrend_residuals_need_climate_for_every_year
              (fun _ => (constant 0, constant 1))
              [annual "ndvi" 2001 0.3] [annual "clim" 2001 100]) as [H _].
  - intros img [<- | []]. discriminate.
  - intros img [<- | []]. split; discriminate.
  - destruct H as [r [E [L _]]].
    + intros img [<- | []]. now left.
    + exists r. split; [ exact E | exact L ].
Defined.


(** A clear Landsat 8 cell. *)
Lemma cloud_mask_landsat_witness :
  exists img',
    integration.cloud_mask
      (mkImage [("NIR", constant 0.4); ("pixel_qa", constant 0)] None None)
      "Landsat 8" = ok img'
    /\ sample "NIR" img' (0, 0)%Z = Some 0.4.
Proof.
  destruct (cloud_mask_landsat
              (mkImage [("NIR", constant 0.4); ("pixel_qa", constant 0)]
                       None None) "Landsat 8" (0, 0)%Z 0)
    as [img' [E S]].
  - reflexivity.
  - reflexivity.
  - exists img'. split; [ exact E | ]. rewrite S. reflexivity.
Defined.

(** A clear Sentinel 2 cell of reflectance 5000. *)
Lemma cloud_mask_sentinel_scales_twice_witness :
  exists img' scaled,
    integration.cloud_mask
      (mkImage [("NIR", constant 5000); ("QA60", constant 0)] None None)
      "Sentinel 2" = ok img'
    /\ integration.apply_scale_factor img' "Sentinel 2" = ok scaled
    /\ sample "NIR" scaled (0, 0)%Z = Some (5000 / 10000 * 0.0001).
Proof.
  destruct (cloud_mask_sentinel_scales_twice
              (mkImage [("NIR", constant 5000); ("QA60", constant 0)]
                       None None) (0, 0)%Z 0)
    as [img' [scaled [E [E' S]]]].
  - reflexivity.
  - exists img', scaled. split; [ exact E | ]. split; [ exact E' | ].
    destruct (S "NIR" 5000) as [_ H]; [ reflexivity | exact H ].
Defined.

(** A clear MODIS cell. *)
Lemma cloud_mask_modis_witness :
  exists img',
    integration.cloud_mask
      (mkImage [("NDVI", constant 5000); ("DetailedQA", constant 0)] None None)
      "MODIS" = ok img'
    /\ sample "NDVI" img' (0, 0)%Z = Some 5000.
Proof.
  destruct (cloud_mask_modis
              (mkImage [("NDVI", constant 5000); ("DetailedQA", constant 0)]
                       None None) (0, 0)%Z 0)
    as [img' [E S]].
  - reflexivity.
  - exists img'. split; [ exact E | ]. rewrite S. reflexivity.
Defined.

(** MODIS is no sensor of [apply_scale_factor]. *)
Lemma apply_scale_factor_needs_a_known_sensor_witness :
  integration.apply_scale_factor (single "NDVI" (constant 5000)) "MODIS"
  = raise (UnboundLocalError "scalled_img").
Proof.
  destruct (apply_scale_factor_needs_a_known_sensor
              (single "NDVI" (constant 5000)) "MODIS") as [_ [H _]].
  - simpl. intros H. repeat (destruct H as [H | H]; [ discriminate H | ]).
    exact H.
  - exact H.
Defined.

(** Reflectances of 0.5 in the near infrared and 0.1 in the red. *)
Lemma vegetation_indices_are_bounded_witness :
  exists ndvi v,
    integration.calculate_ndvi
      (mkImage [("NIR", constant 0.5); ("Red", constant 0.1)] None None)
    = ok ndvi
    /\ sample "ndvi" ndvi (0, 0)%Z = Some v
    /\ -1 <= v <= 1.
Proof.
  destruct (vegetation_indices_are_bounded
              (mkImage [("NIR", constant 0.5); ("Red", constant 0.1)] None None)
              (0, 0)%Z 0.5 0.1)
    as [ndvi [evi [v [w [E [_ [_ [_ [S [_ [R _]]]]]]]]]]].
  - reflexivity.
  - reflexivity.
  - vm_compute. discriminate.
  - vm_compute. discriminate.
  - vm_compute. reflexivity.
  - exists ndvi, v. split; [ exact E | ]. split; [ exact S | exact R ].
Defined.

(** An index of 0.1 under a threshold of 0.2. *)
Lemma vi_threshold_zeroes_low_values_witness :
  exists w,
    sample "ndvi"
      (integration.vi_threshold (single "ndvi" (constant 0.1)) 0.2) (0, 0)%Z
    = Some w
    /\ w == 0.
Proof.
  destruct (vi_threshold_zeroes_low_values
              (single "ndvi" (constant 0.1)) 0.2 "ndvi" (0, 0)%Z 0.1)
    as [w [w' [S [_ [L _]]]]].
  - reflexivity.
  - exists w. split; [ exact S | ]. apply L. vm_compute. discriminate.
Defined.

(** Three sensors, one of them without a start. *)
Lemma integration_period_covers_every_window_witness :
  In (Some 1999%Z) [Some 2001%Z; None; Some 1999%Z]
  /\ (1999 <= 2001)%Z.
Proof.
  destruct (integration_period_covers_every_window
              [Some 2001%Z; None; Some 1999%Z] []) as [H _].
  destruct (H 1999%Z) as [Hin Hmin].
  - reflexivity.
  - split; [ exact Hin | ]. apply Hmin. simpl. tauto.
Defined.

(** One observation in 2001, of value 0.4: the composite of
    [int_yearly_ndvi] holds the 32-bit float next to it. *)
Lemma one_observation_a_year_is_kept_witness :
  exists ndvi a va,
    integration.int_yearly_ndvi [observation 2001 3 5 0.4] 2001 2001 = ok ndvi
    /\ filter (has_year 2001) ndvi = [a]
    /\ sample "vi" a (0, 0)%Z = Some va
    /\ va == 13421773 # 33554432.
Proof.
  destruct (one_observation_a_year_is_kept
              [observation 2001 3 5 0.4] "ndvi" 2001 2001 2001
              (observation 2001 3 5 0.4) (0, 0)%Z)
    as [ndvi [modis [clim [a [b [c [En [_ [_ [Fa [_ [_ H]]]]]]]]]]]].
  - lia.
  - intros img [<- | []]. reflexivity.
  - intros y Hy. assert (Ey : y = 2001%Z) by lia. subst y. discriminate.
  - reflexivity.
  - change (the_band (observation 2001 3 5 0.4) (0, 0)%Z) with (Some 0.4) in H.
    cbv beta iota in H. destruct H as [S _].
    exists ndvi, a, (float32 0.4).
    split; [ exact En | ]. split; [ exact Fa | ]. split; [ exact S | ].
    vm_compute. reflexivity.
Defined.

(** One image of net primary productivity in the one year of the range. *)
Lemma preproc_modis_npp_needs_every_year_witness :
  exists series,
    integration.preproc_modis_npp [observation 2001 1 1 5000] 2001 2001
    = ok series
    /\ map year series = [Some 2001%Z].
Proof.
  destruct (preproc_modis_npp_needs_every_year
              [observation 2001 1 1 5000] "ndvi" 2001 2001) as [H _].
  { intros img [<- | []]. reflexivity. }
  destruct H as [series [E T]].
  - intros y Hy. assert (Ey : y = 2001%Z) by lia. subst y. discriminate.
  - exists series. split; [ exact E | exact T ].
Defined.

(** A slope of 50 with a trend of 0.8, above the three coefficients. *)
Lemma significance_class_of_the_trend_witness :
  run.signif_classes (constant 50) (constant 0.8) 0.3 0.5 0.7 (0, 0)%Z
  = Some 3.
Proof.
  destruct (significance_class_of_the_trend
              (constant 50) (constant 0.8) 0.3 0.5 0.7 (0, 0)%Z 50 0.8)
    as [_ H].
  - reflexivity.
  - reflexivity.
  - destruct H as [Hpos _].
    + vm_compute. reflexivity.
    + vm_compute. reflexivity.
    + apply Hpos. vm_compute. reflexivity.
Defined.

(** The second year after a transition: the stock of 97.5 loses 2.5 again. *)
Lemma soc_change_runs_for_twenty_years_witness :
  exists st' soc_final,
    soil_organic_carbon.step [102] [0.5] [1] [1] (constant 1) 1
      (constant 2) (constant 2)
      (soil_organic_carbon.mkState (constant 102) (constant 2) (constant 2.5)
         [constant 1; constant 2] [constant 100; constant 97.5]) = ok st'
    /\ soil_organic_carbon.lc_transition_time st' (0, 0)%Z = Some (2 + 1)
    /\ soc_final (0, 0)%Z = Some (97.5 - 2.5).
Proof.
  destruct (soc_change_runs_for_twenty_years [102] [0.5] [1] [1]
              (constant 1) (constant 2) (constant 2) (constant 97.5) 1
              (soil_organic_carbon.mkState (constant 102) (constant 2)
                 (constant 2.5) [constant 1; constant 2]
                 [constant 100; constant 97.5])
              (0, 0)%Z 2 2 2 2.5 97.5)
    as [st' [soc_final [E [_ [H _]]]]].
  - reflexivity.
  - reflexivity.
  - reflexivity.
  - reflexivity.
  - reflexivity.
  - reflexivity.
  - destruct H as [T [K _]]; [ reflexivity | ].
    destruct K as [_ F]; [ vm_compute; discriminate | ].
    exists st', soc_final. split; [ exact E | ]. split; [ exact T | exact F ].
Defined.

(** The land cover of 2000 to 2004, one image a year. *)
Lemma soil_organic_carbon_needs_land_cover_every_year_witness :
  exists img,
    soil_organic_carbon.soil_organic_carbon
      (constant 100)
      [land_cover_of 2000 1; land_cover_of 2001 2; land_cover_of 2002 2;
       land_cover_of 2003 2; land_cover_of 2004 2]
      1992 2020
      (constant 1) ([1], [1])
      ([1; 2], [1; 2])
      [102] [0.5] [1] [1]
      (fun _ => true)
      (mkModel "ndvi_trend" 2000 2004 2001 2003 2000 2004 None) = ok img
    /\ bandNames img = ["soc"].
Proof.
  destruct (soil_organic_carbon_needs_land_cover_every_year
              (constant 100)
              [land_cover_of 2000 1; land_cover_of 2001 2; land_cover_of 2002 2;
               land_cover_of 2003 2; land_cover_of 2004 2]
              1992 2020
              (constant 1) ([1], [1])
              ([1; 2], [1; 2])
              [102] [0.5] [1] [1]
              (fun _ => true)
              (mkModel "ndvi_trend" 2000 2004 2001 2003 2000 2004 None))
    as [H _].
  apply H.
  - reflexivity.
  - intros y Hy. simpl in Hy.
    assert (Ey : (y = 2000 \/ y = 2001 \/ y = 2002 \/ y = 2003 \/ y = 2004)%Z)
      by lia.
    destruct Ey as [-> | [-> | [-> | [-> | ->]]]];
      [ exists (land_cover_of 2000 1) | exists (land_cover_of 2001 2)
      | exists (land_cover_of 2002 2) | exists (land_cover_of 2003 2)
      | exists (land_cover_of 2004 2) ];
      (split; [ simpl; tauto | reflexivity ]).
Defined.

(** A trend of slope 12 without rank correlation. *)
Lemma trajectory_output_has_no_masked_cell_witness :
  exists out others,
    run.productivity_trajectory
      (fun _ _ _ => ok (single "scale" (constant 12), single "tau" masked))
      (fun _ _ _ _ => raise (EEException "unused"))
      (fun _ _ => 0.5)
      (mkModel "ndvi_trend" 2001 2004 2002 2003 2001 2004 None) [] [] = ok out
    /\ bandNames out = "scale" :: "signif" :: others.
Proof.
  eexists.
  destruct (trajectory_output_has_no_masked_cell
              (fun _ _ _ => ok (single "scale" (constant 12), single "tau" masked))
              (fun _ _ _ _ => raise (EEException "unused"))
              (fun _ _ => 0.5)
              (mkModel "ndvi_trend" 2001 2004 2002 2003 2001 2004 None) [] []
              _ Logic.eq_refl) as [[others H] _].
  exists others. split; [ reflexivity | exact H ].
Defined.
